(** * A shallow embedding of the library service (app.py, clear_data.py)

    The Flask application keeps authors, publishers, books, borrow requests,
    ratings and admin sessions in a document store and guards its writing
    endpoints with bearer tokens.  This file embeds the helpers and the
    request handlers of [app.py], and the purge of [clear_data.py], as
    functions over an explicit store and proves the properties of its
    specification and further properties of the code. *)

From stdpp Require Import gmap strings list fin_maps sorting.
From Stdlib Require Import Ascii QArith.QArith_base QArith.Qreduction.

Local Open Scope Z_scope.

(** ** Python values

    Request bodies and stored documents are schema-less, so a field holds any
    JSON value.  A string is a sequence of code points below 256; a finite
    float is kept as the rational it denotes (the sign of a zero is not
    kept); [json.loads] also produces infinities and NaN.  A nested object
    keeps its keys in insertion order. *)

Inductive pyfloat :=
| Ffin (q : Q)
| Finf (negative : bool)
| Fnan.

#[warnings="-register-all"]
Inductive value :=
| VNone
| VBool (b : bool)
| VInt (n : Z)
| VFloat (f : pyfloat)
| VStr (s : string)
| VList (l : list value)
| VDict (d : list (string * value)).

(** Truth value of an object, as tested by [if x], [not x] and [x or y]. *)
Definition truthy (v : value) : bool :=
  match v with
  | VNone => false
  | VBool b => b
  | VInt n => negb (n =? 0)
  | VFloat (Ffin q) => negb (Qnum q =? 0)
  | VFloat _ => true
  | VStr s => match s with EmptyString => false | String _ _ => true end
  | VList l => match l with [] => false | _ :: _ => true end
  | VDict d => match d with [] => false | _ :: _ => true end
  end.

(** [a or b] *)
Definition py_or (a b : value) : value := if truthy a then a else b.

(** ** Exceptions *)

Inductive exn :=
| TypeError
| ValueError
| OverflowError
| AttributeError
| ZeroDivisionError
| StoreError.

Inductive py (A : Type) :=
| Ret (a : A)
| Raise (e : exn).
Arguments Ret {A} a.
Arguments Raise {A} e.

#[global] Instance py_ret : MRet py := fun A a => Ret a.

#[global] Instance py_bind : MBind py := fun A B k m =>
  match m with
  | Ret a => k a
  | Raise e => Raise e
  end.

(** ** Strings *)

Definition ord (c : ascii) : N := N_of_ascii c.

(** The characters removed by [str.strip()]. *)
Definition isspace (c : ascii) : bool :=
  let n := ord c in
  ((9 <=? n) && (n <=? 13) || (28 <=? n) && (n <=? 32) || (n =? 133) || (n =? 160))%N.

Fixpoint lstrip (s : string) : string :=
  match s with
  | EmptyString => EmptyString
  | String c r => if isspace c then lstrip r else s
  end.

Fixpoint rstrip (s : string) : string :=
  match s with
  | EmptyString => EmptyString
  | String c r =>
      match rstrip r with
      | EmptyString => if isspace c then EmptyString else String c EmptyString
      | r' => String c r'
      end
  end.

Definition strip (s : string) : string := rstrip (lstrip s).

(** [s.split(sep)] *)
Fixpoint str_split (sep : ascii) (s : string) : list string :=
  match s with
  | EmptyString => [EmptyString]
  | String c r =>
      if Ascii.eqb c sep then EmptyString :: str_split sep r
      else match str_split sep r with
           | x :: xs => String c x :: xs
           | [] => [String c EmptyString]
           end
  end.

(** The characters [int()] skips around a literal: the C-locale blanks, and
    the non-ASCII spaces, which it first rewrites to a blank. *)
Definition int_space (c : ascii) : bool :=
  let n := ord c in
  ((9 <=? n) && (n <=? 13) || (n =? 32) || (n =? 133) || (n =? 160))%N.

Fixpoint int_lstrip (s : string) : string :=
  match s with
  | EmptyString => EmptyString
  | String c r => if int_space c then int_lstrip r else s
  end.

Fixpoint int_rstrip (s : string) : string :=
  match s with
  | EmptyString => EmptyString
  | String c r =>
      match int_rstrip r with
      | EmptyString => if int_space c then EmptyString else String c EmptyString
      | r' => String c r'
      end
  end.

Definition digit_of (c : ascii) : option Z :=
  let n := ord c in
  if ((48 <=? n) && (n <=? 57))%N then Some (Z.of_N n - 48) else None.

(** Decimal digits, where single underscores may separate two digits.
    [after_digit] tells whether the previous character was a digit. *)
Fixpoint int_digits (acc : Z) (after_digit : bool) (s : string) : option Z :=
  match s with
  | EmptyString => if after_digit then Some acc else None
  | String c r =>
      match digit_of c with
      | Some d => int_digits (10 * acc + d) true r
      | None =>
          if Ascii.eqb c "_"%char && after_digit then int_digits acc false r else None
      end
  end.

(** [int(s)] for a string [s]: [None] stands for its ValueError.  (The
    interpreter's bound on the number of digits of a literal is not
    modelled.) *)
Definition int_of_str (s : string) : option Z :=
  match int_rstrip (int_lstrip s) with
  | String "+"%char r => int_digits 0 false r
  | String "-"%char r => Z.opp <$> int_digits 0 false r
  | r => int_digits 0 false r
  end.

(** [int(v)] *)
Definition py_int (v : value) : py Z :=
  match v with
  | VNone => Raise TypeError
  | VBool b => Ret (if b then 1 else 0)
  | VInt n => Ret n
  | VFloat (Ffin q) => Ret (Z.quot (Qnum q) (Z.pos (Qden q)))
  | VFloat (Finf _) => Raise OverflowError
  | VFloat Fnan => Raise ValueError
  | VStr s => match int_of_str s with Some n => Ret n | None => Raise ValueError end
  | VList _ => Raise TypeError
  | VDict _ => Raise TypeError
  end.

(** The integer nearest to [n / d] for a positive [d], a tie going to the
    even one. *)
Definition round_half_even (n d : Z) : Z :=
  let q := n / d in
  match 2 * (n mod d) ?= d with
  | Lt => q
  | Gt => q + 1
  | Eq => if Z.even q then q else q + 1
  end.

(** [x] times two to the [k], for a [k] that is not negative, and [x] for
    the others. *)
Definition scale (x k : Z) : Z := x * 2 ^ Z.max 0 k.

(** [a / b] on two integers: the double nearest to the quotient, a tie
    going to the even mantissa.  The mantissa [m] has 53 bits and the
    exponent [e] of its last bit is at least -1074; a quotient that rounds to
    two to the 1024 or more is beyond the doubles. *)
Definition truediv (a b : Z) : py pyfloat :=
  if b =? 0 then Raise ZeroDivisionError
  else if a =? 0 then Ret (Ffin 0)
  else
    let n := Z.abs a in
    let d := Z.abs b in
    let k := Z.log2 n - Z.log2 d in
    let k := if scale d k <=? scale n (- k) then k else k - 1 in
    let e := Z.max (k - 52) (-1074) in
    let m := round_half_even (scale n (- e)) (scale d e) in
    if 2 ^ 1024 <=? scale m e then Raise OverflowError
    else Ret (Ffin (Qred (Qmake (Z.sgn a * Z.sgn b * scale m e)
                                (Z.to_pos (scale 1 (- e)))))).

(** ** Parsing and pagination helpers *)

Definition to_int (value : value) (default : option Z) : py (option Z) :=
  match py_int value with
  | Ret n => Ret (Some n)
  | Raise TypeError => Ret default
  | Raise ValueError => Ret default
  | Raise e => Raise e
  end.

Definition parse_limit (value : value) (default : Z) (max_limit : option Z) : py Z :=
  n ← to_int value (Some default);
  match n with
  | None => Ret default
  | Some n =>
      if n <? 1 then Ret 1
      else match max_limit with
           | Some m => if m <? n then Ret m else Ret n
           | None => Ret n
           end
  end.

Definition parse_offset (value : value) (default : Z) : py Z :=
  n ← to_int value (Some default);
  match n with
  | None => Ret default
  | Some n => Ret (Z.max 0 n)
  end.

(** [l[start:stop]] with Python's clamping of both indices. *)
Definition slice_index (len i : Z) : Z :=
  if i <? 0 then Z.max 0 (i + len) else Z.min i len.

Definition slice {A} (l : list A) (start stop : Z) : list A :=
  let len := Z.of_nat (length l) in
  let lo := slice_index len start in
  let hi := slice_index len stop in
  take (Z.to_nat (hi - lo)) (drop (Z.to_nat lo) l).

Record page (A : Type) := Page {
  p_items : list A;
  p_total : Z;
  p_limit : Z;
  p_offset : Z;
  p_has_more : bool
}.
Arguments Page {A}.
Arguments p_items {A}.
Arguments p_total {A}.
Arguments p_limit {A}.
Arguments p_offset {A}.
Arguments p_has_more {A}.

Definition paginate {A} (items : list A) (limit offset : Z) : page A :=
  let total := Z.of_nat (length items) in
  let size := Z.max 1 (if limit =? 0 then 1 else limit) in
  let start := Z.max 0 offset in
  let end_ := Z.min (start + size) total in
  {| p_items := slice items start end_;
     p_total := total;
     p_limit := size;
     p_offset := offset;
     p_has_more := end_ <? total |}.

(** [request.args.get(name)]: the query-string value, or [None]. *)
Definition arg (q : option string) : value :=
  match q with
  | Some s => VStr s
  | None => VNone
  end.

(** ** Tags *)

Definition TAG_OPTIONS : list string :=
  [ "Science Fiction"; "Fantasy"; "Mystery"; "Historical"; "Romance";
    "Non-fiction"; "Biography"; "Young Adult"; "Horror"; "Adventure";
    "Classic"; "Thriller"; "Humor"; "Political"; "Novella" ].

(** [v.strip()]: only strings have the method. *)
Definition str_strip (v : value) : py string :=
  match v with
  | VStr s => Ret (strip s)
  | _ => Raise AttributeError
  end.

(** The sequence a [for] loop walks through. *)
Definition iterate (v : value) : py (list value) :=
  match v with
  | VList l => Ret l
  | VDict d => Ret (VStr <$> d.*1)
  | VStr s => Ret ((λ c, VStr (String c EmptyString)) <$> String.list_ascii_of_string s)
  | _ => Raise TypeError
  end.

(** One round of the loop of [sanitize_tags]. *)
Definition sanitize_step (allowed : gset string) (cleaned : list string) (tag : value)
  : py (list string) :=
  t ← str_strip (py_or tag (VStr ""));
  if truthy (VStr t) && bool_decide (t ∈ allowed) && negb (bool_decide (t ∈ cleaned))
  then Ret (cleaned ++ [t])
  else Ret cleaned.

Fixpoint for_each {A B} (body : A → B → py A) (acc : A) (l : list B) : py A :=
  match l with
  | [] => Ret acc
  | x :: r => acc' ← body acc x; for_each body acc' r
  end.

Definition sanitize_tags (value : value) : py (list string) :=
  if negb (truthy value) then Ret []
  else
    tags ← match value with
           | VStr _ => Ret [value]
           | _ => iterate value
           end;
    let allowed : gset string := list_to_set TAG_OPTIONS in
    for_each (sanitize_step allowed) [] tags.

(** ** The document store

    A dictionary (request body, payload or stored document) maps field names
    to values; a collection maps document ids to documents; the database maps
    collection names to collections.  Every call of the store client is
    assumed to reach the store, and a stored value is read back as it was
    written.  Field names are plain (top-level) names.  The id of a route is
    one segment of the URL and is taken as the id of a document of the
    collection; an id that comes from a request body goes through the path
    handling of the client ([document]).  The store's limits on values are
    not modelled.  A request body is a JSON object, or absent. *)

Abbreviation dict := (gmap string value).

Definition ADMIN_SESSIONS : string := "admin_sessions".
Definition AUTHORS : string := "authors".
Definition PUBLISHERS : string := "publishers".
Definition BOOKS : string := "books".
Definition BORROW_REQUESTS : string := "borrows".
Definition RATINGS : string := "ratings".

Record world := World {
  db : gmap string (gmap string dict);
  _admin_tokens : gset string
}.

(** What a request reads from outside the program: the clock (successive
    readings), the draws of the generator behind the store's automatic ids,
    and the bytes of the system's secure generator. *)
Record env := Env {
  clock : nat → string;
  choice : nat → nat;
  urandom : nat → N
}.

Definition now_iso (e : env) : string := clock e 0%nat.

(** The environment after one reading of the clock. *)
Definition tick (e : env) : env :=
  {| clock := λ k, clock e (S k); choice := choice e; urandom := urandom e |}.

(** Computations that read and write the world and may raise. *)
Definition io (A : Type) : Type := world → py A * world.

#[global] Instance io_ret : MRet io := fun A a w => (Ret a, w).

#[global] Instance io_bind : MBind io := fun A B k m w =>
  match m w with
  | (Ret a, w') => k a w'
  | (Raise e, w') => (Raise e, w')
  end.

Definition lift {A} (m : py A) : io A := fun w => (m, w).

Definition dict_get (d : dict) (k : string) : value := default VNone (d !! k).

Definition setdefault (k : string) (v : value) (d : dict) : dict :=
  match d !! k with
  | Some _ => d
  | None => <[k := v]> d
  end.

Definition collection (w : world) (col : string) : gmap string dict :=
  default ∅ (db w !! col).

Definition put_collection (col : string) (c : gmap string dict) (w : world) : world :=
  {| db := <[col := c]> (db w); _admin_tokens := _admin_tokens w |}.

(** [db.collection(col).document(id).get()]: the snapshot, [None] when the
    document does not exist. *)
Definition doc_get (col id : string) : io (option dict) :=
  fun w => (Ret (collection w col !! id), w).

(** [ref.set(payload)] *)
Definition doc_set (col id : string) (payload : dict) : io () :=
  fun w => (Ret (), put_collection col (<[id := payload]> (collection w col)) w).

(** [ref.update(payload)]: merges into an existing document. *)
Definition doc_update (col id : string) (payload : dict) : io () :=
  fun w =>
    match collection w col !! id with
    | Some d => (Ret (), put_collection col (<[id := payload ∪ d]> (collection w col)) w)
    | None => (Raise StoreError, w)
    end.

(** [ref.delete()] *)
Definition doc_delete (col id : string) : io () :=
  fun w => (Ret (), put_collection col (delete id (collection w col)) w).

Definition _AUTO_ID_CHARS : string :=
  "ABCDEFGHIJKLMNOPQRSTUVWXYZabcdefghijklmnopqrstuvwxyz0123456789".

Definition char_at (alphabet : string) (i : nat) : ascii :=
  default "A"%char (String.get i alphabet).

(** The id of [collection.document()]: twenty characters drawn from
    [_AUTO_ID_CHARS]. *)
Definition auto_id (e : env) : string :=
  String.string_of_list_ascii
    ((λ k, char_at _AUTO_ID_CHARS (choice e k `mod` 62)) <$> seq 0 20).

(** [db.collection(col).add(entry)]: creates a document under an automatic id,
    and fails if that id is taken. *)
Definition doc_add (e : env) (col : string) (entry : dict) : io () :=
  fun w =>
    match collection w col !! auto_id e with
    | Some _ => (Raise StoreError, w)
    | None => doc_set col (auto_id e) entry w
    end.

(** The reference [db.collection(col).document(id)] for an id taken from a
    request body, as the path of a collection and an id in it.  [None] asks
    for an automatic id.  The client joins the name of the collection and the
    id with "/", which fails for an id that is not a string, and splits the
    path at every "/" again: a path with an odd number of elements names no
    document and is refused, one with more than two names a document of a
    nested collection.  This is the check of the client; the ids that only
    the store refuses (the empty one, ".", "..", the reserved ones) pass
    it. *)
Definition document (e : env) (col : string) (id : value) : py (string * string) :=
  match id with
  | VNone => Ret (col, auto_id e)
  | VStr s =>
      let path := str_split "/"%char (col +:+ "/" +:+ s) in
      if Nat.even (length path)
      then Ret (String.concat "/" (removelast path), List.last path "")
      else Raise ValueError
  | _ => Raise TypeError
  end.

(** ** Helpers of the handlers *)

Definition doc_to_dict (id : string) (snapshot : option dict) : dict :=
  <["id" := VStr id]> (default ∅ snapshot).

Definition get_one (col id : string) : io (option dict) :=
  ref ← doc_get col id;
  mret (match ref with
        | Some _ => Some (doc_to_dict id ref)
        | None => None
        end).

Definition exists_ (e : env) (col : string) (id : value) : io bool :=
  ref ← lift (document e col id);
  snap ← doc_get ref.1 ref.2;
  mret (bool_decide (is_Some snap)).

Definition create (e : env) (col : string) (data : option dict) : io dict :=
  let ref := auto_id e in
  let payload := default ∅ data in
  let ts := now_iso e in
  let payload := setdefault "createdAt" (VStr ts) payload in
  let payload := <["updatedAt" := VStr ts]> payload in
  doc_set col ref payload;;
  snap ← doc_get col ref;
  mret (doc_to_dict ref snap).

Definition update_one (e : env) (col id : string) (data : option dict) : io (option dict) :=
  snap ← doc_get col id;
  match snap with
  | None => mret None
  | Some _ =>
      let payload := default ∅ data in
      let payload := <["updatedAt" := VStr (now_iso e)]> payload in
      doc_update col id payload;;
      snap' ← doc_get col id;
      mret (Some (doc_to_dict id snap'))
  end.

Definition delete_one (col id : string) : io bool :=
  snap ← doc_get col id;
  match snap with
  | None => mret false
  | Some _ => doc_delete col id;; mret true
  end.

Definition require_fields (data : dict) (required : list string) : bool * option string :=
  let missing := filter (λ f, truthy (dict_get data f) = false) required in
  match missing with
  | [] => (true, None)
  | _ => (false, Some ("Missing required field(s): " +:+ String.concat ", " missing))
  end.

Definition create_borrow_record (e : env) (book data : dict) : io dict :=
  name ← lift (str_strip (default (VStr "") (data !! "name")));
  email ← lift (str_strip (default (VStr "") (data !! "email")));
  notes ← lift (str_strip (py_or (dict_get data "notes") (VStr "")));
  let payload : dict :=
    <["book_id" := dict_get book "id"]>
    (<["book_title" := dict_get book "title"]>
    (<["name" := VStr name]>
    (<["email" := VStr email]>
    (<["notes" := VStr notes]>
    (<["status" := VStr "pending"]>
    (<["createdAt" := VStr (now_iso e)]> ∅)))))) in
  let ref := auto_id e in
  doc_set BORROW_REQUESTS ref payload;;
  mret (<["id" := VStr ref]> payload).

Definition record_rating (e : env) (book_id : string) (rating : Z) (notes name : value)
  : io dict :=
  notes ← lift (str_strip (py_or notes (VStr "")));
  name ← lift (str_strip (py_or name (VStr "")));
  let entry : dict :=
    <["book_id" := VStr book_id]>
    (<["rating" := VInt rating]>
    (<["notes" := VStr notes]>
    (<["name" := VStr name]>
    (<["createdAt" := VStr (now_iso e)]> ∅)))) in
  doc_add e RATINGS entry;;
  mret entry.

(** ** Responses *)

Inductive body :=
| JDoc (d : dict)
| JDocs (l : list dict)
| JPage (p : page dict)
| JToken (token : string)
| JOk
| JError (message : string)
| JRated (rating_avg : value) (rating_count : Z)
| JBorrowed (request : dict)
| NoContent
| Uncaught (e : exn).

(** A body and its HTTP status; [jsonify(x)] alone answers 200, and an
    exception that leaves a handler answers 500. *)
Definition response : Type := body * Z.

Definition json_error (message : string) (status : Z) : response :=
  (JError message, status).

Definition not_found : response := (JError "Not found", 404).

(** The status a client sees for the outcome of a handler. *)
Definition status_of (r : py response) : Z :=
  match r with
  | Ret (_, status) => status
  | Raise _ => 500
  end.

(** ** Sessions *)

(** [s.split(" ", 1)]: the text before the first blank and, when there is a
    blank, the text after it. *)
Fixpoint split_blank (s : string) : string * option string :=
  match s with
  | EmptyString => (EmptyString, None)
  | String c r =>
      if Ascii.eqb c " "%char then (EmptyString, Some r)
      else let '(a, b) := split_blank r in (String c a, b)
  end.

(** The token of the [Authorization] header.  After the prefix test the
    split always has a second part. *)
Definition _extract_token (authorization : option string) : option string :=
  let auth_header := default "" authorization in
  if String.prefix "Bearer " auth_header
  then strip <$> (split_blank auth_header).2
  else None.

Definition add_token (token : string) : io () :=
  fun w => (Ret (), {| db := db w; _admin_tokens := {[token]} ∪ _admin_tokens w |}).

Definition discard_token (token : string) : io () :=
  fun w => (Ret (), {| db := db w; _admin_tokens := _admin_tokens w ∖ {[token]} |}).

Definition unauthorized : response := json_error "Unauthorized" 401.

(** The decorator.  On a cache miss the wrapped handler runs inside the
    [try] block, so an exception it raises there ends in the same 401. *)
Definition require_admin (fn : io response) (authorization : option string) : io response :=
  fun w =>
    match _extract_token authorization with
    | Some token =>
        if truthy (VStr token) then
          if bool_decide (token ∈ _admin_tokens w) then fn w
          else
            match collection w ADMIN_SESSIONS !! token with
            | Some _ =>
                match (add_token token;; fn) w with
                | (Ret r, w') => (Ret r, w')
                | (Raise _, w') => (Ret unauthorized, w')
                end
            | None => (Ret unauthorized, w)
            end
        else (Ret unauthorized, w)
    | None => (Ret unauthorized, w)
    end.

Definition urlsafe_alphabet : string :=
  "ABCDEFGHIJKLMNOPQRSTUVWXYZabcdefghijklmnopqrstuvwxyz0123456789-_".

(** The six-bit groups of a byte sequence, the last one padded with zeros. *)
Fixpoint sextets (bs : list N) : list N :=
  match bs with
  | [] => []
  | [a] => [a `div` 4; (a `mod` 4) * 16]%N
  | [a; b] => [a `div` 4; (a `mod` 4) * 16 + b `div` 16; (b `mod` 16) * 4]%N
  | a :: b :: c :: r =>
      [a `div` 4; (a `mod` 4) * 16 + b `div` 16; (b `mod` 16) * 4 + c `div` 64; c `mod` 64]%N
      ++ sextets r
  end.

Definition token_bytes (e : env) (nbytes : nat) : list N :=
  (λ k, urandom e k `mod` 256)%N <$> seq 0 nbytes.

(** [secrets.token_urlsafe(nbytes)]: the unpadded URL-safe Base64 text of
    [nbytes] random bytes. *)
Definition token_urlsafe (e : env) (nbytes : nat) : string :=
  String.string_of_list_ascii
    ((λ s, char_at urlsafe_alphabet (N.to_nat s)) <$> sextets (token_bytes e nbytes)).

(** [v == s] for a string [s] *)
Definition eq_str (v : value) (s : string) : bool :=
  match v with
  | VStr t => String.eqb t s
  | _ => false
  end.

Definition session_info : io response := mret (JOk, 200).

Definition logout (authorization : option string) : io response :=
  match _extract_token authorization with
  | Some token =>
      if truthy (VStr token)
      then discard_token token;; doc_delete ADMIN_SESSIONS token;; mret (JOk, 200)
      else mret (JOk, 200)
  | None => mret (JOk, 200)
  end.

(** ** Text filters of the list endpoints *)

Definition lower_char (c : ascii) : ascii :=
  let n := ord c in
  if ((65 <=? n) && (n <=? 90) || (192 <=? n) && (n <=? 214) || (216 <=? n) && (n <=? 222))%N
  then ascii_of_N (n + 32)
  else c.

Fixpoint lower (s : string) : string :=
  match s with
  | EmptyString => EmptyString
  | String c r => String (lower_char c) (lower r)
  end.

(** [v.lower()] *)
Definition str_lower (v : value) : py string :=
  match v with
  | VStr s => Ret (lower s)
  | _ => Raise AttributeError
  end.

(** [needle in hay] on strings *)
Fixpoint contains (needle hay : string) : bool :=
  String.prefix needle hay ||
  match hay with
  | EmptyString => false
  | String _ r => contains needle r
  end.

(** A list comprehension whose condition may raise. *)
Fixpoint comprehension {A} (cond : A → py bool) (l : list A) : py (list A) :=
  match l with
  | [] => Ret []
  | x :: r =>
      b ← cond x;
      r' ← comprehension cond r;
      Ret (if b : bool then x :: r' else r')
  end.

(** [i.get(field, "") or ""] lowered contains [q] *)
Definition text_matches (field q : string) (i : dict) : py bool :=
  s ← str_lower (py_or (default (VStr "") (i !! field)) (VStr ""));
  Ret (contains q s).

(** [set(v)]: the elements of [v], which must be hashable. *)
Definition py_set (v : value) : py (list value) :=
  elems ← iterate v;
  if forallb (λ x, match x with VList _ | VDict _ => false | _ => true end) elems
  then Ret elems
  else Raise TypeError.

Definition has_tags (tag_filters : list string) (i : dict) : py bool :=
  tags ← py_set (py_or (dict_get i "tags") (VList []));
  Ret (forallb (λ t, existsb (λ x, eq_str x t) tags) tag_filters).

(** [collection.stream()]: the documents in the order of their ids. *)
Definition stream (col : string) (w : world) : list (string * dict) :=
  merge_sort (λ x y : string * dict, String.leb x.1 y.1) (map_to_list (collection w col)).

Definition list_all (col : string) : io (list dict) :=
  fun w => (Ret ((λ d, doc_to_dict d.1 (Some d.2)) <$> stream col w), w).

Abbreviation query := (gmap string string).

(** [(request.args.get(name) or "").strip()] *)
Definition arg_text (args : query) (name : string) : string :=
  strip (default "" (args !! name)).

(** The last three lines of every list endpoint. *)
Definition paginated (args : query) (items : list dict) : io response :=
  limit ← lift (parse_limit (arg (args !! "limit")) 10 (Some 100));
  offset ← lift (parse_offset (arg (args !! "offset")) 0);
  mret (JPage (paginate items limit offset), 200).

(** ** Request handlers *)

Section App.

(** The operator's credentials, read from the process environment when the
    application starts. *)
Variables ADMIN_USERNAME ADMIN_PASSWORD : string.

Definition login (e : env) (body : option dict) : io response :=
  let data := default ∅ body in
  username ← lift (str_strip (py_or (dict_get data "username") (VStr "")));
  let password := py_or (dict_get data "password") (VStr "") in
  if String.eqb username ADMIN_USERNAME && eq_str password ADMIN_PASSWORD then
    let token := token_urlsafe e 32 in
    add_token token;;
    doc_set ADMIN_SESSIONS token {["createdAt" := VStr (now_iso e)]};;
    mret (JToken token, 200)
  else mret (json_error "Invalid credentials" 401).

(** *** Authors *)

Definition authors_list (args : query) : io response :=
  items ← list_all AUTHORS;
  let q := lower (arg_text args "q") in
  items ← (if truthy (VStr q)
           then lift (comprehension (text_matches "name" q) items)
           else mret items);
  paginated args items.

Definition authors_get (id : string) : io response :=
  x ← get_one AUTHORS id;
  mret (match x with Some x => (JDoc x, 200) | None => not_found end).

Definition authors_create (e : env) (body : option dict) : io response :=
  let data := default ∅ body in
  match require_fields data ["name"] with
  | (false, msg) => mret (json_error (default "" msg) 400)
  | (true, _) => x ← create e AUTHORS (Some data); mret (JDoc x, 201)
  end.

Definition authors_update (e : env) (id : string) (body : option dict) : io response :=
  x ← update_one e AUTHORS id body;
  mret (match x with Some x => (JDoc x, 200) | None => not_found end).

Definition authors_delete (id : string) : io response :=
  ok ← delete_one AUTHORS id;
  mret (if ok : bool then (NoContent, 204) else not_found).

(** *** Publishers *)

Definition pubs_list (args : query) : io response :=
  items ← list_all PUBLISHERS;
  let q := lower (arg_text args "q") in
  items ← (if truthy (VStr q)
           then lift (comprehension (text_matches "name" q) items)
           else mret items);
  let city_filter := lower (arg_text args "city") in
  items ← (if truthy (VStr city_filter)
           then lift (comprehension (text_matches "city" city_filter) items)
           else mret items);
  paginated args items.

Definition pubs_get (id : string) : io response :=
  x ← get_one PUBLISHERS id;
  mret (match x with Some x => (JDoc x, 200) | None => not_found end).

Definition pubs_create (e : env) (body : option dict) : io response :=
  let data := default ∅ body in
  match require_fields data ["name"] with
  | (false, msg) => mret (json_error (default "" msg) 400)
  | (true, _) => x ← create e PUBLISHERS (Some data); mret (JDoc x, 201)
  end.

Definition pubs_update (e : env) (id : string) (body : option dict) : io response :=
  x ← update_one e PUBLISHERS id body;
  mret (match x with Some x => (JDoc x, 200) | None => not_found end).

Definition pubs_delete (id : string) : io response :=
  ok ← delete_one PUBLISHERS id;
  mret (if ok : bool then (NoContent, 204) else not_found).

(** *** Books *)

Definition books_list (args : query) : io response :=
  items ← list_all BOOKS;
  let q := lower (arg_text args "q") in
  items ← (if truthy (VStr q)
           then lift (comprehension (text_matches "title" q) items)
           else mret items);
  let author_filter := arg_text args "author_id" in
  let items :=
    if truthy (VStr author_filter)
    then filter (λ i : dict, eq_str (py_or (dict_get i "author_id") (VStr "")) author_filter = true) items
    else items in
  let publisher_filter := arg_text args "publisher_id" in
  let items :=
    if truthy (VStr publisher_filter)
    then filter (λ i : dict, eq_str (py_or (dict_get i "publisher_id") (VStr "")) publisher_filter = true) items
    else items in
  let tag_filter_param := arg_text args "tags" in
  let tag_filters :=
    filter (λ t, truthy (VStr t) = true) (strip <$> str_split ","%char tag_filter_param) in
  items ← (if truthy (VStr tag_filter_param) && bool_decide (tag_filters ≠ [])
           then lift (comprehension (has_tags tag_filters) items)
           else mret items);
  paginated args items.

Definition books_get (id : string) : io response :=
  x ← get_one BOOKS id;
  mret (match x with Some x => (JDoc x, 200) | None => not_found end).

(** The block shared by [books_create] and [books_update] that coerces a
    supplied year: the body with its year as an integer, or [None] when the
    year does not read as one. *)
Definition coerce_year (data : dict) : py (option dict) :=
  match data !! "year" with
  | Some year =>
      coerced ← to_int year None;
      Ret ((λ n, <["year" := VInt n]> data) <$> (coerced : option Z))
  | None => Ret (Some data)
  end.

Definition books_create (e : env) (body : option dict) : io response :=
  let data := default ∅ body in
  match require_fields data ["title"; "author_id"; "publisher_id"] with
  | (false, msg) => mret (json_error (default "" msg) 400)
  | (true, _) =>
      coerced ← lift (coerce_year data);
      match coerced with
      | None => mret (json_error "year must be an integer" 400)
      | Some data =>
          author ← exists_ e AUTHORS (dict_get data "author_id");
          if negb author then mret (json_error "author_id does not exist" 400)
          else
            publisher ← exists_ e PUBLISHERS (dict_get data "publisher_id");
            if negb publisher then mret (json_error "publisher_id does not exist" 400)
            else
              tags ← lift (sanitize_tags (dict_get data "tags"));
              let data := <["tags" := VList (VStr <$> tags)]> data in
              let data := setdefault "rating_sum" (VInt 0) data in
              let data := setdefault "rating_count" (VInt 0) data in
              let data := setdefault "rating_avg" (VInt 0) data in
              x ← create e BOOKS (Some data);
              mret (JDoc x, 201)
      end
  end.

Definition books_update (e : env) (id : string) (body : option dict) : io response :=
  let data := default ∅ body in
  coerced ← lift (coerce_year data);
  match coerced with
  | None => mret (json_error "year must be an integer" 400)
  | Some data =>
      author ← match data !! "author_id" with
               | Some a => exists_ e AUTHORS a
               | None => mret true
               end;
      if negb author then mret (json_error "author_id does not exist" 400)
      else
        publisher ← match data !! "publisher_id" with
                    | Some p => exists_ e PUBLISHERS p
                    | None => mret true
                    end;
        if negb publisher then mret (json_error "publisher_id does not exist" 400)
        else
          data ← match data !! "tags" with
                 | Some t =>
                     tags ← lift (sanitize_tags t);
                     mret (<["tags" := VList (VStr <$> tags)]> data)
                 | None => mret data
                 end;
          x ← update_one e BOOKS id (Some data);
          mret (match x with Some x => (JDoc x, 200) | None => not_found end)
  end.

Definition books_delete (id : string) : io response :=
  ok ← delete_one BOOKS id;
  mret (if ok : bool then (NoContent, 204) else not_found).

Definition books_borrow (e : env) (id : string) (body : option dict) : io response :=
  book ← get_one BOOKS id;
  match book with
  | None => mret (json_error "Book not found" 404)
  | Some book =>
      let data := default ∅ body in
      match require_fields data ["name"; "email"] with
      | (false, msg) => mret (json_error (default "" msg) 400)
      | (true, _) =>
          record ← create_borrow_record e book data;
          mret (JBorrowed record, 201)
      end
  end.

(** The string [createdAt] of a borrow record, the only kind of timestamp
    [create_borrow_record] writes; a record without the field is left out of
    an ordered query. *)
Definition created_at (d : string * dict) : option string :=
  match d.2 !! "createdAt" with
  | Some (VStr s) => Some s
  | _ => None
  end.

Definition newest_first (x y : string * dict) : bool :=
  match String.compare (default "" (created_at x)) (default "" (created_at y)) with
  | Gt => true
  | Lt => false
  | Eq => String.leb y.1 x.1
  end.

Definition borrows_list : io response :=
  fun w =>
    let docs :=
      merge_sort newest_first
        (filter (λ d, is_Some (created_at d)) (map_to_list (collection w BORROW_REQUESTS))) in
    (Ret (JDocs ((λ d, doc_to_dict d.1 (Some d.2)) <$> docs), 200), w).

Definition books_rate (e : env) (id : string) (body : option dict) : io response :=
  book_snapshot ← doc_get BOOKS id;
  match book_snapshot with
  | None => mret (json_error "Book not found" 404)
  | Some _ =>
      let data := default ∅ body in
      rating ← lift (to_int (dict_get data "rating") None);
      match rating with
      | None => mret (json_error "rating must be an integer between 1 and 5" 400)
      | Some rating =>
          if (rating <? 1) || (5 <? rating)
          then mret (json_error "rating must be an integer between 1 and 5" 400)
          else
            notes ← lift (str_strip (py_or (dict_get data "notes") (VStr "")));
            name ← lift (str_strip (py_or (dict_get data "name") (VStr "")));
            let book_data := default ∅ book_snapshot in
            old_sum ← lift (py_int (py_or (dict_get book_data "rating_sum") (VInt 0)));
            let rating_sum := old_sum + rating in
            old_count ← lift (py_int (py_or (dict_get book_data "rating_count") (VInt 0)));
            let rating_count := old_count + 1 in
            rating_avg ← lift (if rating_count =? 0 then Ret (VInt 0)
                               else f ← truediv rating_sum rating_count; Ret (VFloat f));
            doc_update BOOKS id
              (<["rating_sum" := VInt rating_sum]>
              (<["rating_count" := VInt rating_count]>
              (<["rating_avg" := rating_avg]>
              (<["updatedAt" := VStr (now_iso e)]> ∅))));;
            record_rating (tick e) id rating (VStr notes) (VStr name);;
            mret (JRated rating_avg rating_count, 201)
      end
  end.

Definition health : io response := mret (JOk, 200).

(** *** Routing *)

Inductive request :=
| Login (body : option dict)
| Logout (authorization : option string)
| SessionInfo (authorization : option string)
| AuthorsList (args : query)
| AuthorsGet (id : string)
| AuthorsCreate (authorization : option string) (body : option dict)
| AuthorsUpdate (authorization : option string) (id : string) (body : option dict)
| AuthorsDelete (authorization : option string) (id : string)
| PubsList (args : query)
| PubsGet (id : string)
| PubsCreate (authorization : option string) (body : option dict)
| PubsUpdate (authorization : option string) (id : string) (body : option dict)
| PubsDelete (authorization : option string) (id : string)
| BooksList (args : query)
| BooksGet (id : string)
| BooksCreate (authorization : option string) (body : option dict)
| BooksUpdate (authorization : option string) (id : string) (body : option dict)
| BooksDelete (authorization : option string) (id : string)
| BooksBorrow (id : string) (body : option dict)
| BorrowsList (authorization : option string)
| BooksRate (id : string) (body : option dict)
| Health.

Definition route (e : env) (r : request) : io response :=
  match r with
  | Login body => login e body
  | Logout auth => require_admin (logout auth) auth
  | SessionInfo auth => require_admin session_info auth
  | AuthorsList args => authors_list args
  | AuthorsGet id => authors_get id
  | AuthorsCreate auth body => require_admin (authors_create e body) auth
  | AuthorsUpdate auth id body => require_admin (authors_update e id body) auth
  | AuthorsDelete auth id => require_admin (authors_delete id) auth
  | PubsList args => pubs_list args
  | PubsGet id => pubs_get id
  | PubsCreate auth body => require_admin (pubs_create e body) auth
  | PubsUpdate auth id body => require_admin (pubs_update e id body) auth
  | PubsDelete auth id => require_admin (pubs_delete id) auth
  | BooksList args => books_list args
  | BooksGet id => books_get id
  | BooksCreate auth body => require_admin (books_create e body) auth
  | BooksUpdate auth id body => require_admin (books_update e id body) auth
  | BooksDelete auth id => require_admin (books_delete id) auth
  | BooksBorrow id body => books_borrow e id body
  | BorrowsList auth => require_admin borrows_list auth
  | BooksRate id body => books_rate e id body
  | Health => health
  end.

(** One request served: the response sent and the world left behind. *)
Definition handle (e : env) (r : request) (w : world) : response * world :=
  match route e r w with
  | (Ret resp, w') => (resp, w')
  | (Raise ex, w') => ((Uncaught ex, 500), w')
  end.

(** A run of the server: requests served one after the other, each with
    its own environment. *)
Fixpoint serve (rs : list (env * request)) (w : world) : world :=
  match rs with
  | [] => w
  | (e, r) :: rs => serve rs (handle e r w).2
  end.

End App.

(** ** The maintenance script (clear_data.py)

    The script empties the collections of the service.  It is a process of
    its own that works on the same store: of the world it reaches the
    database, never the tokens cached by a running server.  The loading of
    the credentials ([ensure_app]) and the progress lines it prints are not
    modelled. *)

(** The [for] loop of [purge_collection]: each document of the batch is
    deleted and counted. *)
Fixpoint delete_batch (col : string) (docs : list (string * dict)) (total_deleted : Z)
  : io Z :=
  match docs with
  | [] => mret total_deleted
  | doc :: docs => doc_delete col doc.1;; delete_batch col docs (total_deleted + 1)
  end.

(** The [while True] loop of [purge_collection], run for at most [fuel]
    rounds: [None] when the rounds are used up before a batch comes back
    empty.  [limit(batch_size)] keeps the first [batch_size] documents of
    the stream. *)
Fixpoint purge_loop (fuel : nat) (col : string) (batch_size : nat) (total_deleted : Z)
  : io (option Z) :=
  match fuel with
  | O => mret None
  | S fuel => fun w =>
      match take batch_size (stream col w) with
      | [] => (Ret (Some total_deleted), w)
      | docs => (delete_batch col docs total_deleted ≫= purge_loop fuel col batch_size) w
      end
  end.

Definition purge_collection (fuel : nat) (collection_name : string) (batch_size : nat)
  : io (option Z) :=
  purge_loop fuel collection_name batch_size 0.

(** The loop of [main] over the names of the collections, each purged with
    the default batch size: the numbers of deleted documents it reports. *)
Fixpoint purge_each (fuel : nat) (collections : list string) : io (option (list Z)) :=
  match collections with
  | [] => mret (Some [])
  | collection_name :: rest =>
      deleted ← purge_collection fuel collection_name 500;
      match deleted with
      | None => mret None
      | Some n => counts ← purge_each fuel rest; mret (cons n <$> (counts : option (list Z)))
      end
  end.

Definition main (fuel : nat) : io (option (list Z)) :=
  purge_each fuel ["authors"; "publishers"; "books"; "borrows"; "ratings"; "admin_sessions"].

(** * Vocabulary of the properties

    The definitions below are not part of the program: they name what the
    properties speak about, and fix the data of the examples. *)

(** ** The sanitizer, as specified *)

(** The duplicates of a list removed, each element kept where it first
    occurs. *)
Fixpoint keep_first (l : list string) : list string :=
  match l with
  | [] => []
  | x :: r => x :: filter (λ y, y ≠ x) (keep_first r)
  end.

(** The sanitizer as the specification words it: trim every tag, drop the
    empty ones, drop those outside the vocabulary, remove duplicates keeping
    first occurrences. *)
Definition spec_sanitize (s : list string) : list string :=
  keep_first
    (filter (λ t, t ∈ TAG_OPTIONS)
       (filter (λ t, t ≠ "") (strip <$> s))).

(** ** What a computation writes and keeps *)

(** [w'] differs from [w] at most in the collections [cols]: the sessions
    cached in memory and every other collection are the same. *)
Definition same_outside (cols : list string) (w w' : world) : Prop :=
  _admin_tokens w' = _admin_tokens w ∧
  ∀ c, c ∉ cols → collection w' c = collection w c.

Definition writes_only {A} (cols : list string) (m : io A) : Prop :=
  ∀ w, same_outside cols w (m w).2.

(** [m] keeps [P]: if [P] holds before [m] runs, it holds afterwards,
    whether [m] returns or raises. *)
Definition preserves {A} (P : world → Prop) (m : io A) : Prop :=
  ∀ w, P w → P (m w).2.

(** ** Requests *)

(** The decorator taken apart: the header a guarded request is checked
    with, and the handler under the decorator. *)
Definition guard (r : request) : option (option string) :=
  match r with
  | Logout auth | SessionInfo auth | BorrowsList auth
  | AuthorsCreate auth _ | AuthorsUpdate auth _ _ | AuthorsDelete auth _
  | PubsCreate auth _ | PubsUpdate auth _ _ | PubsDelete auth _
  | BooksCreate auth _ | BooksUpdate auth _ _ | BooksDelete auth _ => Some auth
  | _ => None
  end.

Definition undecorated (user pass : string) (e : env) (r : request) : io response :=
  match r with
  | Login body => login user pass e body
  | Logout auth => logout auth
  | SessionInfo _ => session_info
  | AuthorsList args => authors_list args
  | AuthorsGet id => authors_get id
  | AuthorsCreate _ body => authors_create e body
  | AuthorsUpdate _ id body => authors_update e id body
  | AuthorsDelete _ id => authors_delete id
  | PubsList args => pubs_list args
  | PubsGet id => pubs_get id
  | PubsCreate _ body => pubs_create e body
  | PubsUpdate _ id body => pubs_update e id body
  | PubsDelete _ id => pubs_delete id
  | BooksList args => books_list args
  | BooksGet id => books_get id
  | BooksCreate _ body => books_create e body
  | BooksUpdate _ id body => books_update e id body
  | BooksDelete _ id => books_delete id
  | BooksBorrow id body => books_borrow e id body
  | BorrowsList _ => borrows_list
  | BooksRate id body => books_rate e id body
  | Health => health
  end.

(** The collections a request may write. *)
Definition footprint (r : request) : list string :=
  match r with
  | Login _ | Logout _ => [ADMIN_SESSIONS]
  | AuthorsCreate _ _ | AuthorsUpdate _ _ _ | AuthorsDelete _ _ => [AUTHORS]
  | PubsCreate _ _ | PubsUpdate _ _ _ | PubsDelete _ _ => [PUBLISHERS]
  | BooksCreate _ _ | BooksUpdate _ _ _ | BooksDelete _ _ => [BOOKS]
  | BooksBorrow _ _ => [BORROW_REQUESTS]
  | BooksRate _ _ => [BOOKS; RATINGS]
  | _ => []
  end.

Definition is_session_request (r : request) : bool :=
  match r with
  | Login _ | Logout _ => true
  | _ => false
  end.

(** ** Sessions *)

(** The [Authorization] header that presents [token]. *)
Definition bearer (token : string) : option string := Some ("Bearer " +:+ token).

(** The token is in neither the cache nor the session collection. *)
Definition revoked (token : string) (w : world) : Prop :=
  (token ∉ _admin_tokens w) ∧ collection w ADMIN_SESSIONS !! token = None.

(** The request is a login whose random bytes spell [token]. *)
Definition mints (token : string) (er : env * request) : Prop :=
  match er.2 with
  | Login _ => token_urlsafe er.1 32 = token
  | _ => False
  end.

(** ** Rating aggregates *)

(** The three aggregate fields of a book. *)
Definition rating_fields : list string := ["rating_sum"; "rating_count"; "rating_avg"].

(** The average of the sum [s] and the count [c] as [books_rate] computes
    it: 0 for the count 0, and the quotient [s / c], a double, otherwise. *)
Definition average (s c : Z) : py value :=
  if c =? 0 then Ret (VInt 0) else f ← truediv s c; Ret (VFloat f).

(** The aggregates of a book agree: sum and count are integers, the count
    is not negative, and the average is 0 for a book without ratings and the
    quotient of sum and count otherwise. *)
Definition rating_consistent (d : dict) : Prop :=
  ∃ s c avg,
    d !! "rating_sum" = Some (VInt s) ∧
    d !! "rating_count" = Some (VInt c) ∧
    0 ≤ c ∧
    average s c = Ret avg ∧
    d !! "rating_avg" = Some avg.

Definition books_consistent (w : world) : Prop :=
  ∀ id d, collection w BOOKS !! id = Some d → rating_consistent d.

(** The body names none of the aggregate fields. *)
Definition leaves_ratings (body : option dict) : Prop :=
  Forall (λ f, default ∅ body !! f = None) rating_fields.

Definition respects_ratings (r : request) : Prop :=
  match r with
  | BooksCreate _ body | BooksUpdate _ _ body => leaves_ratings body
  | _ => True
  end.

(** ** Document ids and the parameters of a page *)




(** The integer a query asks for under [name], if it reads as one. *)
Definition requested (args : query) (name : string) : option Z :=
  match py_int (arg (args !! name)) with
  | Ret n => Some n
  | Raise _ => None
  end.

(** The limit and the offset of the specification: the requested limit
    clamped to [1,100], 10 by default, and the requested offset raised to 0
    when negative, 0 by default. *)
Definition effective_limit (args : query) : Z :=
  match requested args "limit" with
  | Some n => Z.max 1 (Z.min 100 n)
  | None => 10
  end.

Definition effective_offset (args : query) : Z :=
  match requested args "offset" with
  | Some n => Z.max 0 n
  | None => 0
  end.

(** ** Required fields, tags and books *)

(** The fields of [required] that [require_fields] finds missing. *)
Definition missing_fields (data : dict) (required : list string) : list string :=
  filter (λ f, truthy (dict_get data f) = false) required.

(** Distinct tags of the vocabulary. *)
Definition clean_tags (tags : list string) : Prop :=
  NoDup tags ∧ Forall (λ t, t ∈ TAG_OPTIONS) tags.

(** A property that holds of every book of the store. *)
Definition every_book (Q : dict → Prop) (w : world) : Prop :=
  ∀ id d, collection w BOOKS !! id = Some d → Q d.

(** The tags of a book are distinct tags of the vocabulary, and its year,
    if it has one, is an integer. *)
Definition book_wellformed (d : dict) : Prop :=
  (∃ tags, d !! "tags" = Some (VList (VStr <$> tags)) ∧ clean_tags tags) ∧
  (d !! "year" = None ∨ ∃ n, d !! "year" = Some (VInt n)).

(** The aggregates of a book agree, and its sum lies between one and five
    times its count. *)
Definition rating_in_range (d : dict) : Prop :=
  ∃ s c avg,
    d !! "rating_sum" = Some (VInt s) ∧
    d !! "rating_count" = Some (VInt c) ∧
    c ≤ s ≤ 5 * c ∧
    average s c = Ret avg ∧
    d !! "rating_avg" = Some avg.

(** ** What the book handlers write *)

(** The fields [books_rate] writes to a book: the new sum, the new count
    and their average. *)
Definition rating_patch (e : env) (rating_sum rating_count : Z) (rating_avg : value)
  : dict :=
  <["rating_sum" := VInt rating_sum]>
  (<["rating_count" := VInt rating_count]>
  (<["rating_avg" := rating_avg]>
  (<["updatedAt" := VStr (now_iso e)]> ∅))).

(** What one call of [books_rate] may have done to the world. *)
Definition rate_effect (e : env) (id : string) (w w' : world) : Prop :=
  (∀ k x, collection w RATINGS !! k = Some x → collection w' RATINGS !! k = Some x) ∧
  _admin_tokens w' = _admin_tokens w ∧
  (∀ col, col ≠ BOOKS → col ≠ RATINGS → collection w' col = collection w col) ∧
  (collection w' BOOKS = collection w BOOKS ∨
   ∃ d s c r avg,
     collection w BOOKS !! id = Some d ∧
     py_int (py_or (dict_get d "rating_sum") (VInt 0)) = Ret s ∧
     py_int (py_or (dict_get d "rating_count") (VInt 0)) = Ret c ∧
     1 ≤ r ≤ 5 ∧
     average (s + r) (c + 1) = Ret avg ∧
     collection w' BOOKS
     = <[id := rating_patch e (s + r) (c + 1) avg ∪ d]> (collection w BOOKS)).

(** The document [books_create] stores for the coerced body [data] and the
    sanitized [tags]. *)
Definition book_payload (e : env) (data : dict) (tags : list string) : dict :=
  <["updatedAt" := VStr (now_iso e)]>
  (setdefault "createdAt" (VStr (now_iso e))
  (setdefault "rating_avg" (VInt 0)
  (setdefault "rating_count" (VInt 0)
  (setdefault "rating_sum" (VInt 0)
  (<["tags" := VList (VStr <$> tags)]> data))))).

(** The patch [books_update] hands to [update_one] for the coerced body
    [data]: its tags, if it names any, are sanitized. *)
Definition book_patch (data patch : dict) : Prop :=
  match data !! "tags" with
  | Some t =>
      ∃ tags, sanitize_tags t = Ret tags ∧ patch = <["tags" := VList (VStr <$> tags)]> data
  | None => patch = data
  end.

(** ** Lists and their filters *)

(** The documents of a collection as [list_all] returns them. *)
Definition documents (col : string) (w : world) : list dict :=
  (λ d, doc_to_dict d.1 (Some d.2)) <$> stream col w.

(** A condition of a comprehension holds: it returns, and returns true. *)
Definition holds (r : py bool) : bool :=
  match r with
  | Ret true => true
  | _ => false
  end.

(** A document whose [field] is neither absent, nor falsy, nor a string:
    lowering it fails. *)
Definition unsearchable (field : string) (x : dict) : Prop :=
  ∃ v, x !! field = Some v ∧ truthy v = true ∧ ∀ s, v ≠ VStr s.

(** The conditions of the list endpoints: a filter that the query leaves
    empty lets every document pass. *)
Definition passes_text (field q : string) (x : dict) : bool :=
  bool_decide (q = "") || holds (text_matches field q x).

(** The book's [field], an id, is the one asked for. *)
Definition passes_id (field wanted : string) (x : dict) : bool :=
  bool_decide (wanted = "") || eq_str (py_or (dict_get x field) (VStr "")) wanted.

(** The tags of the book include the tags asked for. *)
Definition passes_tags (tag_filters : list string) (x : dict) : bool :=
  bool_decide (tag_filters = []) || holds (has_tags tag_filters x).

(** The tags a query asks for. *)
Definition wanted_tags (args : query) : list string :=
  filter (λ t, truthy (VStr t) = true) (strip <$> str_split ","%char (arg_text args "tags")).

(** The filters of a query taken together. *)
Definition books_match (args : query) (x : dict) : bool :=
  passes_text "title" (lower (arg_text args "q")) x
  && passes_id "author_id" (arg_text args "author_id") x
  && passes_id "publisher_id" (arg_text args "publisher_id") x
  && passes_tags (wanted_tags args) x.

Definition pubs_match (args : query) (x : dict) : bool :=
  passes_text "name" (lower (arg_text args "q")) x
  && passes_text "city" (lower (arg_text args "city")) x.




(** The total of the page an endpoint answers with. *)
Definition page_total (r : py response) : option Z :=
  match r with
  | Ret (JPage p, _) => Some (p_total p)
  | _ => None
  end.

(** The ids of the documents of the page an endpoint answers with, and
    whether it announces more. *)
Definition page_ids (r : py response) : list (option value) :=
  match r with
  | Ret (JPage p, _) => (λ x : dict, x !! "id") <$> p_items p
  | _ => []
  end.

Definition page_more (r : py response) : option bool :=
  match r with
  | Ret (JPage p, _) => Some (p_has_more p)
  | _ => None
  end.

(** ** The purge *)

(** A collection without the documents of a batch. *)
Definition without (docs : list (string * dict)) (c : gmap string dict)
  : gmap string dict :=
  foldl (λ m doc, delete doc.1 m) c docs.

(** ** Data of the examples *)

(** An empty store, and environments whose clock, id draws and random bytes
    are fixed. *)
Definition empty_world : world := World ∅ ∅.

Definition sample_env (n : nat) : env :=
  {| clock := λ k, match k with
                   | O => "2024-05-01T10:00:00+00:00"
                   | _ => "2024-05-01T10:00:01+00:00"
                   end;
     choice := λ k, (k * n + n)%nat;
     urandom := λ k, N.of_nat (k * 7 + n) |}.

(** A store with one author and one publisher, and a book to create in it. *)
Definition library_world : world :=
  {| db := {[ AUTHORS := {[ "a1" := ({[ "name" := VStr "Ann" ]} : dict) ]};
              PUBLISHERS := {[ "p1" := ({[ "name" := VStr "Pub" ]} : dict) ]} ]};
     _admin_tokens := ∅ |}.

(** Four authors, and a query for the second page of those whose name
    contains "an". *)
Definition four_authors : world :=
  {| db := {[ AUTHORS := {[ "a1" := ({[ "name" := VStr "Ann" ]} : dict);
                            "a2" := ({[ "name" := VStr "Bob" ]} : dict);
                            "a3" := ({[ "name" := VStr "Joanna" ]} : dict);
                            "a4" := ({[ "name" := VStr "Dan" ]} : dict) ]} ]};
     _admin_tokens := ∅ |}.

Definition an_query : query := {[ "q" := " AN "; "limit" := "2"; "offset" := "1" ]}.

Definition dune : dict :=
  {[ "title" := VStr "Dune"; "author_id" := VStr "a1"; "publisher_id" := VStr "p1" ]}.

(** The store after [dune] has been created in [library_world], the stored
    book, and three ratings of that book. *)
Definition new_book_world : world :=
  (books_create (sample_env 2) (Some dune) library_world).2.

Definition new_book : dict :=
  default ∅ (collection new_book_world BOOKS !! auto_id (sample_env 2)).

Definition rate_body (rating : Z) : option dict := Some {[ "rating" := VInt rating ]}.

Definition three_ratings : list (env * request) :=
  [ (sample_env 3, BooksRate (auto_id (sample_env 2)) (rate_body 5));
    (sample_env 4, BooksRate (auto_id (sample_env 2)) (rate_body 3));
    (sample_env 5, BooksRate (auto_id (sample_env 2)) (rate_body 4)) ].


(** The operator's login with the default credentials, the token it is
    given, and a run from [library_world]: the operator logs in and creates
    [dune], and the book is rated three times. *)
Definition admin_credentials : option dict :=
  Some {[ "username" := VStr "admin"; "password" := VStr "library123" ]}.

Definition operator_token : string := token_urlsafe (sample_env 1) 32.

Definition library_run : list (env * request) :=
  (sample_env 1, Login admin_credentials)
  :: (sample_env 2, BooksCreate (bearer operator_token) (Some dune))
  :: three_ratings.

(** A borrow request, two logins, and a book creation with ill-formed
    tags. *)
Definition borrow_body : dict :=
  {[ "name" := VStr " Bob "; "email" := VStr "bob@example.org" ]}.

Definition padded_login : dict :=
  {[ "username" := VStr " admin "; "password" := VStr "library123" ]}.

Definition wrong_login : dict :=
  {[ "username" := VStr "admin"; "password" := VStr "library123 " ]}.

(** A server started anew over the store that [library_world] is in after
    the operator's login: the session is stored, the cache is empty. *)
Definition restarted_world : world :=
  {| db := db (login "admin" "library123" (sample_env 1) admin_credentials library_world).2;
     _admin_tokens := ∅ |}.

Definition ill_tagged : request :=
  BooksCreate (bearer operator_token) (Some (<["tags" := VInt 7]> dune)).

(** A run in which [dune] is created with tags and then given a year, and
    the deletion of the book rated in [library_run]. *)
Definition tagged_dune : dict :=
  <["tags" := VList [VStr " Horror "; VStr "Pulp"; VStr "Horror"]]> dune.

Definition schema_run : list (env * request) :=
  [ (sample_env 1, Login admin_credentials);
    (sample_env 2, BooksCreate (bearer operator_token) (Some tagged_dune));
    (sample_env 3, BooksUpdate (bearer operator_token) (auto_id (sample_env 2))
                     (Some {[ "year" := VStr " 1965 " ]})) ].

Definition book_removal : list (env * request) :=
  [ (sample_env 6, BooksDelete (bearer operator_token) (auto_id (sample_env 2))) ].

(** Two queries for books, a patch that names an author who does not
    exist, and a patch whose author id is no document id. *)
Definition horror_query : query := {[ "q" := " DUNE"; "tags" := "Horror, " ]}.

Definition fantasy_query : query := {[ "tags" := "Horror,Fantasy" ]}.



(** * Properties *)

(** ** Computations *)

Lemma io_bind_lift {A B} (m : py A) (k : A → io B) (w : world) :
  (lift m ≫= k) w = match m with Ret a => k a w | Raise ex => (Raise ex, w) end.
Proof. by destruct m. Qed.

Lemma io_bind_run {A B} (m : io A) (k : A → io B) (w w' : world) (a : A) :
  m w = (Ret a, w') → (m ≫= k) w = k a w'.
Proof. unfold mbind, io_bind. by intros ->. Qed.

(** Unfolding of the monads of the model. *)
Ltac io_unfold :=
  unfold mbind, io_bind, py_bind, mret, io_ret, py_ret, lift,
    doc_get, doc_set, doc_update, doc_delete, doc_add, add_token, discard_token;
  cbn beta iota.

(** Membership in a list that is written out, and absence from it. *)
Ltac in_list :=
  solve [ assumption
        | repeat first [apply list_elem_of_here | apply list_elem_of_further] ].

Ltac not_in_list :=
  let H := fresh in
  intros H; repeat (apply elem_of_cons in H as [H|H]; [discriminate H|]);
  by apply elem_of_nil in H.

(** Closes an equation between closed terms by evaluation. *)
Ltac vm_refl :=
  lazymatch goal with
  | |- _ = ?b => vm_cast_no_check (@eq_refl _ b)
  end.

(** ** Pagination parameters *)

Lemma to_int_arg (q : option string) (d : option Z) :
  (∃ n, py_int (arg q) = Ret n ∧ to_int (arg q) d = Ret (Some n)) ∨
  ((∃ ex, py_int (arg q) = Raise ex) ∧ to_int (arg q) d = Ret d).
Proof.
  unfold to_int. destruct q as [s|]; simpl.
  - destruct (int_of_str s) as [n|]; [left | right]; eauto.
  - right. eauto.
Qed.

Lemma parse_limit_arg (q : option string) :
  ∃ n, parse_limit (arg q) 10 (Some 100) = Ret n ∧ 1 ≤ n ≤ 100 ∧
       ((∃ ex, py_int (arg q) = Raise ex) → n = 10).
Proof.
  unfold parse_limit.
  destruct (to_int_arg q (Some 10)) as [(n & Hn & ->) | ((ex & Hex) & ->)]; simpl.
  - destruct (Z.ltb_spec n 1).
    + exists 1. split_and!; [done | lia | lia | ]. intros [ex Hex]. congruence.
    + destruct (Z.ltb_spec 100 n).
      * exists 100. split_and!; [done | lia | lia | ]. intros [ex Hex]. congruence.
      * exists n. split_and!; [done | lia | lia | ]. intros [ex Hex]. congruence.
  - exists 10. split_and!; [done | lia | lia | done].
Qed.

Lemma parse_offset_arg (q : option string) :
  ∃ n, parse_offset (arg q) 0 = Ret n ∧ 0 ≤ n ∧
       ((∃ ex, py_int (arg q) = Raise ex) → n = 0).
Proof.
  unfold parse_offset.
  destruct (to_int_arg q (Some 0)) as [(n & Hn & ->) | ((ex & Hex) & ->)]; simpl.
  - exists (Z.max 0 n). split_and!; [done | lia | ]. intros [ex Hex]. congruence.
  - exists 0. split_and!; [done | lia | done].
Qed.

(** C10. Whatever the query string carries for [limit] and [offset] (nothing,
    an empty string, text that is no number), parsing returns and raises
    nothing: [parse_limit] gives an integer between 1 and 100, the default 10
    when [int()] rejects the value, and [parse_offset] gives an integer that
    is at least 0, and 0 when [int()] rejects the value. *)
Theorem parse_limit_offset_total (q : option string) :
  (∃ n, parse_limit (arg q) 10 (Some 100) = Ret n ∧ 1 ≤ n ≤ 100 ∧
        ((∃ ex, py_int (arg q) = Raise ex) → n = 10)) ∧
  (∃ n, parse_offset (arg q) 0 = Ret n ∧ 0 ≤ n ∧
        ((∃ ex, py_int (arg q) = Raise ex) → n = 0)).
Proof. split; [apply parse_limit_arg | apply parse_offset_arg]. Qed.

Example parse_limit_samples :
  parse_limit (arg None) 10 (Some 100) = Ret 10 ∧
  parse_limit (arg (Some "")) 10 (Some 100) = Ret 10 ∧
  parse_limit (arg (Some "ten")) 10 (Some 100) = Ret 10 ∧
  parse_limit (arg (Some " 25 ")) 10 (Some 100) = Ret 25 ∧
  parse_limit (arg (Some "0")) 10 (Some 100) = Ret 1 ∧
  parse_limit (arg (Some "1_000")) 10 (Some 100) = Ret 100 ∧
  parse_offset (arg (Some "-4")) 0 = Ret 0 ∧
  parse_offset (arg (Some "x")) 0 = Ret 0 ∧
  parse_offset (arg (Some "+7")) 0 = Ret 7.
Proof. repeat split; reflexivity. Qed.

(** ** Pagination *)

Lemma slice_take_drop {A} (l : list A) (offset limit : Z) :
  0 ≤ offset → 1 ≤ limit →
  slice l offset (Z.min (offset + limit) (Z.of_nat (length l)))
  = take (Z.to_nat limit) (drop (Z.to_nat offset) l).
Proof.
  intros Ho Hl. unfold slice, slice_index.
  set (len := Z.of_nat (length l)).
  assert (0 ≤ len) by lia.
  destruct (Z.ltb_spec offset 0); [lia|].
  destruct (Z.ltb_spec (Z.min (offset + limit) len) 0); [lia|].
  destruct (Z.le_gt_cases len offset) as [Hge | Hlt].
  - rewrite !drop_ge by lia. by rewrite !take_nil.
  - replace (Z.min offset len) with offset by lia.
    destruct (Z.le_gt_cases (offset + limit) len).
    + f_equal. lia.
    + rewrite !take_ge; [done | rewrite length_drop; lia | rewrite length_drop; lia].
Qed.

Lemma length_page {A} (l : list A) (offset limit : Z) :
  0 ≤ offset → 1 ≤ limit →
  Z.of_nat (length (take (Z.to_nat limit) (drop (Z.to_nat offset) l)))
  = Z.max 0 (Z.min limit (Z.of_nat (length l) - offset)).
Proof. intros. rewrite length_take, length_drop. lia. Qed.


(** Each list endpoint, unless one of its filters raises, ends in the
    pagination of the documents the filters left. *)
Lemma list_endpoints_paginate (args : query) (w : world) (h : query → io response) :
  h ∈ [authors_list; pubs_list; books_list] →
  (∃ ex, h args w = (Raise ex, w)) ∨ (∃ items, h args w = paginated args items w).
Proof.
  rewrite !elem_of_cons, elem_of_nil.
  assert (∀ (b : bool) (m : py (list dict)) (items : list dict) (k : list dict → io response),
    ((if b then lift m else mret items) ≫= k) w
    = match (if b then m else Ret items) with
      | Ret l => k l w
      | Raise ex => (Raise ex, w)
      end) as Hfilter.
  { intros [|] m items k; [apply io_bind_lift | done]. }
  intros [-> | [-> | [-> | []]]].
  - unfold authors_list. erewrite io_bind_run by reflexivity.
    rewrite Hfilter. destruct (if truthy _ then _ else _) as [items|ex]; eauto.
  - unfold pubs_list. erewrite io_bind_run by reflexivity.
    rewrite Hfilter. destruct (if truthy _ then _ else _) as [items|ex]; [|eauto].
    rewrite Hfilter. destruct (if truthy _ then _ else _) as [items'|ex]; eauto.
  - unfold books_list. erewrite io_bind_run by reflexivity.
    rewrite Hfilter. destruct (if truthy _ then _ else _) as [items|ex]; [|eauto].
    cbn zeta. rewrite Hfilter. destruct (if _ && _ then _ else _) as [items'|ex]; eauto.
Qed.

Example paginate_samples :
  paginate [1; 2; 3; 4; 5] 2 1 = Page [2; 3] 5 2 1 true ∧
  paginate [1; 2; 3; 4; 5] 2 3 = Page [4; 5] 5 2 3 false ∧
  paginate [1; 2; 3; 4; 5] 2 5 = Page [] 5 2 5 false ∧
  paginate [1; 2; 3; 4; 5] 100 9 = Page [] 5 100 9 false.
Proof. repeat split; reflexivity. Qed.

(** ** Tag sanitization *)

Lemma filter_all {A} (P : A → Prop) `{!∀ x, Decision (P x)} (l : list A) :
  Forall P l → filter P l = l.
Proof.
  induction 1 as [|x r Hx _ IH]; [done|].
  by rewrite filter_cons, decide_True, IH.
Qed.

Lemma filter_ne_absent (x : string) (l : list string) :
  x ∉ l → filter (λ y, y ≠ x) l = l.
Proof.
  induction l as [|y r IH]; [done|].
  rewrite not_elem_of_cons. intros [Hne Hr].
  rewrite filter_cons, decide_True by done. f_equal. by apply IH.
Qed.

Lemma keep_first_elem (x : string) (l : list string) :
  x ∈ keep_first l ↔ x ∈ l.
Proof.
  induction l as [|y r IH]; simpl; [done|].
  rewrite !elem_of_cons, list_elem_of_filter, IH.
  destruct (decide (x = y)); tauto.
Qed.

Lemma keep_first_NoDup (l : list string) : NoDup (keep_first l).
Proof.
  induction l as [|y r IH]; simpl; [constructor|].
  constructor.
  - rewrite list_elem_of_filter. intros [Hne _]. by apply Hne.
  - by apply NoDup_filter.
Qed.

Lemma keep_first_id (l : list string) : NoDup l → keep_first l = l.
Proof.
  induction 1 as [|x r Hx Hr IH]; simpl; [done|].
  rewrite IH. f_equal. by apply filter_ne_absent.
Qed.

Lemma truthy_str (t : string) : truthy (VStr t) = bool_decide (t ≠ "").
Proof. by destruct t. Qed.

Lemma sanitize_step_str (allowed : gset string) (cleaned : list string) (x : string) :
  sanitize_step allowed cleaned (VStr x)
  = Ret (if bool_decide (strip x ≠ "") && bool_decide (strip x ∈ allowed)
            && negb (bool_decide (strip x ∈ cleaned))
         then cleaned ++ [strip x] else cleaned).
Proof.
  unfold sanitize_step.
  assert (str_strip (py_or (VStr x) (VStr "")) = Ret (strip x)) as ->
    by (by destruct x).
  cbn [mbind py_bind]. rewrite truthy_str.
  by destruct (_ && _ && _).
Qed.

(** The loop of [sanitize_tags] over strings, started from any list of
    tags already kept. *)
Lemma sanitize_loop (s cleaned : list string) :
  for_each (sanitize_step (list_to_set TAG_OPTIONS)) cleaned (VStr <$> s)
  = Ret (cleaned ++ filter (λ t, t ∉ cleaned) (spec_sanitize s)).
Proof.
  unfold spec_sanitize.
  revert cleaned. induction s as [|x r IH]; intros cleaned.
  - simpl. by rewrite app_nil_r.
  - cbn [fmap list_fmap for_each]. rewrite sanitize_step_str.
    cbn [mbind py_bind]. rewrite IH. clear IH. f_equal.
    rewrite filter_cons.
    destruct (decide (strip x ≠ "")) as [Hne|He];
      [rewrite (bool_decide_eq_true_2 _ Hne) | by rewrite (bool_decide_eq_false_2 _ He)].
    rewrite filter_cons.
    destruct (decide (strip x ∈ TAG_OPTIONS)) as [Hin|Hout]; cycle 1.
    { rewrite (bool_decide_eq_false_2 (strip x ∈ list_to_set TAG_OPTIONS)); [done|].
      by rewrite elem_of_list_to_set. }
    rewrite (bool_decide_eq_true_2 (strip x ∈ list_to_set TAG_OPTIONS))
      by (by apply elem_of_list_to_set).
    cbn [keep_first andb]. rewrite filter_cons.
    generalize (keep_first (filter (λ t, t ∈ TAG_OPTIONS)
                  (filter (λ t, t ≠ "") (strip <$> r)))).
    intros kept.
    destruct (decide (strip x ∈ cleaned)) as [Hc|Hc].
    + rewrite (bool_decide_eq_true_2 _ Hc). cbn [negb].
      rewrite decide_False by (intros Hn; by apply Hn).
      f_equal. rewrite list_filter_filter. apply list_filter_iff.
      intros t. split; [|tauto]. intros Ht. split; [done|]. by intros ->.
    + rewrite (bool_decide_eq_false_2 _ Hc). cbn [negb].
      rewrite decide_True by done.
      rewrite <- app_assoc. cbn [app]. do 2 f_equal.
      rewrite list_filter_filter. apply list_filter_iff.
      intros t. rewrite elem_of_app, list_elem_of_singleton. tauto.
Qed.

Lemma sanitize_tags_list (s : list string) :
  sanitize_tags (VList (VStr <$> s)) = Ret (spec_sanitize s).
Proof.
  destruct s as [|x r]; [done|].
  unfold sanitize_tags. cbn [truthy fmap list_fmap negb iterate mbind py_bind].
  change (VStr x :: (VStr <$> r)) with (VStr <$> x :: r).
  rewrite sanitize_loop. cbn [app]. f_equal.
  apply filter_all, Forall_forall. intros t _. apply not_elem_of_nil.
Qed.

Lemma vocabulary_trimmed (t : string) :
  t ∈ TAG_OPTIONS → strip t = t ∧ t ≠ "".
Proof.
  unfold TAG_OPTIONS. rewrite !elem_of_cons, elem_of_nil.
  intros H. repeat (destruct H as [-> | H]; [by vm_compute|]). done.
Qed.

Lemma spec_sanitize_elem (t : string) (s : list string) :
  t ∈ spec_sanitize s → t ∈ TAG_OPTIONS.
Proof.
  unfold spec_sanitize. rewrite keep_first_elem, list_elem_of_filter. tauto.
Qed.

Lemma spec_sanitize_idempotent (s : list string) :
  spec_sanitize (spec_sanitize s) = spec_sanitize s.
Proof.
  assert (∀ l : list string, Forall (λ t, t ∈ TAG_OPTIONS) l →
    filter (λ t, t ∈ TAG_OPTIONS) (filter (λ t, t ≠ "") (strip <$> l)) = l) as Hid.
  { induction 1 as [|t l Ht _ IH]; [done|].
    destruct (vocabulary_trimmed t Ht) as [Hs Hne].
    cbn [fmap list_fmap]. rewrite Hs.
    rewrite filter_cons, decide_True by done.
    rewrite filter_cons, decide_True by done.
    f_equal. apply IH. }
  unfold spec_sanitize at 1. rewrite Hid.
  - apply keep_first_id. apply keep_first_NoDup.
  - apply Forall_forall. intros t. apply spec_sanitize_elem.
Qed.

(** C5. On every sequence of tags the sanitizer returns the trimmed tags
    without the empty ones, without those outside the vocabulary and without
    duplicates, in the order of their first occurrence; sanitizing its output
    again changes nothing; and ["Fantasy","fantasy","Fantasy","Bogus"] is
    sanitized to ["Fantasy"]. *)
Theorem sanitize_tags_idempotent (s : list string) :
  sanitize_tags (VList (VStr <$> s)) = Ret (spec_sanitize s) ∧
  sanitize_tags (VList (VStr <$> spec_sanitize s)) = Ret (spec_sanitize s) ∧
  NoDup (spec_sanitize s) ∧
  sanitize_tags (VList [VStr "Fantasy"; VStr "fantasy"; VStr "Fantasy"; VStr "Bogus"])
  = Ret ["Fantasy"].
Proof.
  split_and!.
  - apply sanitize_tags_list.
  - by rewrite sanitize_tags_list, spec_sanitize_idempotent.
  - apply keep_first_NoDup.
  - by vm_compute.
Qed.

(** A single tag given as a string is sanitized like the one-element list. *)
Lemma sanitize_tags_str (t : string) :
  sanitize_tags (VStr t) = Ret (spec_sanitize [t]).
Proof.
  destruct t as [|c r]; [done|].
  unfold sanitize_tags. cbn [truthy negb mbind py_bind].
  change [VStr (String c r)] with (VStr <$> [String c r]).
  rewrite sanitize_loop. cbn [app]. f_equal.
  apply filter_all, Forall_forall. intros t _. apply not_elem_of_nil.
Qed.

Example sanitize_tags_samples :
  sanitize_tags (VList [VStr " Horror "; VStr ""; VStr "Classic"; VStr "Horror"])
  = Ret ["Horror"; "Classic"] ∧
  sanitize_tags VNone = Ret [] ∧
  sanitize_tags (VStr "Mystery") = Ret ["Mystery"] ∧
  sanitize_tags (VList [VInt 7]) = Raise AttributeError ∧
  sanitize_tags (VInt 7) = Raise TypeError.
Proof. repeat split; by vm_compute. Qed.

(** ** The store *)

Lemma collection_put (col col' : string) (c : gmap string dict) (w : world) :
  collection (put_collection col c w) col'
  = if decide (col = col') then c else collection w col'.
Proof.
  unfold collection, put_collection. cbn [db].
  rewrite lookup_insert. by destruct (decide (col = col')).
Qed.

Lemma collection_put_eq (col : string) (c : gmap string dict) (w : world) :
  collection (put_collection col c w) col = c.
Proof. by rewrite collection_put, decide_True. Qed.

Lemma collection_put_ne (col col' : string) (c : gmap string dict) (w : world) :
  col ≠ col' → collection (put_collection col c w) col' = collection w col'.
Proof. intros. by rewrite collection_put, decide_False. Qed.

Lemma lookup_setdefault (k f : string) (v : value) (d : dict) :
  setdefault k v d !! f
  = if decide (k = f) then Some (default v (d !! k)) else d !! f.
Proof.
  unfold setdefault. destruct (decide (k = f)) as [<-|Hne].
  - destruct (d !! k) eqn:Hk; [by rewrite Hk | by rewrite lookup_insert_eq].
  - destruct (d !! k); [done | by rewrite lookup_insert_ne].
Qed.

Lemma auto_id_length (e : env) : String.length (auto_id e) = 20%nat.
Proof. reflexivity. Qed.

Lemma auto_id_nonempty (e : env) : auto_id e ≠ "".
Proof. intros H. pose proof (auto_id_length e) as Hl. by rewrite H in Hl. Qed.

(** ** Partial update *)








Lemma io_bind_exists {B} (e : env) (col : string) (v : value) (k : bool → io B) (w : world) :
  (exists_ e col v ≫= k) w
  = match (exists_ e col v w).1 with
    | Ret b => k b w
    | Raise ex => (Raise ex, w)
    end.
Proof.
  unfold exists_. io_unfold. by destruct (document e col v).
Qed.

Lemma io_bind_check (e : env) (col : string) (v : option value) (w : world) :
  ∃ r : py bool, ∀ k : bool → io response,
    ((match v with Some a => exists_ e col a | None => mret true end) ≫= k) w
    = match r with
      | Ret b => k b w
      | Raise ex => (Raise ex, w)
      end.
Proof.
  destruct v as [a|].
  - exists (exists_ e col a w).1. intros k. apply io_bind_exists.
  - by exists (Ret true).
Qed.

Lemma update_one_missing (e : env) (col id : string) (data : option dict) (w : world) :
  collection w col !! id = None → update_one e col id data w = (Ret None, w).
Proof. intros Hd. unfold update_one. io_unfold. by rewrite Hd. Qed.

Lemma update_one_run (e : env) (col id : string) (data : option dict) (d : dict)
    (w : world) :
  collection w col !! id = Some d →
  let d' := <["updatedAt" := VStr (now_iso e)]> (default ∅ data) ∪ d in
  update_one e col id data w
  = (Ret (Some (doc_to_dict id (Some d'))),
     put_collection col (<[id := d']> (collection w col)) w).
Proof.
  intros Hd. cbn zeta. unfold update_one. io_unfold.
  repeat (rewrite Hd; cbn beta iota).
  by rewrite collection_put_eq, lookup_insert_eq.
Qed.

(** A book update for an id that names no book leaves the world as it was,
    whichever of its checks answers. *)
Lemma books_update_missing (e : env) (id : string) (body : option dict) (w : world) :
  collection w BOOKS !! id = None → (books_update e id body w).2 = w.
Proof.
  intros Hd. unfold books_update.
  rewrite io_bind_lift. destruct (coerce_year _) as [[data'|]|ex]; [|done|done].
  destruct (io_bind_check e AUTHORS (data' !! "author_id") w) as [author ->].
  destruct author as [[|]|ex]; [|done|done]. cbn [negb].
  destruct (io_bind_check e PUBLISHERS (data' !! "publisher_id") w) as [publisher ->].
  destruct publisher as [[|]|ex]; [|done|done]. cbn [negb].
  destruct (data' !! "tags") as [t|].
  - unfold mbind at 1, io_bind at 1. rewrite io_bind_lift.
    destruct (sanitize_tags t) as [tags|ex]; [|done]. cbn [mret io_ret].
    by erewrite io_bind_run by (by apply update_one_missing).
  - unfold mbind at 1, io_bind at 1. cbn [mret io_ret].
    by erewrite io_bind_run by (by apply update_one_missing).
Qed.

(** C7. Updating an existing document merges the patch into it: the stored
    document becomes the patch laid over the old fields with [updatedAt] set
    to the time of the update, so every field that the patch does not name
    keeps its value, [updatedAt] apart; no other document, collection or
    session changes.  For an id that names no document [update_one] returns
    [None], which the author and publisher endpoints answer with 404, and the
    world is left as it was; the book endpoint, which validates the patch
    first, leaves the world as it was too. *)
Theorem update_one_frame (e : env) (col id : string) (data : option dict) (w : world) :
  match collection w col !! id with
  | Some d =>
      let d' := <["updatedAt" := VStr (now_iso e)]> (default ∅ data) ∪ d in
      let w' := put_collection col (<[id := d']> (collection w col)) w in
      update_one e col id data w = (Ret (Some (doc_to_dict id (Some d'))), w') ∧
      d' !! "updatedAt" = Some (VStr (now_iso e)) ∧
      (∀ f, f ≠ "updatedAt" → default ∅ data !! f = None → d' !! f = d !! f) ∧
      (∀ col' id', ¬ (col' = col ∧ id' = id) →
         collection w' col' !! id' = collection w col' !! id') ∧
      _admin_tokens w' = _admin_tokens w
  | None =>
      update_one e col id data w = (Ret None, w) ∧
      (col = AUTHORS → authors_update e id data w = (Ret not_found, w)) ∧
      (col = PUBLISHERS → pubs_update e id data w = (Ret not_found, w)) ∧
      (col = BOOKS → (books_update e id data w).2 = w)
  end.
Proof.
  destruct (collection w col !! id) as [d|] eqn:Hd.
  - cbn zeta. split_and!.
    + unfold update_one. io_unfold. repeat (rewrite Hd; cbn beta iota).
      by rewrite collection_put_eq, lookup_insert_eq.
    + apply lookup_union_Some_l. by rewrite lookup_insert_eq.
    + intros f Hf Hnone.
      rewrite lookup_union_r; [done|]. by rewrite lookup_insert_ne.
    + intros col' id' Hne. rewrite collection_put.
      destruct (decide (col = col')) as [<-|]; [|done].
      rewrite lookup_insert_ne; [done|]. intros <-. by apply Hne.
    + done.
  - pose proof (update_one_missing e col id data w Hd) as Hu.
    split_and!; [done | | |].
    + intros ->. unfold authors_update. unfold mbind at 1, io_bind at 1. by rewrite Hu.
    + intros ->. unfold pubs_update. unfold mbind at 1, io_bind at 1. by rewrite Hu.
    + intros ->. by apply books_update_missing.
Qed.

Example update_one_samples :
  let e := sample_env 3 in
  let patch : option dict := Some {[ "name" := VStr "Anna"; "born" := VInt 1950 ]} in
  let updated := collection (authors_update e "a1" patch library_world).2 AUTHORS !! "a1" in
  updated ≫= (.!! "name") = Some (VStr "Anna") ∧
  updated ≫= (.!! "born") = Some (VInt 1950) ∧
  updated ≫= (.!! "updatedAt") = Some (VStr "2024-05-01T10:00:00+00:00") ∧
  collection (authors_update e "a1" patch library_world).2 PUBLISHERS
  = collection library_world PUBLISHERS ∧
  authors_update e "a2" patch library_world = (Ret not_found, library_world).
Proof. cbn zeta. split_and!; vm_refl. Qed.

(** ** Creation *)

Lemma create_run (e : env) (col : string) (data : option dict) (w : world) :
  let payload :=
    <["updatedAt" := VStr (now_iso e)]>
      (setdefault "createdAt" (VStr (now_iso e)) (default ∅ data)) in
  create e col data w
  = (Ret (doc_to_dict (auto_id e) (Some payload)),
     put_collection col (<[auto_id e := payload]> (collection w col)) w).
Proof.
  cbn zeta. unfold create. io_unfold.
  by rewrite collection_put_eq, lookup_insert_eq.
Qed.

Lemma get_one_run (col id : string) (w : world) :
  get_one col id w
  = (Ret (match collection w col !! id with
          | Some d => Some (doc_to_dict id (Some d))
          | None => None
          end), w).
Proof. unfold get_one. io_unfold. by destruct (collection w col !! id). Qed.

(** C8, as amended. Every creation stores, under an automatic id of twenty
    characters, the fields of the request with [updatedAt] set to the time of
    the creation and with [createdAt] set to that time too unless the request
    carries a [createdAt] of its own, which is kept.  So a request without a
    [createdAt] field gets both timestamps equal to the creation time.  The
    result is the stored document with its id, and reading the document back
    by that id gives the same fields. *)
Theorem create_then_get (e : env) (col : string) (data : option dict) (w : world) :
  ∃ x stored w',
    create e col data w = (Ret x, w') ∧
    collection w' col !! auto_id e = Some stored ∧
    x = doc_to_dict (auto_id e) (Some stored) ∧
    x !! "id" = Some (VStr (auto_id e)) ∧
    auto_id e ≠ "" ∧
    String.length (auto_id e) = 20%nat ∧
    stored !! "createdAt"
    = Some (default (VStr (now_iso e)) (default ∅ data !! "createdAt")) ∧
    stored !! "updatedAt" = Some (VStr (now_iso e)) ∧
    (default ∅ data !! "createdAt" = None → stored !! "createdAt" = stored !! "updatedAt") ∧
    (∀ f, f ≠ "createdAt" → f ≠ "updatedAt" → stored !! f = default ∅ data !! f) ∧
    get_one col (auto_id e) w' = (Ret (Some x), w').
Proof.
  eexists _, _, _. split; [apply create_run|].
  rewrite get_one_run, collection_put_eq, lookup_insert_eq.
  assert (∀ d : dict,
    (<["updatedAt" := VStr (now_iso e)]> (setdefault "createdAt" (VStr (now_iso e)) d))
      !! "createdAt" = Some (default (VStr (now_iso e)) (d !! "createdAt"))) as Hcreated.
  { intros d. rewrite lookup_insert_ne by done. rewrite lookup_setdefault.
    by rewrite decide_True. }
  split_and!; try done; try apply auto_id_nonempty.
  - unfold doc_to_dict. by rewrite lookup_insert_eq.
  - by rewrite lookup_insert_eq.
  - intros Hnone. by rewrite Hcreated, Hnone, lookup_insert_eq.
  - intros f H1 H2. rewrite lookup_insert_ne by done.
    rewrite lookup_setdefault. by rewrite decide_False.
Qed.

Lemma create_then_get_witness :
  let run := create (sample_env 1) AUTHORS (Some {[ "name" := VStr "A" ]}) empty_world in
  let stored := collection run.2 AUTHORS !! auto_id (sample_env 1) in
  stored ≫= (.!! "name") = Some (VStr "A") ∧
  stored ≫= (.!! "createdAt") = Some (VStr "2024-05-01T10:00:00+00:00") ∧
  stored ≫= (.!! "updatedAt") = Some (VStr "2024-05-01T10:00:00+00:00") ∧
  (get_one AUTHORS (auto_id (sample_env 1)) run.2).1 = (x ← run.1; Ret (Some x)).
Proof.
  cbn zeta.
  destruct (create_then_get (sample_env 1) AUTHORS (Some {[ "name" := VStr "A" ]})
              empty_world)
    as (x & stored & w' & -> & Hstored & _ & _ & _ & _ & Hc & Hu & _ & Hf & Hget).
  cbn [fst snd]. rewrite Hget, Hstored. cbn [fst mbind option_bind py_bind].
  rewrite Hc, Hu, Hf by done. split_and!; reflexivity.
Defined.

(** C8 as stated fails: an author created with a [createdAt] of its own
    keeps it, so the stored [createdAt] is not the creation time and differs
    from [updatedAt]. *)
Lemma create_keeps_supplied_createdAt :
  let body : dict := {[ "name" := VStr "A"; "createdAt" := VStr "1999" ]} in
  let run := authors_create (sample_env 1) (Some body) empty_world in
  let stored := collection run.2 AUTHORS !! auto_id (sample_env 1) in
  status_of run.1 = 201 ∧
  stored ≫= (.!! "name") = Some (VStr "A") ∧
  stored ≫= (.!! "createdAt") = Some (VStr "1999") ∧
  stored ≫= (.!! "updatedAt") = Some (VStr "2024-05-01T10:00:00+00:00") ∧
  stored ≫= (.!! "createdAt") ≠ stored ≫= (.!! "updatedAt").
Proof.
  cbn zeta. split_and!; [vm_refl | vm_refl | vm_refl | vm_refl |].
  vm_compute. discriminate.
Qed.

(** ** Book creation *)

Lemma require_fields_ok (data : dict) (required : list string) :
  Forall (λ f, truthy (dict_get data f) = true) required →
  require_fields data required = (true, None).
Proof.
  intros H. unfold require_fields.
  replace (filter _ required) with (@nil string); [done|].
  induction H as [|f r Hf _ IH]; [done|].
  rewrite filter_cons, decide_False; [done | congruence].
Qed.

Lemma coerce_year_other (data data' : dict) (f : string) :
  coerce_year data = Ret (Some data') → f ≠ "year" → data' !! f = data !! f.
Proof.
  unfold coerce_year. destruct (data !! "year") as [y|]; [|by intros [= <-]].
  destruct (to_int y None) as [[n|]|]; cbn; intros [= <-] Hf.
  by rewrite lookup_insert_ne.
Qed.





(** ** Trimming *)

Lemma lstrip_head (s : string) :
  lstrip s = "" ∨ ∃ c r, lstrip s = String c r ∧ isspace c = false.
Proof.
  induction s as [|c r IH]; [by left|].
  cbn [lstrip]. destruct (isspace c) eqn:Hc; [done|]. right. eauto.
Qed.

Lemma rstrip_idempotent (s : string) : rstrip (rstrip s) = rstrip s.
Proof.
  induction s as [|c r IH]; [done|].
  cbn [rstrip]. destruct (rstrip r) as [|c' r'] eqn:Hr.
  - destruct (isspace c) eqn:Hc; [done|]. cbn [rstrip]. by rewrite Hc.
  - cbn [rstrip]. cbn [rstrip] in IH. by rewrite IH.
Qed.

Lemma rstrip_head (c : ascii) (r : string) :
  isspace c = false → ∃ r', rstrip (String c r) = String c r'.
Proof.
  intros Hc. cbn [rstrip]. rewrite Hc. destruct (rstrip r); eauto.
Qed.

Lemma strip_idempotent (s : string) : strip (strip s) = strip s.
Proof.
  unfold strip. destruct (lstrip_head s) as [-> | (c & r & -> & Hc)]; [done|].
  destruct (rstrip_head c r Hc) as [r' Hr'].
  rewrite Hr' at 1. cbn [lstrip]. rewrite Hc, <- Hr'. apply rstrip_idempotent.
Qed.


(** ** Ratings *)







Lemma to_int_finite (v : value) :
  (∀ b, v ≠ VFloat (Finf b)) → ∃ r, to_int v None = Ret r.
Proof.
  intros Hv. unfold to_int.
  destruct v as [| | |[q|b|]| | |]; cbn [py_int]; eauto.
  - by destruct (Hv b).
  - destruct (int_of_str _); eauto.
Qed.

(** C9, as amended. [books_rate] first looks the book up and answers 404
    when it does not exist, whatever the rating.  Only for an existing book
    does it read the rating with [int()].  A rating that is an infinite
    float makes [int()] raise OverflowError, which is not caught and leaves
    the handler.  For every other rating [int()] gives an integer or, its
    TypeError or ValueError caught, nothing; unless it gives an integer
    between 1 and 5 the answer is 400.  None of these changes the world. *)
Theorem books_rate_checks (e : env) (id : string) (body : option dict) (w : world) :
  let rating := dict_get (default ∅ body) "rating" in
  match collection w BOOKS !! id with
  | None => books_rate e id body w = (Ret (json_error "Book not found" 404), w)
  | Some _ =>
      match rating with
      | VFloat (Finf _) => books_rate e id body w = (Raise OverflowError, w)
      | _ =>
          ∃ r, to_int rating None = Ret r ∧
               ((∀ n, r = Some n → ¬ 1 ≤ n ≤ 5) →
                books_rate e id body w
                = (Ret (json_error "rating must be an integer between 1 and 5" 400), w))
      end
  end.
Proof.
  cbn zeta. unfold books_rate. erewrite io_bind_run by reflexivity. cbn beta.
  destruct (collection w BOOKS !! id) as [d|]; [|done].
  rewrite io_bind_lift.
  destruct (dict_get (default ∅ body) "rating") as [| | |[q|b|]| | |] eqn:Hv; [..|done| | | |];
    match goal with
    | |- ∃ r, to_int ?v None = Ret r ∧ _ =>
        destruct (to_int_finite v) as [r Hr]; [by intros ?|];
        exists r; (split; [done|]); intros Hn; rewrite Hr;
        destruct r as [m|]; [|done];
        destruct ((m <? 1) || (5 <? m)) eqn:Hb; [done|];
        destruct (Hn m eq_refl); lia
    end.
Qed.

(** C9 as stated fails: a rating out of range for a book that does not
    exist is answered 404, not 400. *)
Lemma books_rate_missing_book_first :
  to_int (dict_get {[ "rating" := VInt 9 ]} "rating") None = Ret (Some 9) ∧
  collection library_world BOOKS !! "missing" = None ∧
  books_rate (sample_env 3) "missing" (Some {[ "rating" := VInt 9 ]}) library_world
  = (Ret (json_error "Book not found" 404), library_world) ∧
  books_rate (sample_env 3) "missing" (Some {[ "rating" := VStr "five" ]}) library_world
  = (Ret (json_error "Book not found" 404), library_world).
Proof. split_and!; vm_refl. Qed.

(** ** What the handlers write *)

Lemma same_outside_refl (cols : list string) (w : world) : same_outside cols w w.
Proof. by split. Qed.

Lemma same_outside_trans (cols : list string) (w1 w2 w3 : world) :
  same_outside cols w1 w2 → same_outside cols w2 w3 → same_outside cols w1 w3.
Proof.
  intros [Ht1 Hc1] [Ht2 Hc2]. split; [congruence|].
  intros c Hc. by rewrite Hc2, Hc1.
Qed.

Lemma same_outside_put (cols : list string) (col : string) (c : gmap string dict) (w : world) :
  col ∈ cols → same_outside cols w (put_collection col c w).
Proof.
  intros Hin. split; [done|]. intros c' Hc'.
  apply collection_put_ne. intros ->. done.
Qed.

Section writes.
Context {A B : Type} (cols : list string).

Lemma writes_only_ret (a : A) : writes_only cols (mret a : io A).
Proof. intros w. apply same_outside_refl. Qed.

Lemma writes_only_lift (m : py A) : writes_only cols (lift m).
Proof. intros w. apply same_outside_refl. Qed.

Lemma writes_only_bind (m : io A) (k : A → io B) :
  writes_only cols m → (∀ a, writes_only cols (k a)) → writes_only cols (m ≫= k).
Proof.
  intros Hm Hk w. unfold mbind, io_bind.
  specialize (Hm w). destruct (m w) as [[a|ex] w1]; [|done].
  eapply same_outside_trans; [exact Hm | apply Hk].
Qed.

End writes.

Lemma writes_only_doc_get (cols : list string) (col id : string) :
  writes_only cols (doc_get col id).
Proof. intros w. apply same_outside_refl. Qed.

Lemma writes_only_doc_set (cols : list string) (col id : string) (payload : dict) :
  col ∈ cols → writes_only cols (doc_set col id payload).
Proof. intros Hin w. by apply same_outside_put. Qed.

Lemma writes_only_doc_update (cols : list string) (col id : string) (payload : dict) :
  col ∈ cols → writes_only cols (doc_update col id payload).
Proof.
  intros Hin w. unfold doc_update.
  destruct (collection w col !! id); [by apply same_outside_put | apply same_outside_refl].
Qed.

Lemma writes_only_doc_delete (cols : list string) (col id : string) :
  col ∈ cols → writes_only cols (doc_delete col id).
Proof. intros Hin w. by apply same_outside_put. Qed.

Lemma writes_only_doc_add (cols : list string) (e : env) (col : string) (entry : dict) :
  col ∈ cols → writes_only cols (doc_add e col entry).
Proof.
  intros Hin w. unfold doc_add.
  destruct (collection w col !! auto_id e);
    [apply same_outside_refl | by apply same_outside_put].
Qed.

(** Walks through a handler: binds, branches and the calls of the store. *)
Ltac writes :=
  repeat first
    [ apply writes_only_ret
    | apply writes_only_lift
    | apply writes_only_doc_get
    | apply writes_only_doc_set; in_list
    | apply writes_only_doc_update; in_list
    | apply writes_only_doc_delete; in_list
    | apply writes_only_doc_add; in_list
    | apply writes_only_bind; [|intros ?]
    | match goal with
      | |- writes_only _ (match ?x with _ => _ end) => destruct x
      end ].

Lemma writes_only_get_one (cols : list string) (col id : string) :
  writes_only cols (get_one col id).
Proof. unfold get_one. writes. Qed.

Lemma writes_only_exists (cols : list string) (e : env) (col : string) (id : value) :
  writes_only cols (exists_ e col id).
Proof. unfold exists_. writes. Qed.

Lemma writes_only_create (cols : list string) (e : env) (col : string) (data : option dict) :
  col ∈ cols → writes_only cols (create e col data).
Proof. intros. unfold create. writes. Qed.

Lemma writes_only_update_one (cols : list string) (e : env) (col id : string)
    (data : option dict) :
  col ∈ cols → writes_only cols (update_one e col id data).
Proof. intros. unfold update_one. writes. Qed.

Lemma writes_only_delete_one (cols : list string) (col id : string) :
  col ∈ cols → writes_only cols (delete_one col id).
Proof. intros. unfold delete_one. writes. Qed.

Lemma writes_only_list_all (cols : list string) (col : string) :
  writes_only cols (list_all col).
Proof. intros w. apply same_outside_refl. Qed.

Lemma writes_only_paginated (cols : list string) (args : query) (items : list dict) :
  writes_only cols (paginated args items).
Proof. unfold paginated. writes. Qed.

Lemma writes_only_record_rating (cols : list string) (e : env) (book_id : string)
    (rating : Z) (notes name : value) :
  RATINGS ∈ cols → writes_only cols (record_rating e book_id rating notes name).
Proof. intros. unfold record_rating. writes. Qed.

Lemma writes_only_create_borrow_record (cols : list string) (e : env) (book data : dict) :
  BORROW_REQUESTS ∈ cols → writes_only cols (create_borrow_record e book data).
Proof. intros. unfold create_borrow_record. writes. Qed.

Lemma writes_only_borrows_list (cols : list string) : writes_only cols borrows_list.
Proof. intros w. apply same_outside_refl. Qed.

Lemma route_guard (user pass : string) (e : env) (r : request) :
  route user pass e r
  = match guard r with
    | Some auth => require_admin (undecorated user pass e r) auth
    | None => undecorated user pass e r
    end.
Proof. by destruct r. Qed.

Ltac writes_handler :=
  cbn zeta;
  repeat first
    [ apply writes_only_get_one
    | apply writes_only_exists
    | apply writes_only_create; in_list
    | apply writes_only_update_one; in_list
    | apply writes_only_delete_one; in_list
    | apply writes_only_list_all
    | apply writes_only_paginated
    | apply writes_only_record_rating; in_list
    | apply writes_only_create_borrow_record; in_list
    | apply writes_only_borrows_list
    | progress writes ].

Lemma undecorated_writes (user pass : string) (e : env) (r : request) :
  is_session_request r = false →
  writes_only (footprint r) (undecorated user pass e r).
Proof.
  destruct r; try done; intros _; cbn [undecorated footprint].
  all: unfold session_info, authors_list, authors_get, authors_create, authors_update,
         authors_delete, pubs_list, pubs_get, pubs_create, pubs_update, pubs_delete,
         books_list, books_get, books_create, books_update, books_delete, books_borrow,
         books_rate, health.
  all: writes_handler.
Qed.

(** ** Sessions *)

Lemma extract_bearer (token : string) : _extract_token (bearer token) = Some (strip token).
Proof. by destruct token. Qed.

Lemma rstrip_no_space (s : string) :
  Forall (λ c, isspace c = false) (String.list_ascii_of_string s) → rstrip s = s.
Proof.
  induction s as [|c r IH]; [done|].
  cbn [String.list_ascii_of_string rstrip]. intros [Hc Hr]%Forall_cons.
  rewrite IH by done. destruct r; [by rewrite Hc | done].
Qed.

Lemma strip_no_space (s : string) :
  Forall (λ c, isspace c = false) (String.list_ascii_of_string s) → strip s = s.
Proof.
  intros H. unfold strip.
  assert (lstrip s = s) as ->; [|by apply rstrip_no_space].
  destruct s as [|c r]; [done|].
  cbn [String.list_ascii_of_string] in H. apply Forall_cons in H as [Hc _].
  cbn [lstrip]. by rewrite Hc.
Qed.

Lemma urlsafe_no_space (i : nat) : isspace (char_at urlsafe_alphabet i) = false.
Proof. do 65 (destruct i as [|i]; [reflexivity|]). reflexivity. Qed.

Lemma sextets_nonempty (a : N) (l : list N) : sextets (a :: l) ≠ [].
Proof. by destruct l as [|b [|c r]]. Qed.

Lemma token_urlsafe_clean (e : env) :
  strip (token_urlsafe e 32) = token_urlsafe e 32 ∧ token_urlsafe e 32 ≠ "".
Proof.
  unfold token_urlsafe. split.
  - apply strip_no_space. rewrite String.list_ascii_of_string_of_list_ascii.
    apply Forall_fmap, Forall_forall. intros s _. apply urlsafe_no_space.
  - change (token_bytes e 32) with
      ((urandom e 0 `mod` 256)%N :: ((λ k, urandom e k `mod` 256)%N <$> seq 1 31)).
    pose proof (sextets_nonempty (urandom e 0 `mod` 256)%N
                  ((λ k, urandom e k `mod` 256)%N <$> seq 1 31)) as Hne.
    destruct (sextets _) as [|x l]; [done|]. by cbn.
Qed.

Lemma truthy_nonempty (s : string) : s ≠ "" → truthy (VStr s) = true.
Proof. by destruct s. Qed.

Lemma require_admin_cached {fn : io response} (auth : option string) (token : string)
    (w : world) :
  _extract_token auth = Some token → token ≠ "" → token ∈ _admin_tokens w →
  require_admin fn auth w = fn w.
Proof.
  intros Ht Hne Hin. unfold require_admin. rewrite Ht, truthy_nonempty by done.
  by rewrite bool_decide_eq_true_2.
Qed.

Lemma require_admin_unknown (fn : io response) (auth : option string) (w : world) :
  (∀ token, _extract_token auth = Some token → token ≠ "" → revoked token w) →
  require_admin fn auth w = (Ret unauthorized, w).
Proof.
  intros H. unfold require_admin.
  destruct (_extract_token auth) as [token|]; [|done].
  destruct token as [|c r]; [done|]. cbn [truthy].
  destruct (H (String c r) eq_refl) as [Hc Hs]; [done|].
  by rewrite bool_decide_eq_false_2, Hs.
Qed.

Lemma require_admin_state (P : world → Prop) (fn : io response) (auth : option string)
    (w : world) :
  P w → preserves P fn →
  (∀ t, is_Some (collection w ADMIN_SESSIONS !! t) → P (add_token t w).2) →
  P (require_admin fn auth w).2.
Proof.
  intros HP Hfn Hadd. unfold require_admin.
  destruct (_extract_token auth) as [token|]; [|done].
  destruct (truthy _); [|done].
  destruct (bool_decide _); [by apply Hfn|].
  destruct (collection w ADMIN_SESSIONS !! token) as [d|] eqn:Hs; [|done].
  specialize (Hadd token (ltac:(eauto))).
  unfold mbind, io_bind. cbn [add_token]. cbn [add_token snd] in Hadd.
  apply Hfn in Hadd. by destruct (fn _) as [[r|ex] w'].
Qed.

Lemma revoked_same_outside (cols : list string) (token : string) (w w' : world) :
  ADMIN_SESSIONS ∉ cols → same_outside cols w w' → revoked token w → revoked token w'.
Proof. intros Hc [Ht Hs] [H1 H2]. split; [by rewrite Ht | by rewrite Hs]. Qed.

Lemma logout_revokes (auth : option string) (token : string) (w : world) :
  _extract_token auth = Some token → token ≠ "" → revoked token (logout auth w).2.
Proof.
  intros Ht Hne. unfold logout. rewrite Ht, truthy_nonempty by done.
  io_unfold. cbn [snd]. split.
  - cbn [_admin_tokens put_collection].
    intros [_ Hout]%elem_of_difference. apply Hout. by apply elem_of_singleton.
  - by rewrite collection_put_eq, lookup_delete_eq.
Qed.

Lemma logout_preserves_revoked (auth : option string) (token : string) :
  preserves (revoked token) (logout auth).
Proof.
  intros w [H1 H2]. unfold logout.
  destruct (_extract_token auth) as [t|]; [|done].
  destruct (truthy _); [|done].
  io_unfold. cbn [snd]. split.
  - cbn [_admin_tokens put_collection]. by intros [Hin _]%elem_of_difference.
  - rewrite collection_put_eq. rewrite lookup_delete. by case_decide.
Qed.

Lemma login_preserves_revoked (user pass : string) (e : env) (body : option dict)
    (token : string) :
  token_urlsafe e 32 ≠ token → preserves (revoked token) (login user pass e body).
Proof.
  intros Hne w [H1 H2]. unfold login. rewrite io_bind_lift.
  destruct (str_strip _) as [username|ex]; [|done].
  destruct (_ && _); [|done].
  io_unfold. cbn [snd]. split.
  - cbn [_admin_tokens put_collection].
    by intros [Heq%elem_of_singleton | Hin]%elem_of_union.
  - rewrite collection_put_eq. by rewrite lookup_insert_ne.
Qed.

Lemma undecorated_preserves_revoked (user pass : string) (e : env) (r : request)
    (token : string) :
  ¬ mints token (e, r) → preserves (revoked token) (undecorated user pass e r).
Proof.
  intros Hm. destruct (is_session_request r) eqn:Hr.
  - destruct r; try done; cbn [undecorated].
    + apply login_preserves_revoked. intros Heq. by apply Hm.
    + apply logout_preserves_revoked.
  - intros w Hw. eapply (revoked_same_outside (footprint r)); [| |exact Hw].
    + destruct r; try done; cbn [footprint]; not_in_list.
    + by apply undecorated_writes.
Qed.

Lemma handle_preserves_revoked (user pass : string) (e : env) (r : request)
    (token : string) (w : world) :
  ¬ mints token (e, r) → revoked token w → revoked token (handle user pass e r w).2.
Proof.
  intros Hm Hw.
  assert (revoked token (route user pass e r w).2) as H.
  { rewrite route_guard. destruct (guard r) as [auth|].
    - apply require_admin_state; [done | by apply undecorated_preserves_revoked |].
      intros t [d Hd]. destruct Hw as [H1 H2]. split; [|done].
      cbn [add_token snd _admin_tokens]. intros [->%elem_of_singleton|?]%elem_of_union; [|done].
      congruence.
    - by apply undecorated_preserves_revoked. }
  unfold handle. by destruct (route user pass e r w) as [[resp|ex] w'].
Qed.

Lemma serve_preserves_revoked (user pass : string) (rs : list (env * request))
    (token : string) (w : world) :
  Forall (λ er, ¬ mints token er) rs → revoked token w →
  revoked token (serve user pass rs w).
Proof.
  intros Hrs. revert w. induction Hrs as [|[e r] rs Hm _ IH]; intros w Hw; [done|].
  cbn [serve]. apply IH. by apply handle_preserves_revoked.
Qed.

Lemma login_issued (user pass : string) (e : env) (body : option dict) (w w1 : world)
    (token : string) :
  handle user pass e (Login body) w = ((JToken token, 200), w1) →
  token = token_urlsafe e 32 ∧
  token ∈ _admin_tokens w1 ∧
  is_Some (collection w1 ADMIN_SESSIONS !! token).
Proof.
  unfold handle. cbn [route]. unfold login. rewrite io_bind_lift.
  destruct (str_strip _) as [username|ex]; [|done].
  destruct (_ && _); [|done].
  io_unfold. intros [= <- <-]. split_and!; [done | |].
  - cbn [_admin_tokens put_collection]. by apply elem_of_union_l, elem_of_singleton.
  - rewrite collection_put_eq, lookup_insert_eq. by eexists.
Qed.

(** C6. A guarded request that carries no token, an empty token or a token
    that is in neither the cache nor the session collection is answered 401
    and changes nothing.  A token returned by a successful login passes the
    guard: every guarded request that presents it is served by its handler.
    After a logout with a token, the token is in neither the cache nor the
    session collection, and whatever requests are served next, as long as no
    later login draws the very same token again, every guarded request that
    presents it is answered 401. *)
Theorem session_lifecycle (user pass : string) :
  (∀ e r auth w,
     guard r = Some auth →
     (∀ token, _extract_token auth = Some token → token ≠ "" → revoked token w) →
     handle user pass e r w = (unauthorized, w)) ∧
  (∀ e body w token w1,
     handle user pass e (Login body) w = ((JToken token, 200), w1) →
     token ≠ "" ∧
     _extract_token (bearer token) = Some token ∧
     handle user pass e (SessionInfo (bearer token)) w1 = ((JOk, 200), w1) ∧
     ∀ e' r, guard r = Some (bearer token) →
             route user pass e' r w1 = undecorated user pass e' r w1) ∧
  (∀ e0 auth token w rs e r,
     _extract_token auth = Some token → token ≠ "" →
     Forall (λ er, ¬ mints token er) rs →
     guard r = Some auth →
     let w1 := (handle user pass e0 (Logout auth) w).2 in
     let w2 := serve user pass rs w1 in
     revoked token w1 ∧ revoked token w2 ∧
     handle user pass e r w2 = (unauthorized, w2)).
Proof.
  assert (∀ e r auth w,
     guard r = Some auth →
     (∀ token, _extract_token auth = Some token → token ≠ "" → revoked token w) →
     handle user pass e r w = (unauthorized, w)) as Hunknown.
  { intros e r auth w Hg Hrev. unfold handle. rewrite route_guard, Hg.
    by rewrite require_admin_unknown. }
  split_and!; [exact Hunknown | |].
  - intros e body w token w1 Hlogin.
    destruct (login_issued _ _ _ _ _ _ _ Hlogin) as (-> & Hin & Hs).
    destruct (token_urlsafe_clean e) as [Hstrip Hne].
    assert (_extract_token (bearer (token_urlsafe e 32)) = Some (token_urlsafe e 32)) as Hx
      by (by rewrite extract_bearer, Hstrip).
    split_and!; [done | done | |].
    + unfold handle. cbn [route].
      by rewrite (require_admin_cached _ (token_urlsafe e 32)).
    + intros e' r Hg. rewrite route_guard, Hg.
      by apply (require_admin_cached _ (token_urlsafe e 32)).
  - intros e0 auth token w rs e r Hx Hne Hrs Hg. cbn zeta.
    assert (revoked token (handle user pass e0 (Logout auth) w).2) as H1.
    { assert (revoked token (route user pass e0 (Logout auth) w).2) as H.
      { cbn [route]. unfold require_admin. rewrite Hx, truthy_nonempty by done.
        destruct (bool_decide _) eqn:Hc; [by apply logout_revokes|].
        destruct (collection w ADMIN_SESSIONS !! token) eqn:Hs.
        - assert (revoked token ((add_token token;; logout auth) w).2) as H
            by (unfold mbind, io_bind; cbn [add_token]; by apply logout_revokes).
          by destruct ((add_token token;; logout auth) w) as [[resp|ex] w'].
        - apply bool_decide_eq_false in Hc. by split. }
      unfold handle. by destruct (route _ _ _ _ w) as [[resp|ex] w']. }
    assert (revoked token (serve user pass rs (handle user pass e0 (Logout auth) w).2)) as H2
      by (by apply serve_preserves_revoked).
    split_and!; [done | done |].
    apply Hunknown with (auth := auth); [done|].
    intros t Ht _. congruence.
Qed.

Lemma session_lifecycle_witness :
  let token := token_urlsafe (sample_env 1) 32 in
  let w1 := (handle "admin" "library123" (sample_env 1) (Login admin_credentials)
               empty_world).2 in
  let w2 := serve "admin" "library123" [(sample_env 3, Health)]
              (handle "admin" "library123" (sample_env 2) (Logout (bearer token)) w1).2 in
  handle "admin" "library123" (sample_env 1) (SessionInfo None) empty_world
  = (unauthorized, empty_world) ∧
  handle "admin" "library123" (sample_env 1) (SessionInfo (bearer token)) w1
  = ((JOk, 200), w1) ∧
  handle "admin" "library123" (sample_env 4) (SessionInfo (bearer token)) w2
  = (unauthorized, w2).
Proof.
  cbn zeta.
  destruct (session_lifecycle "admin" "library123") as (Hunknown & Hissued & Hrevoked).
  split_and!.
  - apply Hunknown with (auth := None); [reflexivity|]. intros token Ht. discriminate Ht.
  - apply (Hissued (sample_env 1) admin_credentials empty_world). vm_refl.
  - apply (Hrevoked (sample_env 2) (bearer (token_urlsafe (sample_env 1) 32))
             (token_urlsafe (sample_env 1) 32)).
    + vm_refl.
    + vm_compute. discriminate.
    + repeat constructor. intros Hm. exact Hm.
    + reflexivity.
Defined.

Example session_run :
  let token := token_urlsafe (sample_env 1) 32 in
  let w1 := (handle "admin" "library123" (sample_env 1) (Login admin_credentials)
               empty_world).2 in
  let w2 := (handle "admin" "library123" (sample_env 2) (Logout (bearer token)) w1).2 in
  token = "AQgPFh0kKzI5QEdOVVxjanF4f4aNlJuiqbC3vsXM09o" ∧
  (handle "admin" "library123" (sample_env 1) (Login admin_credentials) empty_world).1
  = (JToken token, 200) ∧
  (handle "admin" "library123" (sample_env 2)
     (AuthorsCreate None (Some {[ "name" := VStr "A" ]})) w1).1 = unauthorized ∧
  (handle "admin" "library123" (sample_env 2)
     (AuthorsCreate (Some "Bearer unknown") (Some {[ "name" := VStr "A" ]})) w1).1
  = unauthorized ∧
  (handle "admin" "library123" (sample_env 2) (SessionInfo (bearer token)) w1).1
  = (JOk, 200) ∧
  (handle "admin" "library123" (sample_env 2) (Logout (bearer token)) w1).1 = (JOk, 200) ∧
  (handle "admin" "library123" (sample_env 3) (SessionInfo (bearer token)) w2).1
  = unauthorized ∧
  (handle "admin" "library123" (sample_env 3) (Login (Some {[ "username" := VStr "admin" ]}))
     w2).1 = json_error "Invalid credentials" 401.
Proof. cbn zeta. split_and!; vm_refl. Qed.

(** ** The rating aggregates *)

Lemma rating_consistent_same (d d' : dict) :
  (∀ f, f ∈ rating_fields → d' !! f = d !! f) →
  rating_consistent d → rating_consistent d'.
Proof.
  intros Hsame (s & c & avg & Hs & Hc & Hpos & Hav & Ha). exists s, c, avg.
  rewrite !Hsame by (unfold rating_fields; in_list). done.
Qed.

Lemma books_consistent_same (w w' : world) :
  collection w' BOOKS = collection w BOOKS → books_consistent w → books_consistent w'.
Proof. intros Heq H id d. rewrite Heq. apply H. Qed.

Lemma books_consistent_outside (cols : list string) (w w' : world) :
  BOOKS ∉ cols → same_outside cols w w' → books_consistent w → books_consistent w'.
Proof. intros Hc [_ Hs]. apply books_consistent_same. by apply Hs. Qed.

Lemma books_consistent_put (id : string) (d : dict) (w : world) :
  rating_consistent d → books_consistent w →
  books_consistent (put_collection BOOKS (<[id := d]> (collection w BOOKS)) w).
Proof.
  intros Hd Hw id' d'. rewrite collection_put_eq, lookup_insert.
  case_decide; [by intros [= <-] | apply Hw].
Qed.

Lemma books_consistent_delete (id : string) (w : world) :
  books_consistent w →
  books_consistent (put_collection BOOKS (delete id (collection w BOOKS)) w).
Proof.
  intros Hw id' d'. rewrite collection_put_eq, lookup_delete.
  case_decide; [done | apply Hw].
Qed.

Lemma books_create_consistent (e : env) (body : option dict) :
  leaves_ratings body → preserves books_consistent (books_create e body).
Proof.
  intros Hb w Hw. unfold books_create.
  destruct (require_fields _ _) as [[|] msg]; [|done].
  rewrite io_bind_lift. destruct (coerce_year _) as [[data'|]|ex] eqn:Hy; [|done|done].
  rewrite io_bind_exists. destruct (exists_ _ _ _ _).1 as [[|]|ex]; [|done|done].
  cbn [negb]. rewrite io_bind_exists.
  destruct (exists_ _ _ _ _).1 as [[|]|ex]; [|done|done].
  cbn [negb]. rewrite io_bind_lift. destruct (sanitize_tags _) as [tags|ex]; [|done].
  erewrite io_bind_run by apply create_run. cbn [mret io_ret snd].
  apply books_consistent_put; [|done].
  exists 0, 0, (VInt 0). change (default ∅ (Some ?d)) with d.
  assert (∀ f, f ∈ rating_fields → data' !! f = None) as Hnone.
  { intros f Hf. rewrite (coerce_year_other _ _ _ Hy).
    - unfold leaves_ratings in Hb. rewrite Forall_forall in Hb. by apply Hb.
    - unfold rating_fields in Hf. rewrite !elem_of_cons, elem_of_nil in Hf.
      by destruct Hf as [-> | [-> | [-> | []]]]. }
  split_and!; [| | done | done |].
  all: rewrite lookup_insert_ne by done; rewrite !lookup_setdefault;
    repeat (case_decide; try done); rewrite ?lookup_setdefault;
    repeat (case_decide; try done); rewrite ?lookup_setdefault;
    repeat (case_decide; try done);
    rewrite lookup_insert_ne by done;
    rewrite Hnone by (unfold rating_fields; in_list); done.
Qed.

Lemma update_one_consistent (e : env) (id : string) (data : dict) :
  (∀ f, f ∈ rating_fields → data !! f = None) →
  preserves books_consistent (update_one e BOOKS id (Some data)).
Proof.
  intros Hnone w Hw.
  destruct (collection w BOOKS !! id) as [d|] eqn:Hd.
  - rewrite (update_one_run e BOOKS id (Some data) d w Hd). cbn [snd].
    apply books_consistent_put; [|done].
    apply (rating_consistent_same d); [|by eapply Hw].
    intros f Hf. rewrite lookup_union_r; [done|].
    change (default ∅ (Some data)) with data.
    rewrite lookup_insert_ne; [by apply Hnone|].
    unfold rating_fields in Hf. rewrite !elem_of_cons, elem_of_nil in Hf.
    by destruct Hf as [-> | [-> | [-> | []]]].
  - by rewrite update_one_missing.
Qed.

Lemma books_update_consistent (e : env) (id : string) (body : option dict) :
  leaves_ratings body → preserves books_consistent (books_update e id body).
Proof.
  intros Hb w Hw. unfold books_update.
  rewrite io_bind_lift. destruct (coerce_year _) as [[data'|]|ex] eqn:Hy; [|done|done].
  assert (∀ f, f ∈ rating_fields → data' !! f = None) as Hnone.
  { intros f Hf. rewrite (coerce_year_other _ _ _ Hy).
    - unfold leaves_ratings in Hb. rewrite Forall_forall in Hb. by apply Hb.
    - unfold rating_fields in Hf. rewrite !elem_of_cons, elem_of_nil in Hf.
      by destruct Hf as [-> | [-> | [-> | []]]]. }
  destruct (io_bind_check e AUTHORS (data' !! "author_id") w) as [author Hauthor].
  rewrite Hauthor. destruct author as [[|]|ex]; [|done|done].
  cbn [negb].
  destruct (io_bind_check e PUBLISHERS (data' !! "publisher_id") w) as [publisher Hpublisher].
  rewrite Hpublisher. destruct publisher as [[|]|ex]; [|done|done].
  cbn [negb].
  destruct (data' !! "tags") as [t|] eqn:Ht.
  - unfold mbind at 1, io_bind at 1. rewrite io_bind_lift.
    destruct (sanitize_tags t) as [tags|ex]; [|done]. cbn [mret io_ret].
    pose proof (update_one_consistent e id (<["tags" := VList (VStr <$> tags)]> data')) as Hu.
    unfold mbind, io_bind.
    specialize (Hu ltac:(intros f Hf; rewrite lookup_insert_ne; [by apply Hnone|];
                          unfold rating_fields in Hf;
                          rewrite !elem_of_cons, elem_of_nil in Hf;
                          by destruct Hf as [-> | [-> | [-> | []]]]) w Hw).
    by destruct (update_one _ _ _ _ w) as [[x|ex] w'].
  - unfold mbind, io_bind. cbn [mret io_ret].
    pose proof (update_one_consistent e id data' Hnone w Hw) as Hu.
    by destruct (update_one _ _ _ _ w) as [[x|ex] w'].
Qed.

Lemma books_delete_consistent (id : string) :
  preserves books_consistent (books_delete id).
Proof.
  intros w Hw. unfold books_delete, delete_one. io_unfold.
  destruct (collection w BOOKS !! id); [|done].
  by apply books_consistent_delete.
Qed.

Lemma books_rate_consistent (e : env) (id : string) (body : option dict) :
  preserves books_consistent (books_rate e id body).
Proof.
  intros w Hw. unfold books_rate.
  erewrite io_bind_run by reflexivity. cbn beta.
  destruct (collection w BOOKS !! id) as [d|] eqn:Hd; [|done].
  rewrite io_bind_lift. destruct (to_int _ None) as [[r|]|ex]; [|done|done].
  destruct ((r <? 1) || (5 <? r)) eqn:Hr; [done|].
  rewrite io_bind_lift. destruct (str_strip _) as [notes|ex]; [|done].
  rewrite io_bind_lift. destruct (str_strip _) as [name|ex]; [|done].
  destruct (Hw id d Hd) as (s & c & avg & Hs & Hc & Hpos & Hav & Ha).
  change (default ∅ (Some d)) with d.
  assert (dict_get d "rating_sum" = VInt s) as -> by (unfold dict_get; by rewrite Hs).
  assert (dict_get d "rating_count" = VInt c) as -> by (unfold dict_get; by rewrite Hc).
  assert (∀ n, py_int (py_or (VInt n) (VInt 0)) = Ret n) as Hint.
  { intros n. unfold py_or. cbn [truthy]. destruct (Z.eqb_spec n 0) as [->|]; done. }
  rewrite io_bind_lift, Hint. rewrite io_bind_lift, Hint.
  replace (c + 1 =? 0) with false by lia.
  rewrite io_bind_lift.
  destruct (truediv (s + r) (c + 1)) as [q|ex] eqn:Hdiv; [|done].
  cbn [mbind py_bind mret py_ret].
  assert (books_consistent
            (put_collection BOOKS
               (<[id := <["rating_sum" := VInt (s + r)]>
                         (<["rating_count" := VInt (c + 1)]>
                         (<["rating_avg" := VFloat q]>
                         (<["updatedAt" := VStr (now_iso e)]> ∅))) ∪ d]>
                  (collection w BOOKS)) w)) as Hw1.
  { apply books_consistent_put; [|done]. exists (s + r), (c + 1), (VFloat q).
    unfold average. replace (c + 1 =? 0) with false by lia. rewrite Hdiv.
    split_and!; [| | lia | done |]; apply lookup_union_Some_l;
      by rewrite ?lookup_insert_ne by done; rewrite lookup_insert_eq. }
  erewrite io_bind_run by (unfold doc_update; by rewrite Hd).
  pose proof (writes_only_record_rating [RATINGS] (tick e) id r (VStr notes) (VStr name)
                ltac:(in_list)) as Hrec.
  unfold mbind, io_bind.
  match goal with |- context [record_rating ?a ?b ?c ?d ?f ?w1] =>
    specialize (Hrec w1);
    assert (books_consistent (record_rating a b c d f w1).2) as Hfinal
  end.
  { eapply books_consistent_outside; [|exact Hrec|exact Hw1]. not_in_list. }
  by destruct (record_rating _ _ _ _ _ _) as [[x|ex] w'].
Qed.

Lemma login_books (user pass : string) (e : env) (body : option dict) (w : world) :
  collection (login user pass e body w).2 BOOKS = collection w BOOKS.
Proof.
  unfold login. rewrite io_bind_lift.
  destruct (str_strip _) as [username|ex]; [|done].
  destruct (_ && _); [|done].
  io_unfold. cbn [snd]. by rewrite collection_put_ne.
Qed.

Lemma logout_books (auth : option string) (w : world) :
  collection (logout auth w).2 BOOKS = collection w BOOKS.
Proof.
  unfold logout. destruct (_extract_token auth) as [t|]; [|done].
  destruct (truthy _); [|done].
  io_unfold. cbn [snd]. by rewrite collection_put_ne.
Qed.

Lemma undecorated_consistent (user pass : string) (e : env) (r : request) :
  respects_ratings r → preserves books_consistent (undecorated user pass e r).
Proof.
  intros Hr.
  assert (BOOKS ∉ footprint r → is_session_request r = false →
          preserves books_consistent (undecorated user pass e r)) as Hframe.
  { intros Hf Hs w Hw. eapply books_consistent_outside; [exact Hf| |exact Hw].
    by apply undecorated_writes. }
  destruct r; cbn [undecorated respects_ratings] in *;
    try (apply Hframe; [cbn [footprint]; not_in_list | done]).
  - intros w. apply books_consistent_same, login_books.
  - intros w. apply books_consistent_same, logout_books.
  - by apply books_create_consistent.
  - by apply books_update_consistent.
  - apply books_delete_consistent.
  - apply books_rate_consistent.
Qed.

Lemma handle_consistent (user pass : string) (e : env) (r : request) (w : world) :
  respects_ratings r → books_consistent w → books_consistent (handle user pass e r w).2.
Proof.
  intros Hr Hw.
  assert (books_consistent (route user pass e r w).2) as H.
  { rewrite route_guard. destruct (guard r) as [auth|].
    - apply require_admin_state; [done | by apply undecorated_consistent |].
      intros t _. exact Hw.
    - by apply undecorated_consistent. }
  unfold handle. by destruct (route user pass e r w) as [[resp|ex] w'].
Qed.

(** C3, as amended. Start from a store whose books have agreeing aggregates
    (an empty one, say) and serve any requests among which the book creations
    and book updates name none of rating_sum, rating_count and rating_avg in
    their bodies.  Then every book of the store has agreeing aggregates: an
    integer sum and a count that is not negative, with rating_avg = 0 when
    the count is 0 and rating_avg = rating_sum / rating_count otherwise. *)
Theorem ratings_invariant (user pass : string) (rs : list (env * request)) (w : world)
    (Hinit : books_consistent w)
    (Hrs : Forall (λ er, respects_ratings er.2) rs) :
  books_consistent (serve user pass rs w).
Proof.
  revert w Hinit. induction Hrs as [|[e r] rs Hr _ IH]; intros w Hw; [done|].
  cbn [serve]. apply IH. by apply handle_consistent.
Qed.

Lemma library_world_consistent : books_consistent library_world.
Proof.
  intros id d. change (collection library_world BOOKS) with (∅ : gmap string dict).
  by rewrite lookup_empty.
Qed.

Lemma library_run_respects : Forall (λ er, respects_ratings er.2) library_run.
Proof. repeat constructor. Qed.

Lemma ratings_invariant_witness :
  let rated := serve "admin" "library123" library_run library_world in
  let book := collection rated BOOKS !! auto_id (sample_env 2) in
  book ≫= (.!! "rating_sum") = Some (VInt 12) ∧
  book ≫= (.!! "rating_count") = Some (VInt 3) ∧
  book ≫= (.!! "rating_avg") = Some (VFloat (Ffin (Qmake 4 1))) ∧
  rating_consistent (default ∅ book).
Proof.
  cbn zeta. split_and!; [vm_refl | vm_refl | vm_refl |].
  apply (ratings_invariant "admin" "library123" library_run library_world
           library_world_consistent library_run_respects (auto_id (sample_env 2))).
  vm_refl.
Defined.

(** C3 as stated fails: an update may name an aggregate field, and the
    stored average then no longer is the quotient of sum and count. *)
Lemma update_overwrites_rating_avg :
  let rated :=
    serve "admin" "library123"
      [ (sample_env 1, Login admin_credentials);
        (sample_env 2, BooksCreate (bearer operator_token) (Some dune));
        (sample_env 3, BooksRate (auto_id (sample_env 2)) (rate_body 5)) ]
      library_world in
  let update :=
    BooksUpdate (bearer operator_token) (auto_id (sample_env 2))
      (Some {[ "rating_avg" := VInt 99 ]}) in
  let book :=
    collection (handle "admin" "library123" (sample_env 4) update rated).2 BOOKS
      !! auto_id (sample_env 2) in
  (handle "admin" "library123" (sample_env 4) update rated).1.2 = 200 ∧
  book ≫= (.!! "rating_sum") = Some (VInt 5) ∧
  book ≫= (.!! "rating_count") = Some (VInt 1) ∧
  book ≫= (.!! "rating_avg") = Some (VInt 99) ∧
  average 5 1 = Ret (VFloat (Ffin (Qmake 5 1))) ∧
  book ≫= (.!! "rating_avg") ≠ Some (VFloat (Ffin (Qmake 5 1))).
Proof.
  cbn zeta. split_and!; [vm_refl | vm_refl | vm_refl | vm_refl | vm_refl |].
  vm_compute. discriminate.
Qed.

(** * Further properties of the code *)

(** ** Deletion *)

Lemma delete_one_run (col id : string) (w : world) :
  delete_one col id w
  = match collection w col !! id with
    | Some _ => (Ret true, put_collection col (delete id (collection w col)) w)
    | None => (Ret false, w)
    end.
Proof. unfold delete_one. io_unfold. by destruct (collection w col !! id). Qed.

Lemma delete_endpoint_run (col id : string) (w : world) :
  (delete_one col id ≫= λ ok : bool, mret (if ok then (NoContent, 204) else not_found)) w
  = (Ret (if bool_decide (is_Some (collection w col !! id))
          then (NoContent, 204) else not_found),
     (delete_one col id w).2).
Proof.
  unfold mbind, io_bind. rewrite delete_one_run.
  destruct (collection w col !! id) as [d|]; cbn [snd mret io_ret].
  - by rewrite bool_decide_eq_true_2 by eauto.
  - rewrite bool_decide_eq_false_2; [done|]. by intros [? ?].
Qed.

Lemma get_endpoint_missing (col id : string) (w : world) :
  collection w col !! id = None →
  (get_one col id ≫= λ x, mret (match x with Some x => (JDoc x, 200) | None => not_found end)) w
  = (Ret not_found, w).
Proof. intros H. erewrite io_bind_run by apply get_one_run. by rewrite H. Qed.

(** X1. [delete_one] reports whether the document existed.  A missing id
    leaves the world as it was; an existing document is removed, after which
    reading it gives nothing and deleting it again reports false.  No other
    document, collection or session changes, so a deleted author stays named
    by the books that refer to it.  The three delete endpoints answer 204 for
    an existing id and 404 otherwise, and afterwards the read and the delete
    endpoint answer 404 for that id. *)
Theorem delete_one_removes (col id : string) (w : world) :
  let w' := (delete_one col id w).2 in
  (delete_one col id w).1 = Ret (bool_decide (is_Some (collection w col !! id))) ∧
  (collection w col !! id = None → w' = w) ∧
  get_one col id w' = (Ret None, w') ∧
  delete_one col id w' = (Ret false, w') ∧
  (∀ col' id', ¬ (col' = col ∧ id' = id) →
     collection w' col' !! id' = collection w col' !! id') ∧
  _admin_tokens w' = _admin_tokens w ∧
  (∀ delete get,
     (col, delete, get) ∈ [ (AUTHORS, authors_delete, authors_get);
                            (PUBLISHERS, pubs_delete, pubs_get);
                            (BOOKS, books_delete, books_get) ] →
     delete id w
     = (Ret (if bool_decide (is_Some (collection w col !! id))
             then (NoContent, 204) else not_found), w') ∧
     get id w' = (Ret not_found, w') ∧
     delete id w' = (Ret not_found, w')).
Proof.
  cbn zeta.
  assert (collection (delete_one col id w).2 col !! id = None) as Hgone.
  { rewrite delete_one_run. destruct (collection w col !! id) eqn:Hd; cbn [snd]; [|done].
    by rewrite collection_put_eq, lookup_delete_eq. }
  split_and!.
  - rewrite delete_one_run. destruct (collection w col !! id) as [d|]; cbn [fst].
    + by rewrite bool_decide_eq_true_2 by eauto.
    + rewrite bool_decide_eq_false_2; [done|]. by intros [? ?].
  - intros H. by rewrite delete_one_run, H.
  - by rewrite get_one_run, Hgone.
  - by rewrite delete_one_run, Hgone.
  - intros col' id' Hne. rewrite delete_one_run.
    destruct (collection w col !! id) as [d|]; cbn [snd]; [|done].
    rewrite collection_put. destruct (decide (col = col')) as [<-|]; [|done].
    rewrite lookup_delete_ne; [done|]. intros <-. by apply Hne.
  - rewrite delete_one_run. by destruct (collection w col !! id).
  - intros del get. rewrite !elem_of_cons, elem_of_nil.
    intros [[= -> -> ->] | [[= -> -> ->] | [[= -> -> ->] | []]]].
    all: split_and!;
      [ apply delete_endpoint_run
      | by apply get_endpoint_missing
      | etransitivity; [apply delete_endpoint_run|];
        rewrite bool_decide_eq_false_2 by (rewrite Hgone; by intros [? ?]);
        f_equal; by rewrite delete_one_run, Hgone ].
Qed.

(** ** Required fields *)

Lemma missing_fields_nil (data : dict) (required : list string) :
  missing_fields data required = [] ↔
  Forall (λ f, truthy (dict_get data f) = true) required.
Proof.
  unfold missing_fields. induction required as [|f r IH]; [done|].
  rewrite filter_cons, Forall_cons. case_decide as Hf.
  - split; [done|]. intros [Ht _]. congruence.
  - rewrite IH. split; [|tauto]. intros Hr. split; [|done].
    by destruct (truthy (dict_get data f)).
Qed.

Lemma require_fields_missing (data : dict) (required : list string) :
  missing_fields data required ≠ [] →
  require_fields data required
  = (false, Some ("Missing required field(s): "
                  +:+ String.concat ", " (missing_fields data required))).
Proof.
  unfold require_fields, missing_fields.
  by destruct (filter _ required).
Qed.

(** X2. [require_fields] accepts exactly when every required field is
    present with a truthy value: an absent field, null, false, 0 and an empty
    string, list or object all count as missing.  When it rejects, its
    message lists the missing fields in the order of the requirement, and the
    endpoints that call it (the creation of authors, publishers and books,
    and the borrowing of an existing book) answer 400 with that message and
    change nothing. *)
Theorem require_fields_rejects (e : env) (id : string) (body : option dict)
    (required : list string) (w : world) :
  let data := default ∅ body in
  let accepted := Forall (λ f, truthy (dict_get data f) = true) required in
  let message :=
    "Missing required field(s): " +:+ String.concat ", " (missing_fields data required) in
  (accepted → require_fields data required = (true, None)) ∧
  (¬ accepted →
   require_fields data required = (false, Some message) ∧
   (required = ["name"] →
    authors_create e body w = (Ret (json_error message 400), w) ∧
    pubs_create e body w = (Ret (json_error message 400), w)) ∧
   (required = ["title"; "author_id"; "publisher_id"] →
    books_create e body w = (Ret (json_error message 400), w)) ∧
   (required = ["name"; "email"] → is_Some (collection w BOOKS !! id) →
    books_borrow e id body w = (Ret (json_error message 400), w))) ∧
  (∀ f, f ∈ missing_fields data required ↔
        f ∈ required ∧ truthy (dict_get data f) = false) ∧
  (∀ f v, f ∈ required →
     data !! f = None ∨
     data !! f = Some v ∧
     v ∈ [VNone; VBool false; VInt 0; VStr ""; VList []; VDict []] →
     ¬ accepted).
Proof.
  cbn zeta. split_and!.
  - intros H. unfold require_fields.
    apply missing_fields_nil in H. unfold missing_fields in H. by rewrite H.
  - intros H. rewrite <- missing_fields_nil in H.
    pose proof (require_fields_missing _ _ H) as Hr.
    split_and!; [done | | |].
    + intros ->. unfold authors_create, pubs_create. by rewrite Hr.
    + intros ->. unfold books_create. by rewrite Hr.
    + intros -> [d Hd]. unfold books_borrow.
      erewrite io_bind_run by apply get_one_run. rewrite Hd. by rewrite Hr.
  - intros f. unfold missing_fields. by rewrite list_elem_of_filter, (comm and).
  - intros f v Hf Hv Hall. rewrite Forall_forall in Hall. specialize (Hall f Hf).
    unfold dict_get in Hall. cbn beta in Hall.
    destruct Hv as [Hv | [Hv Hfalsy]]; rewrite Hv in Hall; [done|].
    cbn [default] in Hall. rewrite !elem_of_cons, elem_of_nil in Hfalsy.
    destruct Hfalsy as [-> | [-> | [-> | [-> | [-> | [-> | []]]]]]]; done.
Qed.

Example require_fields_samples :
  require_fields {[ "title" := VStr "Dune"; "author_id" := VStr "" ]}
    ["title"; "author_id"; "publisher_id"]
  = (false, Some "Missing required field(s): author_id, publisher_id") ∧
  require_fields {[ "name" := VStr " " ]} ["name"] = (true, None) ∧
  require_fields {[ "name" := VInt 0 ]} ["name"]
  = (false, Some "Missing required field(s): name").
Proof. split_and!; vm_refl. Qed.

(** ** Borrow requests *)

Lemma create_borrow_record_run (e : env) (book data : dict) (name email notes : string)
    (w : world) :
  data !! "name" = Some (VStr name) →
  data !! "email" = Some (VStr email) →
  str_strip (py_or (dict_get data "notes") (VStr "")) = Ret notes →
  let record : dict :=
    <["book_id" := dict_get book "id"]>
    (<["book_title" := dict_get book "title"]>
    (<["name" := VStr (strip name)]>
    (<["email" := VStr (strip email)]>
    (<["notes" := VStr notes]>
    (<["status" := VStr "pending"]>
    (<["createdAt" := VStr (now_iso e)]> ∅)))))) in
  create_borrow_record e book data w
  = (Ret (<["id" := VStr (auto_id e)]> record),
     put_collection BORROW_REQUESTS
       (<[auto_id e := record]> (collection w BORROW_REQUESTS)) w).
Proof.
  intros Hname Hemail Hnotes. cbn zeta. unfold create_borrow_record.
  rewrite Hname, Hemail. change (default (VStr "") (Some ?v)) with v.
  rewrite io_bind_lift. cbn [str_strip].
  rewrite io_bind_lift. cbn [str_strip]. by rewrite io_bind_lift, Hnotes.
Qed.

Lemma borrows_list_shows (w : world) (id : string) (d : dict) (s : string) :
  collection w BORROW_REQUESTS !! id = Some d → d !! "createdAt" = Some (VStr s) →
  ∃ l, borrows_list w = (Ret (JDocs l, 200), w) ∧ doc_to_dict id (Some d) ∈ l.
Proof.
  intros Hd Hs. eexists. split; [reflexivity|].
  apply (list_elem_of_fmap_2 (λ d : string * dict, doc_to_dict d.1 (Some d.2)) _ (id, d)).
  rewrite merge_sort_Permutation. apply list_elem_of_filter. split.
  - unfold created_at. cbn [snd]. rewrite Hs. by eexists.
  - by apply elem_of_map_to_list.
Qed.

(** X3. Borrowing an existing book under a name and an e-mail address that
    are non-empty strings stores one record under an automatic id: the id of
    the book and a copy of its title as it is now, the name, the address and
    the notes without surrounding whitespace, the status pending and the time
    of the request.  The answer is 201 with the record and its id.  The book
    and every other collection stay as they were (no availability is
    tracked), the other borrow records and the sessions too, and the
    operator's list of borrow requests shows the new record.  For an id that
    names no book the answer is 404 and nothing changes. *)
Theorem books_borrow_records (e : env) (id : string) (data book : dict)
    (name email notes : string) (w : world)
    (Hbook : collection w BOOKS !! id = Some book)
    (Hname : data !! "name" = Some (VStr name)) (Hn : name ≠ "")
    (Hemail : data !! "email" = Some (VStr email)) (He : email ≠ "")
    (Hnotes : str_strip (py_or (dict_get data "notes") (VStr "")) = Ret notes) :
  let record : dict :=
    <["book_id" := VStr id]>
    (<["book_title" := dict_get book "title"]>
    (<["name" := VStr (strip name)]>
    (<["email" := VStr (strip email)]>
    (<["notes" := VStr notes]>
    (<["status" := VStr "pending"]>
    (<["createdAt" := VStr (now_iso e)]> ∅)))))) in
  let w' :=
    put_collection BORROW_REQUESTS
      (<[auto_id e := record]> (collection w BORROW_REQUESTS)) w in
  books_borrow e id (Some data) w
  = (Ret (JBorrowed (<["id" := VStr (auto_id e)]> record), 201), w') ∧
  collection w' BORROW_REQUESTS !! auto_id e = Some record ∧
  (∀ k, k ≠ auto_id e →
     collection w' BORROW_REQUESTS !! k = collection w BORROW_REQUESTS !! k) ∧
  (∀ col, col ≠ BORROW_REQUESTS → collection w' col = collection w col) ∧
  _admin_tokens w' = _admin_tokens w ∧
  (∃ l, borrows_list w' = (Ret (JDocs l, 200), w') ∧
        <["id" := VStr (auto_id e)]> record ∈ l) ∧
  (∀ body w0, collection w0 BOOKS !! id = None →
     books_borrow e id body w0 = (Ret (json_error "Book not found" 404), w0)).
Proof.
  intros record w'. split_and!.
  - subst record w'. unfold books_borrow.
    erewrite io_bind_run by apply get_one_run. rewrite Hbook.
    change (default ∅ (Some data)) with data.
    rewrite require_fields_ok.
    2:{ repeat constructor; unfold dict_get.
        - rewrite Hname. by apply truthy_nonempty.
        - rewrite Hemail. by apply truthy_nonempty. }
    erewrite io_bind_run by (by apply create_borrow_record_run).
    unfold doc_to_dict, dict_get. rewrite lookup_insert_eq.
    rewrite lookup_insert_ne by done. done.
  - unfold w'. by rewrite collection_put_eq, lookup_insert_eq.
  - intros k Hk. unfold w'. by rewrite collection_put_eq, lookup_insert_ne.
  - intros col Hcol. unfold w'. by rewrite collection_put_ne.
  - done.
  - apply (borrows_list_shows w' (auto_id e) record (now_iso e)).
    + unfold w'. by rewrite collection_put_eq, lookup_insert_eq.
    + unfold record. by rewrite !lookup_insert_ne, lookup_insert_eq by done.
  - intros body w0 Hnone. unfold books_borrow.
    erewrite io_bind_run by apply get_one_run. by rewrite Hnone.
Qed.

Lemma books_borrow_records_witness :
  let run := books_borrow (sample_env 3) (auto_id (sample_env 2)) (Some borrow_body)
               new_book_world in
  let stored := collection run.2 BORROW_REQUESTS !! auto_id (sample_env 3) in
  status_of run.1 = 201 ∧
  stored ≫= (.!! "name") = Some (VStr "Bob") ∧
  stored ≫= (.!! "book_title") = Some (VStr "Dune") ∧
  stored ≫= (.!! "status") = Some (VStr "pending") ∧
  collection run.2 BOOKS = collection new_book_world BOOKS.
Proof.
  cbn zeta.
  assert (collection new_book_world BOOKS !! auto_id (sample_env 2) = Some new_book)
    as Hbook by vm_refl.
  destruct (books_borrow_records (sample_env 3) (auto_id (sample_env 2)) borrow_body
              new_book " Bob " "bob@example.org" "" new_book_world
              Hbook eq_refl ltac:(discriminate) eq_refl ltac:(discriminate) eq_refl)
    as (-> & Hstored & _ & Hcols & _ & _ & _).
  cbn [fst snd status_of]. rewrite Hstored. cbn [mbind option_bind].
  split_and!; [reflexivity | by rewrite lookup_insert_ne, lookup_insert_ne, lookup_insert_eq
              | | | by apply Hcols].
  - rewrite lookup_insert_ne, lookup_insert_eq by done. vm_refl.
  - by rewrite !lookup_insert_ne, lookup_insert_eq by done.
Defined.

(** ** Logging in *)

Lemma py_or_str (s : string) : py_or (VStr s) (VStr "") = VStr s.
Proof. by destruct s. Qed.

Lemma token_urlsafe_length (e : env) : String.length (token_urlsafe e 32) = 43%nat.
Proof. reflexivity. Qed.

(** X4. A login whose user name and password are strings succeeds exactly
    when the user name, with surrounding whitespace removed, is the
    operator's and the password is the operator's character for character.
    A successful login answers a token of 43 characters, caches it and stores
    its session with the time of the login; tokens cached before stay cached,
    other sessions and collections stay as they were.  A failed login answers
    401 and changes nothing. *)
Theorem login_checks (user pass : string) (e : env) (data : dict) (u p : string)
    (w : world)
    (Hu : data !! "username" = Some (VStr u))
    (Hp : data !! "password" = Some (VStr p)) :
  let token := token_urlsafe e 32 in
  let w' := (login user pass e (Some data) w).2 in
  (strip u = user → p = pass →
   login user pass e (Some data) w = (Ret (JToken token, 200), w') ∧
   String.length token = 43%nat ∧
   token ∈ _admin_tokens w' ∧
   collection w' ADMIN_SESSIONS !! token = Some {[ "createdAt" := VStr (now_iso e) ]} ∧
   (∀ t, t ∈ _admin_tokens w → t ∈ _admin_tokens w') ∧
   (∀ t, t ≠ token →
      collection w' ADMIN_SESSIONS !! t = collection w ADMIN_SESSIONS !! t) ∧
   (∀ col, col ≠ ADMIN_SESSIONS → collection w' col = collection w col)) ∧
  (strip u ≠ user ∨ p ≠ pass →
   login user pass e (Some data) w = (Ret (json_error "Invalid credentials" 401), w)).
Proof.
  cbn zeta.
  assert (∀ k : string → io response,
    (lift (str_strip (py_or (dict_get (default ∅ (Some data)) "username") (VStr ""))) ≫= k) w
    = k (strip u) w) as Hname.
  { intros k. rewrite io_bind_lift. unfold dict_get.
    change (default ∅ (Some data)) with data. rewrite Hu.
    change (default VNone (Some ?v)) with v. by rewrite py_or_str. }
  assert (eq_str (py_or (dict_get (default ∅ (Some data)) "password") (VStr "")) pass
          = String.eqb p pass) as Hpass.
  { unfold dict_get. change (default ∅ (Some data)) with data. rewrite Hp.
    change (default VNone (Some ?v)) with v. by rewrite py_or_str. }
  unfold login. rewrite Hname, Hpass. split.
  - intros -> ->. rewrite !String.eqb_refl. cbn [andb]. io_unfold. cbn [fst snd].
    split_and!; [done | apply token_urlsafe_length | | | | |].
    + cbn [_admin_tokens put_collection]. by apply elem_of_union_l, elem_of_singleton.
    + by rewrite collection_put_eq, lookup_insert_eq.
    + intros t Ht. cbn [_admin_tokens put_collection]. by apply elem_of_union_r.
    + intros t Ht. by rewrite collection_put_eq, lookup_insert_ne.
    + intros col Hcol. by rewrite collection_put_ne.
  - intros Hne.
    assert (String.eqb (strip u) user && String.eqb p pass = false) as ->; [|done].
    apply andb_false_iff.
    destruct Hne as [Hne | Hne]; [left | right]; by apply String.eqb_neq.
Qed.

Lemma login_checks_witness :
  (login "admin" "library123" (sample_env 1) (Some padded_login) empty_world).1
  = Ret (JToken (token_urlsafe (sample_env 1) 32), 200) ∧
  login "admin" "library123" (sample_env 1) (Some wrong_login) empty_world
  = (Ret (json_error "Invalid credentials" 401), empty_world).
Proof.
  split.
  - destruct (login_checks "admin" "library123" (sample_env 1) padded_login
                " admin " "library123" empty_world eq_refl eq_refl) as [Hok _].
    destruct (Hok eq_refl eq_refl) as [-> _]. reflexivity.
  - apply (login_checks "admin" "library123" (sample_env 1) wrong_login
             "admin" "library123 " empty_world eq_refl eq_refl).
    right. discriminate.
Defined.

(** ** The guard on a cache miss *)

(** X5. A guarded request whose token is not cached but has a stored
    session, as after a restart of the server: the guard caches the token and
    runs the handler.  If the handler returns, its response is sent, as it is
    when the token is cached already.  If the handler raises, the guard
    swallows the exception and answers 401, whereas the same request with the
    token cached is answered 500. *)
Theorem guard_cache_miss (user pass : string) (e : env) (r : request)
    (auth : option string) (token : string) (w : world)
    (Hg : guard r = Some auth)
    (Ht : _extract_token auth = Some token) (Hne : token ≠ "")
    (Hmiss : token ∉ _admin_tokens w)
    (Hs : is_Some (collection w ADMIN_SESSIONS !! token)) :
  let w1 := (add_token token w).2 in
  token ∈ _admin_tokens w1 ∧ db w1 = db w ∧
  match undecorated user pass e r w1 with
  | (Ret resp, w') =>
      handle user pass e r w = (resp, w') ∧
      handle user pass e r w1 = (resp, w')
  | (Raise ex, w') =>
      handle user pass e r w = (unauthorized, w') ∧
      handle user pass e r w1 = ((Uncaught ex, 500), w')
  end.
Proof.
  cbn zeta. cbn [add_token snd].
  assert (token ∈ ({[token]} ∪ _admin_tokens w : gset string)) as Hin
    by (by apply elem_of_union_l, elem_of_singleton).
  split_and!; [done | done |].
  assert (route user pass e r w
          = match undecorated user pass e r
                    {| db := db w; _admin_tokens := {[token]} ∪ _admin_tokens w |} with
            | (Ret resp, w') => (Ret resp, w')
            | (Raise _, w') => (Ret unauthorized, w')
            end) as Hmiss'.
  { rewrite route_guard, Hg. unfold require_admin.
    rewrite Ht, truthy_nonempty by done.
    rewrite bool_decide_eq_false_2 by done.
    destruct Hs as [d ->]. unfold mbind, io_bind. by cbn [add_token]. }
  assert (route user pass e r {| db := db w; _admin_tokens := {[token]} ∪ _admin_tokens w |}
          = undecorated user pass e r
              {| db := db w; _admin_tokens := {[token]} ∪ _admin_tokens w |}) as Hhit.
  { rewrite route_guard, Hg. by apply (require_admin_cached auth token). }
  unfold handle. rewrite Hmiss', Hhit.
  by destruct (undecorated _ _ _ _ _) as [[resp|ex] w'].
Qed.

Lemma guard_cache_miss_witness :
  (handle "admin" "library123" (sample_env 2) (SessionInfo (bearer operator_token))
     restarted_world).1 = (JOk, 200) ∧
  (handle "admin" "library123" (sample_env 2) ill_tagged restarted_world).1 = unauthorized ∧
  (handle "admin" "library123" (sample_env 2) ill_tagged
     (handle "admin" "library123" (sample_env 2) ill_tagged restarted_world).2).1
  = (Uncaught TypeError, 500).
Proof.
  assert (_extract_token (bearer operator_token) = Some operator_token) as Ht by vm_refl.
  assert (operator_token ≠ "") as Hne by (vm_compute; discriminate).
  assert (operator_token ∉ _admin_tokens restarted_world) as Hmiss
    by apply not_elem_of_empty.
  assert (is_Some (collection restarted_world ADMIN_SESSIONS !! operator_token)) as Hs.
  { exists {[ "createdAt" := VStr "2024-05-01T10:00:00+00:00" ]}. vm_refl. }
  split_and!.
  - destruct (guard_cache_miss "admin" "library123" (sample_env 2)
                (SessionInfo (bearer operator_token)) _ _ restarted_world
                eq_refl Ht Hne Hmiss Hs) as (_ & _ & H).
    cbn [undecorated session_info mret io_ret] in H. destruct H as [-> _]. reflexivity.
  - destruct (guard_cache_miss "admin" "library123" (sample_env 2)
                ill_tagged _ _ restarted_world eq_refl Ht Hne Hmiss Hs) as (_ & _ & H).
    assert (undecorated "admin" "library123" (sample_env 2) ill_tagged
              (add_token operator_token restarted_world).2
            = (Raise TypeError, (add_token operator_token restarted_world).2)) as Hrun
      by vm_refl.
    rewrite Hrun in H. destruct H as [-> _]. reflexivity.
  - vm_refl.
Defined.

(** ** The bearer token *)

Lemma prefix_append (p s : string) :
  String.prefix p s = true ↔ ∃ r, s = p +:+ r.
Proof.
  revert s. induction p as [|a p IH]; intros s.
  - split; [eauto | by destruct s].
  - destruct s as [|b s]; cbn [String.prefix].
    + split; [done | by intros [r Hr]].
    + destruct (ascii_dec a b) as [<-|Hab].
      * rewrite IH. split; intros [r Hr]; exists r.
        -- cbn. by rewrite Hr.
        -- cbn in Hr. by injection Hr.
      * split; [done|]. intros [r Hr]. cbn in Hr. by injection Hr.
Qed.

(** X6. [_extract_token] gives a token exactly for a header that starts
    with [Bearer] and one blank, in this spelling: the rest of the header
    with surrounding whitespace removed, which may be empty.  A token it
    gives has no surrounding whitespace. *)
Theorem extract_token_bearer (authorization : option string) (token : string) :
  (_extract_token authorization = Some token ↔
   ∃ rest, authorization = Some ("Bearer " +:+ rest) ∧ token = strip rest) ∧
  (_extract_token authorization = Some token → strip token = token) ∧
  _extract_token (Some "Bearer") = None ∧
  _extract_token (Some "bearer abc") = None ∧
  _extract_token (Some "Bearer ") = Some "" ∧
  _extract_token (Some "Bearer  abc def ") = Some "abc def".
Proof.
  assert (_extract_token authorization = Some token ↔
          ∃ rest, authorization = Some ("Bearer " +:+ rest) ∧ token = strip rest) as Hiff.
  { split.
    - unfold _extract_token. destruct authorization as [h|]; [|done].
      change (default "" (Some h)) with h.
      destruct (String.prefix _ _) eqn:Hp; [|done].
      apply prefix_append in Hp as [rest ->].
      cbn. intros [= <-]. eauto.
    - intros (rest & -> & ->). by destruct rest. }
  split_and!; try done.
  intros (rest & _ & ->)%Hiff. apply strip_idempotent.
Qed.

(** ** Integers read from requests *)

(** X7. [to_int] returns what [int()] returns, and the default when
    [int()] raises TypeError or ValueError; the one exception it lets through
    is the OverflowError of an infinite float.  For every other value, and
    whatever the default, [parse_limit] returns an integer between 1 and the
    maximum (a default out of range is clamped too), at least 1 when there is
    no maximum, and [parse_offset] an integer that is not negative. *)
Theorem to_int_catches (v : value) (default : option Z) :
  match py_int v with
  | Ret n => to_int v default = Ret (Some n)
  | Raise OverflowError => to_int v default = Raise OverflowError
  | Raise _ => to_int v default = Ret default
  end ∧
  ((∃ b, v = VFloat (Finf b)) ↔ py_int v = Raise OverflowError) ∧
  ((∀ b, v ≠ VFloat (Finf b)) →
   (∀ d m, 1 ≤ m → ∃ n, parse_limit v d (Some m) = Ret n ∧ 1 ≤ n ≤ m) ∧
   (∀ d, ∃ n, parse_limit v d None = Ret n ∧ 1 ≤ n) ∧
   (∀ d, ∃ n, parse_offset v d = Ret n ∧ 0 ≤ n)).
Proof.
  assert (match py_int v with
          | Ret n => to_int v default = Ret (Some n)
          | Raise OverflowError => to_int v default = Raise OverflowError
          | Raise _ => to_int v default = Ret default
          end) as Hcatch.
  { unfold to_int. destruct v as [| | |[| |]| | |]; cbn [py_int]; try done.
    by destruct (int_of_str s). }
  assert ((∃ b, v = VFloat (Finf b)) ↔ py_int v = Raise OverflowError) as Hinf.
  { split; [by intros [b ->]|].
    destruct v as [| | |[| |]| | |]; cbn [py_int]; try done; [eauto|].
    by destruct (int_of_str s). }
  split_and!; [done | done |].
  intros Hfinite.
  assert (∀ d, ∃ n, to_int v (Some d) = Ret (Some n)) as Hint.
  { intros d. unfold to_int. clear Hcatch Hinf.
    destruct v as [| | |[|b|]| | |]; cbn [py_int]; eauto.
    - by destruct (Hfinite b).
    - destruct (int_of_str s); eauto. }
  split_and!.
  - intros d m Hm. destruct (Hint d) as [n Hn]. unfold parse_limit. rewrite Hn.
    cbn [mbind py_bind].
    destruct (Z.ltb_spec n 1); [exists 1; split; [done|lia]|].
    destruct (Z.ltb_spec m n); [exists m | exists n]; split; (done || lia).
  - intros d. destruct (Hint d) as [n Hn]. unfold parse_limit. rewrite Hn.
    cbn [mbind py_bind].
    destruct (Z.ltb_spec n 1); [exists 1 | exists n]; split; (done || lia).
  - intros d. destruct (Hint d) as [n Hn]. unfold parse_offset. rewrite Hn.
    cbn [mbind py_bind]. exists (Z.max 0 n). split; [done | lia].
Qed.

(** ** Pages *)

Lemma paginate_items {A} (items : list A) (limit offset : Z) :
  p_items (paginate items limit offset)
  = take (Z.to_nat (Z.max 1 limit)) (drop (Z.to_nat (Z.max 0 offset)) items).
Proof.
  unfold paginate. cbn [p_items].
  assert (Z.max 1 (if limit =? 0 then 1 else limit) = Z.max 1 limit) as ->
    by (destruct (Z.eqb_spec limit 0); lia).
  apply slice_take_drop; lia.
Qed.

Lemma paginate_has_more {A} (items : list A) (limit offset : Z) :
  p_has_more (paginate items limit offset) = true ↔
  Z.max 0 offset + Z.max 1 limit < Z.of_nat (length items).
Proof.
  unfold paginate. cbn [p_has_more].
  assert (Z.max 1 (if limit =? 0 then 1 else limit) = Z.max 1 limit) as ->
    by (destruct (Z.eqb_spec limit 0); lia).
  rewrite Z.ltb_lt. lia.
Qed.

(** X8. [paginate] for any limit and any offset: a limit below 1 counts as
    1, and a negative offset as 0 for the slice, while the page echoes the
    offset as given.  The page holds the items from the start position on, at
    most the effective limit of them and in their order, and [has_more] tells
    exactly whether items remain after the page. *)
Theorem paginate_any {A} (items : list A) (limit offset : Z) :
  let p := paginate items limit offset in
  let size := Z.max 1 limit in
  let start := Z.max 0 offset in
  p_items p = take (Z.to_nat size) (drop (Z.to_nat start) items) ∧
  p_total p = Z.of_nat (length items) ∧
  p_limit p = size ∧
  p_offset p = offset ∧
  Z.of_nat (length (p_items p)) = Z.max 0 (Z.min size (p_total p - start)) ∧
  (p_has_more p = true ↔ start + size < p_total p) ∧
  p_items p `sublist_of` items.
Proof.
  cbn zeta. rewrite paginate_items. split_and!.
  - done.
  - done.
  - unfold paginate. cbn [p_limit]. destruct (Z.eqb_spec limit 0); lia.
  - done.
  - apply length_page; lia.
  - apply paginate_has_more.
  - etransitivity; [apply sublist_take | apply sublist_drop].
Qed.

Lemma concat_pages {A} (l : list A) (n m : nat) :
  concat ((λ i, take n (drop (i * n) l)) <$> seq 0 m) = take (m * n) l.
Proof.
  induction m as [|m IH]; [done|].
  rewrite seq_S, fmap_app, concat_app, IH. cbn [fmap list_fmap concat plus].
  rewrite app_nil_r, take_take_drop. f_equal. lia.
Qed.

(** X9. Pages fetched at the offsets 0, limit, 2 limit, ... fit together:
    the first k+1 pages concatenated are the first (k+1) limit items.  A page
    that reports [has_more] is full, and when page k reports no more, the
    pages up to it are the whole list. *)
Theorem pages_cover {A} (items : list A) (limit : Z) (k : nat) (Hlimit : 1 ≤ limit) :
  let page i := paginate items limit (Z.of_nat i * limit) in
  let pages := concat ((λ i, p_items (page i)) <$> seq 0 (S k)) in
  pages = take (S k * Z.to_nat limit) items ∧
  (p_has_more (page k) = false → pages = items) ∧
  (p_has_more (page k) = true → Z.of_nat (length (p_items (page k))) = limit).
Proof.
  cbn zeta.
  assert (∀ i, p_items (paginate items limit (Z.of_nat i * limit))
               = take (Z.to_nat limit) (drop (i * Z.to_nat limit) items)) as Hpage.
  { intros i. rewrite paginate_items. do 2 f_equal; lia. }
  assert (concat ((λ i, p_items (paginate items limit (Z.of_nat i * limit))) <$> seq 0 (S k))
          = take (S k * Z.to_nat limit) items) as Hall.
  { rewrite <- concat_pages. f_equal. apply list_fmap_ext. intros _ i _. apply Hpage. }
  pose proof (paginate_has_more items limit (Z.of_nat k * limit)) as Hmore.
  split_and!; [done | |].
  - intros Hlast. rewrite Hall. apply take_ge.
    destruct (p_has_more _); [done|].
    assert (¬ (Z.max 0 (Z.of_nat k * limit) + Z.max 1 limit < Z.of_nat (length items)))
      by (rewrite <- Hmore; done).
    nia.
  - intros Hfull. apply Hmore in Hfull. rewrite Hpage, length_take, length_drop. nia.
Qed.

Lemma pages_cover_witness :
  let page i := paginate [1; 2; 3; 4; 5] 2 (Z.of_nat i * 2) in
  p_items (page 0%nat) ++ p_items (page 1%nat) ++ p_items (page 2%nat) = [1; 2; 3; 4; 5] ∧
  p_has_more (page 1%nat) = true ∧
  p_has_more (page 2%nat) = false.
Proof.
  cbn zeta.
  destruct (pages_cover [1; 2; 3; 4; 5] 2 2 ltac:(lia)) as (_ & Hend & _).
  split_and!; [|reflexivity|reflexivity].
  rewrite <- Hend at 4 by reflexivity. cbn [seq fmap list_fmap concat]. by rewrite app_nil_r.
Defined.

(** ** Tags of any shape *)

Lemma sanitize_step_clean (cleaned cleaned' : list string) (tag : value) :
  sanitize_step (list_to_set TAG_OPTIONS) cleaned tag = Ret cleaned' →
  clean_tags cleaned → clean_tags cleaned'.
Proof.
  unfold sanitize_step. destruct (str_strip _) as [t|ex]; [|done].
  cbn [mbind py_bind].
  destruct (truthy (VStr t)); cbn [andb]; [|by intros [= <-]].
  case_bool_decide as Hin; cbn [andb]; [|by intros [= <-]].
  case_bool_decide as Hnew; cbn [negb]; intros [= <-]; [done|].
  intros [Hnd Hall]. split.
  - apply NoDup_app. split_and!; [done | | apply NoDup_singleton].
    intros x Hx ->%list_elem_of_singleton. done.
  - apply Forall_app. split; [done|]. constructor; [|done].
    by apply elem_of_list_to_set in Hin.
Qed.

Lemma for_each_clean (tags : list value) (cleaned cleaned' : list string) :
  for_each (sanitize_step (list_to_set TAG_OPTIONS)) cleaned tags = Ret cleaned' →
  clean_tags cleaned → clean_tags cleaned'.
Proof.
  revert cleaned. induction tags as [|tag tags IH]; intros cleaned; cbn [for_each].
  - by intros [= <-].
  - destruct (sanitize_step _ cleaned tag) as [c1|ex] eqn:Hstep; [|done].
    cbn [mbind py_bind]. intros Hrest Hc. eapply IH; [exact Hrest|].
    by eapply sanitize_step_clean.
Qed.

Lemma sanitize_tags_clean (v : value) (tags : list string) :
  sanitize_tags v = Ret tags → clean_tags tags.
Proof.
  assert (clean_tags []) as Hnil by (split; constructor).
  unfold sanitize_tags. destruct (negb (truthy v)); [by intros [= <-]|].
  destruct (match v with VStr _ => _ | _ => _ end) as [l|ex]; [|done].
  cbn [mbind py_bind]. intros H. by eapply for_each_clean.
Qed.

Lemma spec_sanitize_fixed (tags : list string) :
  clean_tags tags → spec_sanitize tags = tags.
Proof.
  intros [Hnd Hall]. unfold spec_sanitize.
  assert (filter (λ t, t ∈ TAG_OPTIONS) (filter (λ t, t ≠ "") (strip <$> tags)) = tags) as ->.
  { clear Hnd. induction Hall as [|t l Ht _ IH]; [done|].
    destruct (vocabulary_trimmed t Ht) as [Hs Hne].
    cbn [fmap list_fmap]. rewrite Hs.
    rewrite filter_cons, decide_True by done.
    rewrite filter_cons, decide_True by done.
    f_equal. apply IH. }
  by apply keep_first_id.
Qed.

(** X10. Whatever value [sanitize_tags] is given (a list with entries of
    any kind, a string, an object, whose keys it walks), if it returns, its
    result consists of distinct tags of the vocabulary, at most fifteen, none
    empty or with surrounding whitespace, and sanitizing the result again
    gives the result. *)
Theorem sanitize_tags_sound (v : value) (tags : list string)
    (Hv : sanitize_tags v = Ret tags) :
  NoDup tags ∧
  Forall (λ t, t ∈ TAG_OPTIONS) tags ∧
  (length tags ≤ 15)%nat ∧
  Forall (λ t, strip t = t ∧ t ≠ "") tags ∧
  sanitize_tags (VList (VStr <$> tags)) = Ret tags.
Proof.
  destruct (sanitize_tags_clean v tags Hv) as [Hnd Hall].
  split_and!; [done | done | | |].
  - change 15%nat with (length TAG_OPTIONS). apply submseteq_length.
    apply NoDup_submseteq; [done|]. by apply Forall_forall.
  - eapply Forall_impl; [exact Hall|]. intros t. apply vocabulary_trimmed.
  - rewrite sanitize_tags_list. f_equal. by apply spec_sanitize_fixed.
Qed.

Lemma sanitize_tags_sound_witness :
  sanitize_tags (VDict [(" Horror ", VInt 1); ("Nope", VNone); ("Classic", VNone)])
  = Ret ["Horror"; "Classic"] ∧
  sanitize_tags (VList [VStr "Horror"; VStr "Classic"]) = Ret ["Horror"; "Classic"].
Proof.
  assert (sanitize_tags (VDict [(" Horror ", VInt 1); ("Nope", VNone); ("Classic", VNone)])
          = Ret ["Horror"; "Classic"]) as Hv by (by vm_compute).
  split; [exact Hv|].
  apply (sanitize_tags_sound _ _ Hv).
Defined.

(** ** What a rating changes *)

Lemma record_rating_world (e : env) (book_id : string) (rating : Z) (notes name : value)
    (w : world) :
  (record_rating e book_id rating notes name w).2 = w ∨
  collection w RATINGS !! auto_id e = None ∧
  ∃ entry,
    (record_rating e book_id rating notes name w).2
    = put_collection RATINGS (<[auto_id e := entry]> (collection w RATINGS)) w.
Proof.
  unfold record_rating.
  rewrite io_bind_lift. destruct (str_strip _) as [n|ex]; [|by left].
  rewrite io_bind_lift. destruct (str_strip _) as [m|ex]; [|by left].
  unfold doc_add. io_unfold.
  destruct (collection w RATINGS !! auto_id e) eqn:Hfresh; [by left|].
  right. split; [done|]. by eexists.
Qed.

Lemma rate_effect_refl (e : env) (id : string) (w : world) : rate_effect e id w w.
Proof. split_and!; [done | done | done | by left]. Qed.

Lemma books_rate_effect (e : env) (id : string) (body : option dict) (w : world) :
  rate_effect e id w (books_rate e id body w).2.
Proof.
  pose proof (rate_effect_refl e id w) as Hsame.
  unfold books_rate. erewrite io_bind_run by reflexivity. cbn beta.
  destruct (collection w BOOKS !! id) as [d|] eqn:Hd; [|done].
  rewrite io_bind_lift. destruct (to_int _ None) as [[r|]|ex]; [|done ..].
  destruct ((r <? 1) || (5 <? r)) eqn:Hr; [done|].
  rewrite io_bind_lift. destruct (str_strip _) as [notes|ex]; [|done].
  rewrite io_bind_lift. destruct (str_strip _) as [name|ex]; [|done].
  change (default ∅ (Some d)) with d.
  rewrite io_bind_lift.
  destruct (py_int (py_or (dict_get d "rating_sum") _)) as [s|ex] eqn:Hs; [|done].
  rewrite io_bind_lift.
  destruct (py_int (py_or (dict_get d "rating_count") _)) as [c|ex] eqn:Hc; [|done].
  rewrite io_bind_lift.
  destruct (if c + 1 =? 0 then _ else _) as [avg|ex] eqn:Hav; [|done].
  change (average (s + r) (c + 1) = Ret avg) in Hav.
  erewrite io_bind_run by (unfold doc_update; by rewrite Hd).
  fold (rating_patch e (s + r) (c + 1) avg).
  set (w1 := put_collection BOOKS
               (<[id := rating_patch e (s + r) (c + 1) avg ∪ d]> (collection w BOOKS)) w).
  assert (collection w1 RATINGS = collection w RATINGS) as Hr1
    by (unfold w1; by rewrite collection_put_ne).
  assert (collection w1 BOOKS
          = <[id := rating_patch e (s + r) (c + 1) avg ∪ d]> (collection w BOOKS))
    as Hb1 by (unfold w1; by rewrite collection_put_eq).
  assert (∀ w2, (w2 = w1 ∨ collection w1 RATINGS !! auto_id (tick e) = None ∧
                  ∃ entry, w2 = put_collection RATINGS
                                  (<[auto_id (tick e) := entry]> (collection w1 RATINGS)) w1) →
                rate_effect e id w w2) as Hdone.
  { intros w2 [-> | (Hfresh & entry & ->)].
    - split_and!.
      + intros k x. by rewrite Hr1.
      + done.
      + intros col Hb _. unfold w1. by rewrite collection_put_ne.
      + right. exists d, s, c, r, avg. split_and!; [done | done | done | lia | lia | done | done].
    - split_and!.
      + intros k x Hk. rewrite collection_put_eq, Hr1.
        rewrite lookup_insert_ne; [done|]. intros <-. rewrite Hr1 in Hfresh. congruence.
      + done.
      + intros col Hb Hr'. rewrite collection_put_ne by done.
        unfold w1. by rewrite collection_put_ne.
      + right. exists d, s, c, r, avg. rewrite collection_put_ne by done.
        split_and!; [done | done | done | lia | lia | done | done]. }
  unfold mbind, io_bind.
  pose proof (record_rating_world (tick e) id r (VStr notes) (VStr name) w1) as Hrec.
  destruct (record_rating (tick e) id r (VStr notes) (VStr name) w1) as [[x|ex] w2];
    cbn [snd mret io_ret] in *; by apply Hdone.
Qed.

(** ** What each request writes *)

Lemma login_collections (user pass : string) (e : env) (body : option dict) (w : world)
    (col : string) :
  col ≠ ADMIN_SESSIONS → collection (login user pass e body w).2 col = collection w col.
Proof.
  intros Hcol. unfold login. rewrite io_bind_lift.
  destruct (str_strip _) as [username|ex]; [|done].
  destruct (_ && _); [|done].
  io_unfold. cbn [snd]. by rewrite collection_put_ne.
Qed.

Lemma logout_collections (auth : option string) (w : world) (col : string) :
  col ≠ ADMIN_SESSIONS → collection (logout auth w).2 col = collection w col.
Proof.
  intros Hcol. unfold logout. destruct (_extract_token auth) as [t|]; [|done].
  destruct (truthy _); [|done].
  io_unfold. cbn [snd]. by rewrite collection_put_ne.
Qed.

Lemma undecorated_collection (user pass : string) (e : env) (r : request) (w : world)
    (col : string) :
  col ∉ footprint r → collection (undecorated user pass e r w).2 col = collection w col.
Proof.
  intros Hcol. destruct (is_session_request r) eqn:Hr.
  - destruct r; try done; cbn [undecorated footprint] in *.
    + apply login_collections. intros ->. apply Hcol. in_list.
    + apply logout_collections. intros ->. apply Hcol. in_list.
  - by apply (undecorated_writes user pass e r Hr w).
Qed.

Lemma route_state (P : world → Prop) (user pass : string) (e : env) (r : request)
    (w : world) :
  P w → preserves P (undecorated user pass e r) →
  (∀ t, P (add_token t w).2) →
  P (handle user pass e r w).2.
Proof.
  intros HP Hfn Hadd.
  assert (P (route user pass e r w).2) as H.
  { rewrite route_guard. destruct (guard r) as [auth|]; [|by apply Hfn].
    apply require_admin_state; [done | done | by intros t _]. }
  unfold handle. by destruct (route user pass e r w) as [[resp|ex] w'].
Qed.

Lemma handle_collection (user pass : string) (e : env) (r : request) (w : world)
    (col : string) :
  col ∉ footprint r → collection (handle user pass e r w).2 col = collection w col.
Proof.
  intros Hcol.
  apply (route_state (λ w', collection w' col = collection w col)); [done | | done].
  intros w0 H0. by rewrite undecorated_collection.
Qed.

Lemma handle_unguarded (user pass : string) (e : env) (r : request) (w : world) :
  guard r = None →
  (handle user pass e r w).2 = (undecorated user pass e r w).2.
Proof.
  intros Hg. unfold handle. rewrite route_guard, Hg.
  by destruct (undecorated user pass e r w) as [[resp|ex] w'].
Qed.

Lemma list_endpoint_world (args : query) (w : world) (h : query → io response) :
  h ∈ [authors_list; pubs_list; books_list] → (h args w).2 = w.
Proof.
  intros Hh.
  destruct (list_endpoints_paginate args w h Hh) as [[ex ->] | [items ->]]; [done|].
  unfold paginated. rewrite io_bind_lift. destruct (parse_limit _ _ _); [|done].
  rewrite io_bind_lift. by destruct (parse_offset _ _).
Qed.

(** X11. What a request can change.  The collections outside its footprint
    stay as they were: the footprint is the sessions for login and logout,
    the authors, the publishers or the books for their creation, update and
    deletion, the borrow requests for borrowing, the books and the ratings
    for rating, and nothing for every other request; so no deletion cascades.
    A cached token is dropped by a logout only, and a token enters the cache
    only by a login or because its session is stored.  A request with an
    empty footprint leaves the database as it was, and the cache too unless
    the request is guarded. *)
Theorem handle_footprint (user pass : string) (e : env) (r : request) (w : world) :
  let w' := (handle user pass e r w).2 in
  (∀ col, col ∉ footprint r → collection w' col = collection w col) ∧
  (∀ t, t ∈ _admin_tokens w → (∀ auth, r ≠ Logout auth) → t ∈ _admin_tokens w') ∧
  (∀ t, t ∈ _admin_tokens w' → (∀ body, r ≠ Login body) →
        t ∈ _admin_tokens w ∨ is_Some (collection w ADMIN_SESSIONS !! t)) ∧
  (footprint r = [] → db w' = db w ∧ (guard r = None → w' = w)).
Proof.
  cbn zeta. split_and!; cycle 3.
  { intros Hf.
    assert (∀ w0, (undecorated user pass e r w0).2 = w0) as Hund.
    { intros w0. destruct r; try discriminate Hf; cbn [undecorated]; try reflexivity.
      all: apply list_endpoint_world; in_list. }
    split.
    - apply (route_state (λ w', db w' = db w)); [done | | done].
      intros w0 H0. by rewrite Hund.
    - intros Hg. by rewrite handle_unguarded, Hund. }
  - intros col. apply handle_collection.
  - intros t Ht Hr.
    apply (route_state (λ w', t ∈ _admin_tokens w')); [done | |].
    + intros w0 H0. destruct (is_session_request r) eqn:Hs.
      * destruct r; try done; cbn [undecorated]; [|by destruct (Hr _ eq_refl)].
        unfold login. rewrite io_bind_lift.
        destruct (str_strip _) as [username|ex]; [|done].
        destruct (_ && _); [|done].
        io_unfold. cbn [snd _admin_tokens put_collection]. by apply elem_of_union_r.
      * destruct (undecorated_writes user pass e r Hs w0) as [-> _]. done.
    + intros t'. cbn [add_token snd _admin_tokens]. by apply elem_of_union_r.
  - intros t Ht Hr.
    assert (∀ w0, (∀ col, collection w0 col = collection w col) →
              t ∈ _admin_tokens (undecorated user pass e r w0).2 → t ∈ _admin_tokens w0)
      as Hund.
    { intros w0 _. destruct (is_session_request r) eqn:Hs.
      - destruct r; try done; cbn [undecorated]; [by destruct (Hr _ eq_refl)|].
        unfold logout. destruct (_extract_token _) as [t'|]; [|done].
        destruct (truthy _); [|done].
        io_unfold. cbn [snd _admin_tokens put_collection].
        by intros [? _]%elem_of_difference.
      - by destruct (undecorated_writes user pass e r Hs w0) as [-> _]. }
    revert Ht. unfold handle. rewrite route_guard.
    destruct (guard r) as [auth|]; cycle 1.
    { intros Ht. left. apply (Hund w); [done|].
      by destruct (undecorated user pass e r w) as [[resp|ex] w']. }
    unfold require_admin.
    destruct (_extract_token auth) as [token|]; [|by left].
    destruct (truthy _); [|by left].
    case_bool_decide as Hc.
    { intros Ht. left. apply (Hund w); [done|].
      by destruct (undecorated user pass e r w) as [[resp|ex] w']. }
    destruct (collection w ADMIN_SESSIONS !! token) as [d|] eqn:Hd; [|by left].
    unfold mbind, io_bind. cbn [add_token].
    intros Ht.
    assert (t ∈ _admin_tokens {| db := db w; _admin_tokens := {[token]} ∪ _admin_tokens w |})
      as Ht'.
    { apply Hund; [done|].
      by destruct (undecorated user pass e r _) as [[resp|ex] w']. }
    cbn [_admin_tokens] in Ht'.
    apply elem_of_union in Ht' as [->%elem_of_singleton | ?]; [right; eauto | by left].
Qed.

(** X12. The rating log is append-only: an entry of the log is found
    unchanged after any run of requests, also when its book has been
    deleted. *)
Theorem ratings_append_only (user pass : string) (rs : list (env * request)) (w : world)
    (k : string) (x : dict)
    (Hk : collection w RATINGS !! k = Some x) :
  collection (serve user pass rs w) RATINGS !! k = Some x.
Proof.
  revert w Hk. induction rs as [|[e r] rs IH]; intros w Hk; [done|].
  cbn [serve]. apply IH.
  destruct (decide (RATINGS ∈ footprint r)) as [Hin|Hout].
  - destruct r; cbn [footprint] in Hin;
      try (by apply elem_of_nil in Hin);
      try (apply elem_of_cons in Hin as [Hin|Hin]; [discriminate Hin|];
           try (by apply elem_of_nil in Hin)).
    rewrite handle_unguarded by done. cbn [undecorated].
    match goal with
    | |- context [books_rate ?e ?i ?b ?w] => by apply (books_rate_effect e i b w)
    end.
  - by rewrite handle_collection.
Qed.

Lemma ratings_append_only_witness :
  let w := serve "admin" "library123" library_run library_world in
  let w' := serve "admin" "library123" book_removal w in
  collection w BOOKS !! auto_id (sample_env 2) ≫= (.!! "rating_count") = Some (VInt 3) ∧
  collection w' BOOKS !! auto_id (sample_env 2) = None ∧
  collection w' RATINGS !! auto_id (sample_env 3) ≫= (.!! "rating") = Some (VInt 5).
Proof.
  cbn zeta. split_and!; [vm_refl | vm_refl |].
  assert (collection (serve "admin" "library123" library_run library_world) RATINGS
            !! auto_id (sample_env 3)
          = Some (default ∅ (collection (serve "admin" "library123" library_run library_world)
                               RATINGS !! auto_id (sample_env 3)))) as Hk by vm_refl.
  rewrite (ratings_append_only "admin" "library123" book_removal _ _ _ Hk). vm_refl.
Defined.

(** ** What the book handlers write to the books *)

Lemma books_create_effect (e : env) (body : option dict) (w : world) :
  collection (books_create e body w).2 BOOKS = collection w BOOKS ∨
  ∃ data tags,
    coerce_year (default ∅ body) = Ret (Some data) ∧
    sanitize_tags (dict_get data "tags") = Ret tags ∧
    collection (books_create e body w).2 BOOKS
    = <[auto_id e := book_payload e data tags]> (collection w BOOKS).
Proof.
  unfold books_create.
  destruct (require_fields _ _) as [[|] msg]; [|by left].
  rewrite io_bind_lift. destruct (coerce_year _) as [[data|]|ex] eqn:Hy; [|by left ..].
  rewrite io_bind_exists. destruct (exists_ _ _ _ _).1 as [[|]|ex]; [|by left ..].
  cbn [negb]. rewrite io_bind_exists.
  destruct (exists_ _ _ _ _).1 as [[|]|ex]; [|by left ..].
  cbn [negb]. rewrite io_bind_lift.
  destruct (sanitize_tags _) as [tags|ex] eqn:Ht; [|by left].
  erewrite io_bind_run by apply create_run. cbn [mret io_ret snd].
  right. exists data, tags. split_and!; [done | done |].
  by rewrite collection_put_eq.
Qed.

Lemma update_one_effect (e : env) (col id : string) (data : option dict) (w : world) :
  (update_one e col id data w).2 = w ∨
  ∃ d, collection w col !! id = Some d ∧
       (update_one e col id data w).2
       = put_collection col
           (<[id := <["updatedAt" := VStr (now_iso e)]> (default ∅ data) ∪ d]>
              (collection w col)) w.
Proof.
  destruct (collection w col !! id) as [d|] eqn:Hd.
  - right. exists d. split; [done|]. by rewrite (update_one_run e col id data d w Hd).
  - left. by rewrite update_one_missing.
Qed.

Lemma books_update_effect (e : env) (id : string) (body : option dict) (w : world) :
  collection (books_update e id body w).2 BOOKS = collection w BOOKS ∨
  ∃ d data patch,
    collection w BOOKS !! id = Some d ∧
    coerce_year (default ∅ body) = Ret (Some data) ∧
    book_patch data patch ∧
    collection (books_update e id body w).2 BOOKS
    = <[id := <["updatedAt" := VStr (now_iso e)]> patch ∪ d]> (collection w BOOKS).
Proof.
  unfold books_update.
  rewrite io_bind_lift. destruct (coerce_year _) as [[data|]|ex] eqn:Hy; [|by left ..].
  destruct (io_bind_check e AUTHORS (data !! "author_id") w) as [author ->].
  destruct author as [[|]|ex]; [|by left ..]. cbn [negb].
  destruct (io_bind_check e PUBLISHERS (data !! "publisher_id") w) as [publisher ->].
  destruct publisher as [[|]|ex]; [|by left ..]. cbn [negb].
  assert (∀ patch, book_patch data patch →
    collection ((update_one e BOOKS id (Some patch) ≫= λ x,
                   mret (match x with Some x => (JDoc x, 200) | None => not_found end)) w).2
      BOOKS = collection w BOOKS ∨
    ∃ d data0 patch0,
      collection w BOOKS !! id = Some d ∧ Ret (Some data) = Ret (Some data0) ∧
      book_patch data0 patch0 ∧
      collection ((update_one e BOOKS id (Some patch) ≫= λ x,
                     mret (match x with Some x => (JDoc x, 200) | None => not_found end)) w).2
        BOOKS = <[id := <["updatedAt" := VStr (now_iso e)]> patch0 ∪ d]> (collection w BOOKS))
    as Hupdate.
  { intros patch Hpatch. unfold mbind, io_bind.
    destruct (update_one_effect e BOOKS id (Some patch) w) as [Hw | (d & Hd & Hw)];
      destruct (update_one e BOOKS id (Some patch) w) as [[x|ex] w'];
      cbn [snd mret io_ret] in *; subst w'; try (by left).
    all: right; exists d, data, patch; by rewrite collection_put_eq. }
  unfold book_patch in Hupdate.
  destruct (data !! "tags") as [t|] eqn:Ht.
  - unfold mbind at 1, io_bind at 1. rewrite io_bind_lift.
    destruct (sanitize_tags t) as [tags|ex] eqn:Hs; [|by left]. cbn [mret io_ret].
    apply Hupdate. eauto.
  - unfold mbind at 1, io_bind at 1. cbn [mret io_ret]. by apply Hupdate.
Qed.

(** ** Invariants of the books *)

Lemma every_book_same (Q : dict → Prop) (w w' : world) :
  collection w' BOOKS = collection w BOOKS → every_book Q w → every_book Q w'.
Proof. intros Heq H id d. rewrite Heq. apply H. Qed.

Lemma every_book_insert (Q : dict → Prop) (id : string) (d : dict) (w w' : world) :
  collection w' BOOKS = <[id := d]> (collection w BOOKS) →
  Q d → every_book Q w → every_book Q w'.
Proof.
  intros Heq Hd Hw id' d'. rewrite Heq, lookup_insert.
  case_decide; [by intros [= <-] | apply Hw].
Qed.

Section every_book.
Context (Q : dict → Prop) (ok : request → Prop) (user pass : string).

Hypothesis Hcreate : ∀ e auth body data tags,
  ok (BooksCreate auth body) →
  coerce_year (default ∅ body) = Ret (Some data) →
  sanitize_tags (dict_get data "tags") = Ret tags →
  Q (book_payload e data tags).

Hypothesis Hupdate : ∀ e auth id body data patch d,
  ok (BooksUpdate auth id body) →
  coerce_year (default ∅ body) = Ret (Some data) →
  book_patch data patch →
  Q d → Q (<["updatedAt" := VStr (now_iso e)]> patch ∪ d).

Hypothesis Hrate : ∀ e d s c r avg,
  py_int (py_or (dict_get d "rating_sum") (VInt 0)) = Ret s →
  py_int (py_or (dict_get d "rating_count") (VInt 0)) = Ret c →
  1 ≤ r ≤ 5 →
  average (s + r) (c + 1) = Ret avg →
  Q d → Q (rating_patch e (s + r) (c + 1) avg ∪ d).

Lemma every_book_undecorated (e : env) (r : request) :
  ok r → preserves (every_book Q) (undecorated user pass e r).
Proof.
  intros Hr w Hw.
  destruct (decide (BOOKS ∈ footprint r)) as [Hin|Hout]; cycle 1.
  { eapply every_book_same; [|exact Hw]. by apply undecorated_collection. }
  destruct r; cbn [footprint] in Hin;
    try (by apply elem_of_nil in Hin);
    try (apply elem_of_cons in Hin as [Hin|Hin]; [discriminate Hin|];
         try (by apply elem_of_nil in Hin));
    cbn [undecorated].
  - match goal with
    | |- context [books_create ?e ?b ?w] =>
        destruct (books_create_effect e b w) as [Heq | (data & tags & Hy & Ht & Heq)]
    end.
    + by eapply every_book_same.
    + eapply every_book_insert; [exact Heq | by eapply Hcreate | done].
  - match goal with
    | |- context [books_update ?e ?i ?b ?w] =>
        destruct (books_update_effect e i b w)
          as [Heq | (d & data & patch & Hd & Hy & Hp & Heq)]
    end.
    + by eapply every_book_same.
    + eapply every_book_insert; [exact Heq | | done].
      eapply Hupdate; [exact Hr | exact Hy | exact Hp | by eapply Hw].
  - intros id' d'. unfold books_delete. rewrite delete_endpoint_run. cbn [snd].
    rewrite delete_one_run. destruct (collection w BOOKS !! _); cbn [snd]; [|apply Hw].
    rewrite collection_put_eq, lookup_delete. case_decide; [done | apply Hw].
  - match goal with
    | |- context [books_rate ?e ?i ?b ?w] =>
        destruct (books_rate_effect e i b w) as (_ & _ & _ & [Heq | Hrated])
    end.
    + by eapply every_book_same.
    + destruct Hrated as (d & s & c & r & avg & Hd & Hs & Hc & Hrange & Hav & Heq).
      eapply every_book_insert; [exact Heq | | done].
      eapply Hrate; [done | done | done | done | by eapply Hw].
Qed.

Lemma every_book_handle (e : env) (r : request) (w : world) :
  ok r → every_book Q w → every_book Q (handle user pass e r w).2.
Proof.
  intros Hr Hw. apply (route_state (every_book Q)); [done | | done].
  by apply every_book_undecorated.
Qed.

Lemma every_book_serve (rs : list (env * request)) (w : world) :
  Forall (λ er, ok er.2) rs → every_book Q w → every_book Q (serve user pass rs w).
Proof.
  intros Hrs. revert w. induction Hrs as [|[e r] rs Hr _ IH]; intros w Hw; [done|].
  cbn [serve]. apply IH. by apply every_book_handle.
Qed.

End every_book.

(** ** The shape of a stored book *)

Lemma coerce_year_integer (data data' : dict) :
  coerce_year data = Ret (Some data') →
  data' !! "year" = None ∨ ∃ n, data' !! "year" = Some (VInt n).
Proof.
  unfold coerce_year. destruct (data !! "year") as [y|] eqn:Hy.
  - destruct (to_int y None) as [[n|]|]; cbn; intros [= <-].
    right. exists n. by rewrite lookup_insert_eq.
  - intros [= <-]. by left.
Qed.

Lemma book_payload_lookup (e : env) (data : dict) (tags : list string) (f : string) :
  f ∉ ["updatedAt"; "createdAt"; "rating_avg"; "rating_count"; "rating_sum"] →
  book_payload e data tags !! f = (<["tags" := VList (VStr <$> tags)]> data) !! f.
Proof.
  rewrite !not_elem_of_cons. intros (? & ? & ? & ? & ? & _).
  unfold book_payload. rewrite lookup_insert_ne by done.
  rewrite !lookup_setdefault. by rewrite !decide_False by done.
Qed.

Lemma book_patch_lookup (data patch : dict) (f : string) :
  book_patch data patch → f ≠ "tags" → patch !! f = data !! f.
Proof.
  unfold book_patch. destruct (data !! "tags") as [t|].
  - intros (tags & _ & ->) Hf. by rewrite lookup_insert_ne.
  - by intros ->.
Qed.

Lemma book_patch_tags (data patch : dict) :
  book_patch data patch →
  patch !! "tags" = None ∨
  ∃ tags, patch !! "tags" = Some (VList (VStr <$> tags)) ∧ clean_tags tags.
Proof.
  unfold book_patch. destruct (data !! "tags") as [t|] eqn:Ht.
  - intros (tags & Hs & ->). right. exists tags. rewrite lookup_insert_eq.
    split; [done|]. by eapply sanitize_tags_clean.
  - intros ->. by left.
Qed.

Lemma updated_lookup (e : env) (patch d : dict) (f : string) :
  f ≠ "updatedAt" →
  (<["updatedAt" := VStr (now_iso e)]> patch ∪ d) !! f
  = match patch !! f with Some v => Some v | None => d !! f end.
Proof.
  intros Hf. destruct (patch !! f) as [v|] eqn:Hp.
  - apply lookup_union_Some_l. by rewrite lookup_insert_ne.
  - apply lookup_union_r. by rewrite lookup_insert_ne.
Qed.

Lemma rating_patch_other (e : env) (s c : Z) (avg : value) (d : dict) (f : string) :
  f ∉ ["rating_sum"; "rating_count"; "rating_avg"; "updatedAt"] →
  (rating_patch e s c avg ∪ d) !! f = d !! f.
Proof.
  rewrite !not_elem_of_cons. intros (? & ? & ? & ? & _).
  apply lookup_union_r. unfold rating_patch. by rewrite !lookup_insert_ne.
Qed.

(** X13. In every book of the store the tags are a list of distinct tags
    of the vocabulary and the year, if there is one, is an integer: this
    holds of the books of every store reached, by any requests whatsoever,
    from one of which it holds (an empty one, say).  Creation and update
    sanitize the tags and coerce the year they are given, and rating touches
    neither. *)
Theorem book_schema_invariant (user pass : string) (rs : list (env * request)) (w : world)
    (Hinit : every_book book_wellformed w) :
  every_book book_wellformed (serve user pass rs w).
Proof.
  apply (every_book_serve book_wellformed (λ _, True)); [| | | by apply Forall_true | done].
  - intros e _ body data tags _ Hy Ht. split.
    + exists tags. rewrite book_payload_lookup by not_in_list.
      rewrite lookup_insert_eq. split; [done|]. by eapply sanitize_tags_clean.
    + rewrite book_payload_lookup by not_in_list.
      rewrite lookup_insert_ne by done. by eapply coerce_year_integer.
  - intros e _ id body data patch d _ Hy Hp [Htags Hyear]. split.
    + rewrite updated_lookup by done.
      destruct (book_patch_tags data patch Hp) as [-> | (tags & -> & Hc)]; eauto.
    + rewrite updated_lookup by done.
      rewrite (book_patch_lookup data patch) by done.
      destruct (coerce_year_integer _ _ Hy) as [-> | [n ->]]; eauto.
  - intros e d s c r avg _ _ _ _ [Htags Hyear].
    unfold book_wellformed. by rewrite !rating_patch_other by not_in_list.
Qed.

Lemma book_schema_invariant_witness :
  let book :=
    collection (serve "admin" "library123" schema_run library_world) BOOKS
      !! auto_id (sample_env 2) in
  book ≫= (.!! "tags") = Some (VList [VStr "Horror"]) ∧
  book ≫= (.!! "year") = Some (VInt 1965) ∧
  book_wellformed (default ∅ book).
Proof.
  cbn zeta. split_and!; [vm_refl | vm_refl |].
  assert (every_book book_wellformed library_world) as Hinit.
  { intros id d. change (collection library_world BOOKS) with (∅ : gmap string dict).
    by rewrite lookup_empty. }
  apply (book_schema_invariant "admin" "library123" schema_run library_world Hinit
           (auto_id (sample_env 2))).
  vm_refl.
Defined.

(** ** The range of the average *)

Lemma py_int_or_int (n : Z) : py_int (py_or (VInt n) (VInt 0)) = Ret n.
Proof. unfold py_or. cbn [truthy]. by destruct (Z.eqb_spec n 0) as [->|]. Qed.

Lemma round_half_even_lower (n d N : Z) :
  0 < d → N * d ≤ n → N ≤ round_half_even n d.
Proof.
  intros Hd Hn. unfold round_half_even.
  assert (N ≤ n / d) by (apply Z.div_le_lower_bound; lia).
  destruct (_ ?= _); [destruct (Z.even _)| |]; lia.
Qed.

Lemma round_half_even_upper (n d N : Z) :
  0 < d → n ≤ N * d → round_half_even n d ≤ N.
Proof.
  intros Hd Hn. unfold round_half_even.
  destruct (Z.eq_dec n (N * d)) as [->|Hne].
  - replace ((N * d) mod d) with 0 by (symmetry; apply Z.mod_mul; lia).
    replace (N * d / d) with N by (symmetry; apply Z.div_mul; lia).
    destruct (Z.compare_spec (2 * 0) d); lia.
  - assert (n / d < N) by (apply Z.div_lt_upper_bound; lia).
    destruct (_ ?= _); [destruct (Z.even _)| |]; lia.
Qed.

Lemma round_half_even_near (n d : Z) :
  0 < d → 2 * Z.abs (round_half_even n d * d - n) ≤ d.
Proof.
  intros Hd. unfold round_half_even.
  pose proof (Z.div_mod n d ltac:(lia)) as Hdm.
  pose proof (Z.mod_pos_bound n d Hd) as Hm.
  set (q := n / d) in *. set (r := n mod d) in *.
  assert (q * d - n = - r) as H0 by lia.
  assert ((q + 1) * d - n = d - r) as H1 by lia.
  destruct (Z.compare_spec (2 * r) d) as [Hc|Hc|Hc].
  - destruct (Z.even _); rewrite ?H0, ?H1; lia.
  - rewrite H0. lia.
  - rewrite H1. lia.
Qed.

Lemma truediv_rated (s c : Z) :
  0 < c → c ≤ s ≤ 5 * c →
  ∃ k m, 0 ≤ k ≤ 3 ∧
    truediv s c = Ret (Ffin (Qred (Qmake m (Z.to_pos (2 ^ (52 - k)))))) ∧
    2 ^ (52 - k) ≤ m ≤ 5 * 2 ^ (52 - k) ∧
    2 * Z.abs (m * c - s * 2 ^ (52 - k)) ≤ c.
Proof.
  intros Hc Hs. unfold truediv.
  destruct (Z.eqb_spec c 0) as [|_]; [lia|].
  destruct (Z.eqb_spec s 0) as [|_]; [lia|].
  rewrite !Z.abs_eq by lia.
  assert (0 ≤ Z.log2 s - Z.log2 c ≤ 3) as Hk0.
  { split.
    - assert (Z.log2 c ≤ Z.log2 s) by (apply Z.log2_le_mono; lia). lia.
    - assert (Z.log2 s ≤ Z.log2 (2 ^ 3 * c)) as H by (apply Z.log2_le_mono; lia).
      rewrite Z.mul_comm, Z.log2_mul_pow2 in H by lia. lia. }
  set (k0 := Z.log2 s - Z.log2 c) in *.
  set (k := if scale c k0 <=? scale s (- k0) then k0 else k0 - 1).
  assert (0 ≤ k ≤ 3) as Hk.
  { unfold k, scale. rewrite Z.max_r by lia. rewrite Z.max_l by lia.
    destruct (Z.leb_spec (c * 2 ^ k0) (s * 2 ^ 0)) as [|Hlt]; [lia|].
    assert (k0 ≠ 0) by (intros H0; rewrite H0 in Hlt; lia). lia. }
  clearbody k. clear k0 Hk0. cbn zeta.
  rewrite (Z.max_l (k - 52)) by lia.
  unfold scale. replace (- (k - 52)) with (52 - k) by lia.
  rewrite (Z.max_r 0 (52 - k)) by lia. rewrite (Z.max_l 0 (k - 52)) by lia.
  rewrite !Z.mul_1_r, Z.mul_1_l.
  assert (0 < 2 ^ (52 - k)) as HP by (apply Z.pow_pos_nonneg; lia).
  assert (2 ^ (52 - k) ≤ 2 ^ 52) as HP' by (apply Z.pow_le_mono_r; lia).
  set (P := 2 ^ (52 - k)) in *.
  set (m := round_half_even (s * P) c).
  assert (P ≤ m) as Hlo by (apply round_half_even_lower; nia).
  assert (m ≤ 5 * P) as Hhi by (apply round_half_even_upper; nia).
  exists k, m. split; [done|].
  destruct (Z.leb_spec (2 ^ 1024) m) as [Hov|_].
  { assert (2 ^ 52 * 5 < 2 ^ 1024) by (by vm_compute). lia. }
  split_and!; [| done | done | by apply round_half_even_near].
  rewrite !Z.sgn_pos by lia. by rewrite !Z.mul_1_l.
Qed.

Lemma truediv_range (s c : Z) :
  0 < c → c ≤ s ≤ 5 * c →
  ∃ q, truediv s c = Ret (Ffin q) ∧ (1 <= q)%Q ∧ (q <= 5)%Q ∧
       (q <= (s # Z.to_pos c) + (1 # 2 ^ 50))%Q ∧
       ((s # Z.to_pos c) <= q + (1 # 2 ^ 50))%Q.
Proof.
  intros Hc Hs.
  destruct (truediv_rated s c Hc Hs) as (k & m & Hk & -> & Hm & Hnear).
  eexists. split; [done|].
  assert (2 ^ 49 ≤ 2 ^ (52 - k)) as HP by (apply Z.pow_le_mono_r; lia).
  set (P := 2 ^ (52 - k)) in *.
  assert (Z.pos (Z.to_pos P) = P) as HpP by (apply Z2Pos.id; lia).
  assert (Z.pos (Z.to_pos c) = c) as Hpc by (by apply Z2Pos.id).
  assert (Z.abs (m * c - s * P) * 2 ^ 50 ≤ c * P) as Herr by nia.
  rewrite !Qred_correct. unfold Qle, Qplus. cbn [Qnum Qden].
  rewrite !Pos2Z.inj_mul, HpP, Hpc.
  change (Z.pos (2 ^ 50)) with (2 ^ 50).
  split_and!; lia.
Qed.

Lemma rating_in_range_invariant (user pass : string) (rs : list (env * request))
    (w : world) :
  Forall (λ er, respects_ratings er.2) rs →
  every_book rating_in_range w → every_book rating_in_range (serve user pass rs w).
Proof.
  assert (∀ f, f ∈ rating_fields → f ≠ "updatedAt" ∧ f ≠ "tags" ∧ f ≠ "year" ∧ f ≠ "createdAt")
    as Hfields.
  { intros f. unfold rating_fields. rewrite !elem_of_cons, elem_of_nil.
    intros [-> | [-> | [-> | []]]]; by split_and!. }
  assert (∀ body data, leaves_ratings body → coerce_year (default ∅ body) = Ret (Some data) →
            ∀ f, f ∈ rating_fields → data !! f = None) as Hleaves.
  { intros body data Hb Hy f Hf. destruct (Hfields f Hf) as (_ & _ & ? & _).
    rewrite (coerce_year_other _ _ _ Hy) by done.
    unfold leaves_ratings in Hb. rewrite Forall_forall in Hb. by apply Hb. }
  apply (every_book_serve rating_in_range respects_ratings).
  - intros e auth body data tags Hb Hy Ht. cbn [respects_ratings] in Hb.
    pose proof (Hleaves body data Hb Hy) as Hnone.
    exists 0, 0, (VInt 0). unfold book_payload. rewrite !lookup_insert_ne by done.
    rewrite !lookup_setdefault.
    repeat (case_decide; try done); rewrite ?lookup_setdefault;
    repeat (case_decide; try done); rewrite ?lookup_setdefault;
    repeat (case_decide; try done).
    rewrite !lookup_insert_ne by done.
    rewrite !Hnone by (unfold rating_fields; in_list). split_and!; (done || lia).
  - intros e auth id body data patch d Hb Hy Hp (s & c & avg & Hs & Hc & Hrange & Hav & Ha).
    cbn [respects_ratings] in Hb.
    pose proof (Hleaves body data Hb Hy) as Hnone.
    assert (∀ f, f ∈ rating_fields →
              (<["updatedAt" := VStr (now_iso e)]> patch ∪ d) !! f = d !! f) as Hsame.
    { intros f Hf. destruct (Hfields f Hf) as (? & ? & _).
      rewrite updated_lookup by done.
      by rewrite (book_patch_lookup data patch), Hnone by done. }
    exists s, c, avg. rewrite !Hsame by (unfold rating_fields; in_list). done.
  - intros e d s c r avg Hs Hc Hr Hav (s0 & c0 & avg0 & Hs0 & Hc0 & Hrange & _ & Ha).
    unfold dict_get in Hs, Hc. rewrite Hs0 in Hs. rewrite Hc0 in Hc.
    change (default VNone (Some ?v)) with v in Hs, Hc.
    rewrite py_int_or_int in Hs, Hc. injection Hs as <-. injection Hc as <-.
    exists (s0 + r), (c0 + 1), avg.
    split_and!; [| | lia | lia | done |]; apply lookup_union_Some_l; unfold rating_patch;
      by rewrite ?lookup_insert_ne by done; rewrite lookup_insert_eq.
Qed.

(** X14. Start from a store in whose books the rating sum lies between
    the count and five times the count, with the average the double that the
    division of the sum by the count gives (books without ratings, say), and
    serve any requests among which the book creations and updates name no
    aggregate field.  Then in every book the count is not negative, the sum
    lies between the count and five times the count, the average of a book
    without ratings is 0, and the stored average of a rated book is the
    double [rating_sum / rating_count]: a number between 1 and 5, and within
    two to the -50 of the exact quotient. *)
Theorem rating_average_in_range (user pass : string) (rs : list (env * request))
    (w : world) (id : string) (d : dict)
    (Hinit : every_book rating_in_range w)
    (Hrs : Forall (λ er, respects_ratings er.2) rs)
    (Hd : collection (serve user pass rs w) BOOKS !! id = Some d) :
  ∃ s c,
    d !! "rating_sum" = Some (VInt s) ∧
    d !! "rating_count" = Some (VInt c) ∧
    0 ≤ c ∧ c ≤ s ≤ 5 * c ∧
    (c = 0 → d !! "rating_avg" = Some (VInt 0)) ∧
    (0 < c → ∃ q, d !! "rating_avg" = Some (VFloat (Ffin q)) ∧
                  truediv s c = Ret (Ffin q) ∧
                  (1 <= q)%Q ∧ (q <= 5)%Q ∧
                  (q <= (s # Z.to_pos c) + (1 # 2 ^ 50))%Q ∧
                  ((s # Z.to_pos c) <= q + (1 # 2 ^ 50))%Q).
Proof.
  destruct (rating_in_range_invariant user pass rs w Hrs Hinit id d Hd)
    as (s & c & avg & Hs & Hc & Hrange & Hav & Ha).
  exists s, c. unfold average in Hav. split_and!; [done | done | lia | lia | lia | |].
  - intros ->. injection Hav as <-. done.
  - intros Hpos. destruct (truediv_range s c Hpos Hrange) as (q & Hq & Hbounds).
    exists q. replace (c =? 0) with false in Hav by lia. rewrite Hq in Hav.
    injection Hav as <-. done.
Qed.

Lemma rating_average_in_range_witness :
  let rated :=
    default ∅ (collection (serve "admin" "library123" library_run library_world) BOOKS
                 !! auto_id (sample_env 2)) in
  rated !! "rating_sum" = Some (VInt 12) ∧
  rated !! "rating_count" = Some (VInt 3) ∧
  ∃ q, rated !! "rating_avg" = Some (VFloat (Ffin q)) ∧ (1 <= q)%Q ∧ (q <= 5)%Q.
Proof.
  cbn zeta.
  assert (every_book rating_in_range library_world) as Hinit.
  { intros id d. change (collection library_world BOOKS) with (∅ : gmap string dict).
    by rewrite lookup_empty. }
  assert (collection (serve "admin" "library123" library_run library_world) BOOKS
            !! auto_id (sample_env 2)
          = Some (default ∅ (collection (serve "admin" "library123" library_run library_world)
                               BOOKS !! auto_id (sample_env 2)))) as Hd by vm_refl.
  destruct (rating_average_in_range "admin" "library123" library_run library_world
              (auto_id (sample_env 2)) _ Hinit library_run_respects Hd)
    as (s & c & Hs & Hc & _ & _ & _ & Hq).
  assert (default ∅ (collection (serve "admin" "library123" library_run library_world) BOOKS
                       !! auto_id (sample_env 2)) !! "rating_count" = Some (VInt 3))
    as Hc3 by vm_refl.
  assert (c = 3) as -> by congruence.
  destruct (Hq ltac:(lia)) as (q & Hq' & _ & Hlo & Hhi & _).
  split_and!; [vm_refl | done | eauto].
Defined.

(** ** The stream of a collection *)

Lemma stream_Permutation (col : string) (w : world) :
  stream col w ≡ₚ map_to_list (collection w col).
Proof. apply merge_sort_Permutation. Qed.

Lemma elem_of_stream (col : string) (w : world) (id : string) (d : dict) :
  (id, d) ∈ stream col w ↔ collection w col !! id = Some d.
Proof. by rewrite stream_Permutation, elem_of_map_to_list. Qed.

Lemma length_stream (col : string) (w : world) :
  length (stream col w) = size (collection w col).
Proof. by rewrite stream_Permutation, length_map_to_list. Qed.

Lemma NoDup_stream (col : string) (w : world) : NoDup (stream col w).*1.
Proof. rewrite stream_Permutation. apply NoDup_fst_map_to_list. Qed.

(** ** The purge *)

Lemma size_without (docs : list (string * dict)) (c : gmap string dict) :
  NoDup docs.*1 → (∀ k, k ∈ docs.*1 → is_Some (c !! k)) →
  (size (without docs c) + length docs)%nat = size c.
Proof.
  revert c. induction docs as [|[k d] docs IH]; intros c Hnd Hin; cbn; [lia|].
  apply NoDup_cons in Hnd as [Hk Hnd].
  assert (is_Some (c !! k)) as Hd by (apply Hin; cbn; in_list).
  fold (without docs (delete k c)). rewrite Nat.add_succ_r, IH; [| done |].
  - rewrite map_size_delete_Some by done.
    assert (size c ≠ 0%nat); [|lia].
    intros Hz%map_size_empty_inv. subst c. rewrite lookup_empty in Hd. by destruct Hd.
  - intros k' Hk'. rewrite lookup_delete_ne; [|by intros <-].
    apply Hin. cbn. by apply list_elem_of_further.
Qed.

Lemma delete_batch_run (col : string) (docs : list (string * dict)) (t : Z) (w : world) :
  ∃ w',
    delete_batch col docs t w = (Ret (t + Z.of_nat (length docs)), w') ∧
    collection w' col = without docs (collection w col) ∧
    _admin_tokens w' = _admin_tokens w ∧
    (∀ c, c ≠ col → collection w' c = collection w c).
Proof.
  revert t w. induction docs as [|doc docs IH]; intros t w; cbn [delete_batch].
  - exists w. cbn [length Z.of_nat]. rewrite Z.add_0_r. by split_and!.
  - destruct (IH (t + 1) (put_collection col (delete doc.1 (collection w col)) w))
      as (w' & Hrun & Hcol & Htok & Hout).
    exists w'. split_and!.
    + unfold mbind, io_bind, doc_delete. rewrite Hrun.
      by replace (t + Z.of_nat (length (doc :: docs)))
        with (t + 1 + Z.of_nat (length docs)) by (cbn [length]; lia).
    + by rewrite Hcol, collection_put_eq.
    + done.
    + intros c Hc. rewrite Hout by done. by apply collection_put_ne.
Qed.

Lemma purge_loop_run (fuel : nat) (col : string) (batch_size : nat) (t : Z) (w : world) :
  (1 ≤ batch_size)%nat → (size (collection w col) < fuel)%nat →
  ∃ w',
    purge_loop fuel col batch_size t w
    = (Ret (Some (t + Z.of_nat (size (collection w col)))), w') ∧
    collection w' col = ∅ ∧
    _admin_tokens w' = _admin_tokens w ∧
    (∀ c, c ≠ col → collection w' c = collection w c).
Proof.
  intros Hbatch. revert t w. induction fuel as [|fuel IH]; intros t w Hfuel; [lia|].
  cbn [purge_loop].
  destruct (take batch_size (stream col w)) as [|doc docs] eqn:Htake.
  - apply take_nil_inv in Htake as [-> | Hnil]; [lia|].
    assert (collection w col = ∅) as Hempty.
    { apply map_to_list_empty_iff. apply Permutation_nil_r.
      by rewrite <- stream_Permutation, Hnil. }
    exists w. rewrite Hempty, map_size_empty. cbn [Z.of_nat]. rewrite Z.add_0_r.
    by split_and!.
  - destruct (delete_batch_run col (doc :: docs) t w) as (w1 & Hrun & Hcol & Htok & Hout).
    assert ((size (collection w1 col) + length (doc :: docs))%nat = size (collection w col))
      as Hsize.
    { rewrite Hcol. apply size_without.
      - rewrite <- Htake. eapply sublist_NoDup; [apply NoDup_stream|].
        apply fmap_sublist, sublist_take.
      - intros k [[k' d] [-> Hin]]%list_elem_of_fmap. cbn.
        exists d. apply elem_of_stream. rewrite <- Htake in Hin.
        eapply elem_of_sublist; [exact Hin | apply sublist_take]. }
    cbn [length] in Hsize.
    destruct (IH (t + Z.of_nat (length (doc :: docs))) w1 ltac:(lia))
      as (w' & Hloop & Hcol' & Htok' & Hout').
    exists w'. split_and!.
    + erewrite io_bind_run by exact Hrun. rewrite Hloop.
      by replace (t + Z.of_nat (length (doc :: docs)) + Z.of_nat (size (collection w1 col)))
        with (t + Z.of_nat (size (collection w col))) by (cbn [length]; lia).
    + done.
    + congruence.
    + intros c Hc. by rewrite Hout', Hout.
Qed.

(** X15. [purge_collection] with a positive batch size terminates: given
    more rounds than the collection has documents, it returns the number of
    documents the collection had and leaves the collection empty, and every
    other collection and the cached tokens as they were. *)
Theorem purge_collection_empties (fuel : nat) (collection_name : string) (batch_size : nat)
    (w : world)
    (Hbatch : (1 ≤ batch_size)%nat)
    (Hfuel : (size (collection w collection_name) < fuel)%nat) :
  ∃ w',
    purge_collection fuel collection_name batch_size w
    = (Ret (Some (Z.of_nat (size (collection w collection_name)))), w') ∧
    collection w' collection_name = ∅ ∧
    stream collection_name w' = [] ∧
    _admin_tokens w' = _admin_tokens w ∧
    (∀ c, c ≠ collection_name → collection w' c = collection w c).
Proof.
  destruct (purge_loop_run fuel collection_name batch_size 0 w Hbatch Hfuel)
    as (w' & Hrun & Hcol & Htok & Hout).
  exists w'. split_and!; [done | done | | done | done].
  apply Permutation_nil_r. by rewrite stream_Permutation, Hcol, map_to_list_empty.
Qed.

Lemma purge_collection_empties_witness :
  let w := serve "admin" "library123" library_run library_world in
  let run := purge_collection 4 RATINGS 2 w in
  size (collection w RATINGS) = 3%nat ∧
  run.1 = Ret (Some 3) ∧
  collection run.2 RATINGS = ∅ ∧
  collection run.2 BOOKS = collection w BOOKS.
Proof.
  cbn zeta.
  assert (size (collection (serve "admin" "library123" library_run library_world) RATINGS)
          = 3%nat) as Hsize by vm_refl.
  destruct (purge_collection_empties 4 RATINGS 2
              (serve "admin" "library123" library_run library_world)
              ltac:(lia) ltac:(rewrite Hsize; lia))
    as (w' & Hrun & Hempty & _ & _ & Hout).
  rewrite Hrun, Hsize. cbn [fst snd]. split_and!; [done | done | done |].
  by apply Hout.
Defined.

Lemma purge_each_run (fuel : nat) (cols : list string) (w : world) :
  NoDup cols → Forall (λ c, (size (collection w c) < fuel)%nat) cols →
  ∃ w',
    purge_each fuel cols w
    = (Ret (Some ((λ c, Z.of_nat (size (collection w c))) <$> cols)), w') ∧
    (∀ c, c ∈ cols → collection w' c = ∅) ∧
    _admin_tokens w' = _admin_tokens w ∧
    (∀ c, c ∉ cols → collection w' c = collection w c).
Proof.
  revert w. induction cols as [|col cols IH]; intros w Hnd Hfuel.
  - exists w. split_and!; [done | | done | done]. intros c Hc. by apply elem_of_nil in Hc.
  - apply NoDup_cons in Hnd as [Hcol Hnd]. apply Forall_cons in Hfuel as [Hfuel Hrest].
    destruct (purge_loop_run fuel col 500 0 w ltac:(lia) Hfuel)
      as (w1 & Hrun & Hempty & Htok & Hout).
    fold (purge_collection fuel col 500) in Hrun.
    assert (∀ c, c ∈ cols → collection w1 c = collection w c) as Hsame.
    { intros c Hc. apply Hout. by intros ->. }
    destruct (IH w1 Hnd) as (w' & Hrun' & Hempty' & Htok' & Hout').
    { rewrite Forall_forall in Hrest. apply Forall_forall. intros c Hc.
      rewrite Hsame by done. by apply Hrest. }
    exists w'. split_and!.
    + cbn [purge_each]. erewrite io_bind_run by exact Hrun. cbn beta iota.
      erewrite io_bind_run by exact Hrun'. cbn [fmap option_fmap option_map list_fmap].
      unfold mret, io_ret. do 4 f_equal. apply list_fmap_ext. intros i c Hc.
      rewrite Hsame; [done|]. by eapply list_elem_of_lookup_2.
    + intros c [-> | Hc]%elem_of_cons; [|by apply Hempty'].
      by rewrite Hout'.
    + congruence.
    + intros c [Hne Hc]%not_elem_of_cons. by rewrite Hout', Hout.
Qed.

(** X16. The script empties the six collections the service uses and
    reports how many documents each had; any other collection stays.  It
    does not reach the tokens that a running server has cached: afterwards a
    guarded request with a token still cached there is served by its handler,
    although the session is gone from the store, and one with any other token
    is answered 401. *)
Theorem main_clears (fuel : nat) (w : world)
    (Hfuel : Forall (λ c, (size (collection w c) < fuel)%nat)
               [AUTHORS; PUBLISHERS; BOOKS; BORROW_REQUESTS; RATINGS; ADMIN_SESSIONS]) :
  ∃ w',
    main fuel w
    = (Ret (Some ((λ c, Z.of_nat (size (collection w c)))
                    <$> [AUTHORS; PUBLISHERS; BOOKS; BORROW_REQUESTS; RATINGS;
                         ADMIN_SESSIONS])), w') ∧
    (∀ c, c ∈ [AUTHORS; PUBLISHERS; BOOKS; BORROW_REQUESTS; RATINGS; ADMIN_SESSIONS] →
          collection w' c = ∅) ∧
    (∀ c, c ∉ [AUTHORS; PUBLISHERS; BOOKS; BORROW_REQUESTS; RATINGS; ADMIN_SESSIONS] →
          collection w' c = collection w c) ∧
    _admin_tokens w' = _admin_tokens w ∧
    (∀ user pass e r token,
       guard r = Some (bearer token) → strip token ≠ "" →
       if bool_decide (strip token ∈ _admin_tokens w)
       then route user pass e r w' = undecorated user pass e r w'
       else handle user pass e r w' = (unauthorized, w')).
Proof.
  destruct (purge_each_run fuel
              [AUTHORS; PUBLISHERS; BOOKS; BORROW_REQUESTS; RATINGS; ADMIN_SESSIONS] w)
    as (w' & Hrun & Hempty & Htok & Hout); [|done|].
  { repeat (apply NoDup_cons; split; [not_in_list|]). apply NoDup_nil_2. }
  exists w'. split_and!; [exact Hrun | done | done | done |].
  intros user pass e r token Hg Hne. case_bool_decide as Hin.
  - rewrite route_guard, Hg.
    apply (require_admin_cached (bearer token) (strip token));
      [apply extract_bearer | done | by rewrite Htok].
  - unfold handle. rewrite route_guard, Hg. rewrite require_admin_unknown; [done|].
    intros t Ht _. rewrite extract_bearer in Ht. injection Ht as <-.
    split; [by rewrite Htok|]. rewrite Hempty by in_list. apply lookup_empty.
Qed.

Lemma main_clears_witness :
  let w := serve "admin" "library123" library_run library_world in
  let w' := (main 10 w).2 in
  (main 10 w).1 = Ret (Some [1; 1; 1; 0; 3; 1]) ∧
  collection w' BOOKS = ∅ ∧
  collection w' ADMIN_SESSIONS = ∅ ∧
  route "admin" "library123" (sample_env 9) (SessionInfo (bearer operator_token)) w'
  = (Ret (JOk, 200), w').
Proof.
  cbn zeta.
  assert (Forall (λ c, (size (collection (serve "admin" "library123" library_run
                                            library_world) c) < 10)%nat)
            [AUTHORS; PUBLISHERS; BOOKS; BORROW_REQUESTS; RATINGS; ADMIN_SESSIONS]) as Hfuel.
  { repeat (apply Forall_cons; split; [apply Nat.ltb_lt; vm_refl|]). apply Forall_nil_2. }
  destruct (main_clears 10 _ Hfuel) as (w' & Hrun & Hempty & _ & Htok & Hguard).
  rewrite Hrun. cbn [fst snd]. split_and!.
  - vm_refl.
  - apply Hempty. in_list.
  - apply Hempty. in_list.
  - specialize (Hguard "admin" "library123" (sample_env 9)
                  (SessionInfo (bearer operator_token)) operator_token eq_refl).
    rewrite bool_decide_eq_true_2 in Hguard.
    + apply Hguard. vm_compute. discriminate.
    + apply (bool_decide_unpack _). by vm_compute.
Defined.

(** ** Listing *)

Lemma doc_to_dict_lookup (id : string) (d : dict) (f : string) :
  doc_to_dict id (Some d) !! f = if decide (f = "id") then Some (VStr id) else d !! f.
Proof.
  unfold doc_to_dict. change (default ∅ (Some d)) with d.
  case_decide as Hf; [subst f; apply lookup_insert_eq | by rewrite lookup_insert_ne].
Qed.

(** X17. [list_all] returns the documents of a collection, each exactly
    once: as many items as the collection has documents, each item a stored
    document with its id placed in the field [id] (over a stored field of
    that name, should there be one) and its other fields as stored.
    [get_one] returns for an id exactly the item of that list with this
    id. *)
Theorem list_all_complete (col : string) (w : world) :
  list_all col w = (Ret (documents col w), w) ∧
  length (documents col w) = size (collection w col) ∧
  (∀ x, x ∈ documents col w ↔
        ∃ id d, collection w col !! id = Some d ∧ x = doc_to_dict id (Some d)) ∧
  (∀ id d, collection w col !! id = Some d →
     doc_to_dict id (Some d) !! "id" = Some (VStr id) ∧
     ∀ f, f ≠ "id" → doc_to_dict id (Some d) !! f = d !! f) ∧
  NoDup ((λ x : dict, x !! "id") <$> documents col w) ∧
  (∀ id x, get_one col id w = (Ret (Some x), w) ↔
           x ∈ documents col w ∧ x !! "id" = Some (VStr id)) ∧
  (∀ get id, (col, get) ∈ [(AUTHORS, authors_get); (PUBLISHERS, pubs_get);
                            (BOOKS, books_get)] →
     get id w
     = (Ret (match collection w col !! id with
             | Some d => (JDoc (doc_to_dict id (Some d)), 200)
             | None => not_found
             end), w)).
Proof.
  assert (∀ x, x ∈ documents col w ↔
            ∃ id d, collection w col !! id = Some d ∧ x = doc_to_dict id (Some d)) as Hdocs.
  { intros x. unfold documents. rewrite list_elem_of_fmap. split.
    - intros ([id d] & -> & Hin). apply elem_of_stream in Hin. eauto.
    - intros (id & d & Hd & ->). exists (id, d). split; [done|]. by apply elem_of_stream. }
  split_and!; cycle 5.
  2:{ intros get id. rewrite !elem_of_cons, elem_of_nil.
      intros [[= -> ->] | [[= -> ->] | [[= -> ->] | []]]].
      all: unfold authors_get, pubs_get, books_get;
        erewrite io_bind_run by apply get_one_run;
        by destruct (collection w _ !! id). }
  { intros id x. rewrite get_one_run, Hdocs. split.
    - destruct (collection w col !! id) as [d|] eqn:Hd; [|done].
      intros [= <-]. split; [eauto|]. by rewrite doc_to_dict_lookup, decide_True.
    - intros [(id' & d & Hd & ->) Hid].
      rewrite doc_to_dict_lookup, decide_True in Hid by done.
      injection Hid as ->. by rewrite Hd. }
  - done.
  - unfold documents. by rewrite length_fmap, length_stream.
  - exact Hdocs.
  - intros id d _. split.
    + by rewrite doc_to_dict_lookup, decide_True.
    + intros f Hf. by rewrite doc_to_dict_lookup, decide_False.
  - unfold documents. rewrite <- list_fmap_compose.
    rewrite (list_fmap_ext _ ((λ k, Some (VStr k)) ∘ fst) (stream col w)).
    + rewrite list_fmap_compose. apply NoDup_fmap_2; [|apply NoDup_stream].
      by intros k k' [= ->].
    + intros i [id d] _. cbn [compose fst snd]. by rewrite doc_to_dict_lookup, decide_True.
Qed.

(** ** Searching *)

Lemma comprehension_filter {A} (cond : A → py bool) (l : list A) :
  match comprehension cond l with
  | Ret l' =>
      l' = filter (λ x, holds (cond x) = true) l ∧ Forall (λ x, ∃ b, cond x = Ret b) l
  | Raise ex => ∃ x, x ∈ l ∧ cond x = Raise ex
  end.
Proof.
  induction l as [|x l IH]; cbn [comprehension]; [done|].
  destruct (cond x) as [b|ex] eqn:Hx; cbn [mbind py_bind].
  - destruct (comprehension cond l) as [l'|ex]; cbn [mbind py_bind].
    + destruct IH as [-> IH]. split; [|constructor; eauto].
      rewrite filter_cons, Hx. by destruct b.
    + destruct IH as (y & Hy & Hex). exists y. split; [by apply list_elem_of_further | done].
  - exists x. split; [apply list_elem_of_here | done].
Qed.

Lemma text_matches_spec (field q : string) (x : dict) :
  text_matches field q x
  = match x !! field with
    | Some (VStr s) => Ret (contains q (lower s))
    | Some v => if truthy v then Raise AttributeError else Ret (contains q "")
    | None => Ret (contains q "")
    end.
Proof.
  unfold text_matches, py_or. destruct (x !! field) as [v|]; [|done].
  change (default (VStr "") (Some v)) with v.
  destruct v as [|b|n|f|s|l|d]; try done.
  - by destruct b.
  - cbn [truthy]. by destruct (n =? 0).
  - by destruct (truthy (VFloat f)).
  - by destruct s.
  - by destruct l.
  - by destruct d.
Qed.

Lemma contains_empty (q : string) : q ≠ "" → contains q "" = false.
Proof. by destruct q. Qed.

Lemma text_filter_run (field q : string) (items : list dict) (k : list dict → io response)
    (w : world) :
  ((if truthy (VStr q) then lift (comprehension (text_matches field q) items)
    else mret items) ≫= k) w
  = if bool_decide (q = "") then k items w
    else match comprehension (text_matches field q) items with
         | Ret l => k l w
         | Raise ex => (Raise ex, w)
         end.
Proof.
  destruct q as [|c q]; [done|]. cbn [truthy]. rewrite bool_decide_eq_false_2 by done.
  apply io_bind_lift.
Qed.

Lemma paginated_returns (args : query) (items : list dict) (w : world) :
  ∃ resp, paginated args items w = (Ret resp, w).
Proof.
  unfold paginated. rewrite io_bind_lift.
  destruct (parse_limit_arg (args !! "limit")) as (n & -> & _).
  rewrite io_bind_lift.
  destruct (parse_offset_arg (args !! "offset")) as (m & -> & _). by eexists.
Qed.

Lemma text_matches_returns (field q : string) (x : dict) :
  (∃ b, text_matches field q x = Ret b) ↔ ¬ unsearchable field x.
Proof.
  rewrite text_matches_spec. unfold unsearchable. split.
  - intros [b Hb] (v & Hv & Ht & Hs). rewrite Hv, Ht in Hb.
    destruct v; try done. by destruct (Hs s).
  - intros Hbad. destruct (x !! field) as [v|]; [|eauto].
    destruct v; eauto; destruct (truthy _) eqn:Ht; eauto;
      destruct Hbad; eexists; by split_and!.
Qed.

Lemma text_matches_raise (field q : string) (x : dict) (ex : exn) :
  text_matches field q x = Raise ex → ex = AttributeError ∧ unsearchable field x.
Proof.
  rewrite text_matches_spec. unfold unsearchable.
  destruct (x !! field) as [v|]; [|done].
  destruct v; try done; destruct (truthy _) eqn:Ht; try done;
    intros [= <-]; (split; [done|]); eexists; by split_and!.
Qed.

(** X18. The search of authors.  Without a search text (absent or blank)
    every author is listed.  With one, taken in lower case and without
    surrounding whitespace, the authors listed are those whose name is a
    string that contains the text once lowered.  This needs the name of every
    author to be a string, absent or falsy: a single author whose name is
    some other value (a number, say) makes every search raise
    AttributeError. *)
Theorem authors_list_search (args : query) (w : world) :
  let q := lower (arg_text args "q") in
  let matches x := holds (text_matches "name" q x) = true in
  (q = "" → authors_list args w = paginated args (documents AUTHORS w) w) ∧
  (q ≠ "" → Forall (λ x, ¬ unsearchable "name" x) (documents AUTHORS w) →
   authors_list args w = paginated args (filter matches (documents AUTHORS w)) w) ∧
  (q ≠ "" → Exists (unsearchable "name") (documents AUTHORS w) →
   authors_list args w = (Raise AttributeError, w)) ∧
  (q ≠ "" →
   ∀ x, matches x ↔ ∃ name, x !! "name" = Some (VStr name) ∧ contains q (lower name) = true).
Proof.
  cbn zeta.
  assert (authors_list args w
          = if bool_decide (lower (arg_text args "q") = "")
            then paginated args (documents AUTHORS w) w
            else match comprehension (text_matches "name" (lower (arg_text args "q")))
                         (documents AUTHORS w) with
                 | Ret l => paginated args l w
                 | Raise ex => (Raise ex, w)
                 end) as ->.
  { unfold authors_list. erewrite io_bind_run by reflexivity. apply text_filter_run. }
  pose proof (comprehension_filter (text_matches "name" (lower (arg_text args "q")))
                (documents AUTHORS w)) as Hc.
  split_and!.
  - intros ->. by rewrite bool_decide_eq_true_2.
  - intros Hq Hall. rewrite bool_decide_eq_false_2 by done.
    destruct (comprehension _ _) as [l|ex].
    + by destruct Hc as [-> _].
    + destruct Hc as (x & Hx & [_ Hbad]%text_matches_raise).
      rewrite Forall_forall in Hall. by destruct (Hall x Hx).
  - intros Hq Hbad. rewrite bool_decide_eq_false_2 by done.
    destruct (comprehension _ _) as [l|ex].
    + destruct Hc as [_ Hall]. apply Exists_exists in Hbad as (x & Hx & Hbad).
      rewrite Forall_forall in Hall. apply Hall in Hx.
      by apply text_matches_returns in Hx.
    + by destruct Hc as (x & Hx & [-> _]%text_matches_raise).
  - intros Hq x. rewrite text_matches_spec.
    destruct (x !! "name") as [v|] eqn:Hv.
    + destruct v as [| | | |s| |];
        try (split; [destruct (truthy _); cbn [holds]; [done|];
                     by rewrite contains_empty
                    | by intros (name & [=] & _)]).
      cbn [holds]. split.
      * intros Hm. exists s. split; [done|]. by destruct (contains _ _).
      * intros (name & [= <-] & ->). done.
    + cbn [holds]. rewrite contains_empty by done. split; [done | by intros (? & ? & _)].
Qed.

(** ** Filters of the publishers and the books *)

Lemma text_filter_returns (field q : string) (items : list dict)
    (k : list dict → io response) (w w' : world) (resp : response) :
  ((if truthy (VStr q) then lift (comprehension (text_matches field q) items)
    else mret items) ≫= k) w = (Ret resp, w') →
  k (filter (λ x, passes_text field q x = true) items) w = (Ret resp, w').
Proof.
  rewrite text_filter_run. unfold passes_text. case_bool_decide as Hq.
  - cbn [orb]. by rewrite filter_all by (by apply Forall_true).
  - cbn [orb].
    pose proof (comprehension_filter (text_matches field q) items) as Hc.
    destruct (comprehension _ _) as [l|ex]; [|done]. by destruct Hc as [-> _].
Qed.

Lemma id_filter_passes (field wanted : string) (items : list dict) :
  (if truthy (VStr wanted)
   then filter (λ i : dict, eq_str (py_or (dict_get i field) (VStr "")) wanted = true) items
   else items)
  = filter (λ x, passes_id field wanted x = true) items.
Proof.
  unfold passes_id. destruct wanted as [|c r].
  - cbn [truthy]. rewrite bool_decide_eq_true_2 by done. cbn [orb].
    by rewrite filter_all by (by apply Forall_true).
  - cbn [truthy]. by rewrite bool_decide_eq_false_2 by done.
Qed.

Lemma tags_filter_returns (args : query) (items : list dict)
    (k : list dict → io response) (w w' : world) (resp : response) :
  ((if truthy (VStr (arg_text args "tags")) && bool_decide (wanted_tags args ≠ [])
    then lift (comprehension (has_tags (wanted_tags args)) items)
    else mret items) ≫= k) w = (Ret resp, w') →
  k (filter (λ x, passes_tags (wanted_tags args) x = true) items) w = (Ret resp, w').
Proof.
  unfold passes_tags.
  assert (truthy (VStr (arg_text args "tags")) && bool_decide (wanted_tags args ≠ [])
          = negb (bool_decide (wanted_tags args = []))) as ->.
  { unfold wanted_tags. destruct (arg_text args "tags") as [|c r] eqn:Hp; [done|].
    cbn [truthy andb]. by repeat case_bool_decide. }
  case_bool_decide as Hq; cbn [negb orb].
  - by rewrite filter_all by (by apply Forall_true).
  - rewrite io_bind_lift.
    pose proof (comprehension_filter (has_tags (wanted_tags args)) items) as Hc.
    destruct (comprehension _ _) as [l|ex]; [|done]. by destruct Hc as [-> _].
Qed.

Lemma existsb_eq_str (t : string) (tags : list string) :
  existsb (λ x, eq_str x t) (VStr <$> tags) = bool_decide (t ∈ tags).
Proof.
  induction tags as [|s tags IH]; [done|].
  cbn [fmap list_fmap existsb eq_str]. rewrite IH.
  destruct (String.eqb_spec s t) as [->|Hne].
  - cbn [orb]. symmetry. apply bool_decide_eq_true_2, list_elem_of_here.
  - cbn [orb]. apply bool_decide_ext. rewrite elem_of_cons. split; [tauto|].
    by intros [->|?].
Qed.

Lemma has_tags_strings (tag_filters tags : list string) (x : dict) :
  x !! "tags" = Some (VList (VStr <$> tags)) →
  has_tags tag_filters x = Ret (forallb (λ t, bool_decide (t ∈ tags)) tag_filters).
Proof.
  intros Hx. unfold has_tags, dict_get. rewrite Hx.
  change (default VNone (Some ?v)) with v.
  assert (py_set (py_or (VList (VStr <$> tags)) (VList [])) = Ret (VStr <$> tags)) as ->.
  { destruct tags as [|t tags]; [done|].
    unfold py_or, py_set. cbn [truthy fmap list_fmap iterate mbind py_bind forallb].
    assert (forallb (λ x, match x with VList _ | VDict _ => false | _ => true end)
              (VStr <$> tags) = true) as ->; [|done].
    clear Hx. induction tags as [|s r IH]; [done | exact IH]. }
  cbn [mbind py_bind]. f_equal.
  induction tag_filters as [|t r IH]; [done|].
  cbn [forallb]. by rewrite IH, existsb_eq_str.
Qed.

(** X19. When the list of publishers or the list of books returns, it is
    the page of the documents that pass all filters of the query at once:
    name and city for publishers; title, author id, publisher id and tags for
    books, where a filter that the query leaves empty lets every document
    pass.  A book whose tags are a list of strings passes the tags filter
    exactly when it carries every tag asked for. *)
Theorem list_filters_conjoin (args : query) (w w' : world) (resp : response) :
  (pubs_list args w = (Ret resp, w') →
   paginated args (filter (λ x, pubs_match args x = true) (documents PUBLISHERS w)) w
   = (Ret resp, w')) ∧
  (books_list args w = (Ret resp, w') →
   paginated args (filter (λ x, books_match args x = true) (documents BOOKS w)) w
   = (Ret resp, w')) ∧
  (∀ x tags, x !! "tags" = Some (VList (VStr <$> tags)) →
     passes_tags (wanted_tags args) x = true ↔ ∀ t, t ∈ wanted_tags args → t ∈ tags).
Proof.
  split_and!.
  - unfold pubs_list. erewrite io_bind_run by reflexivity. fold (documents PUBLISHERS w).
    intros H%text_filter_returns%text_filter_returns.
    rewrite list_filter_filter in H. rewrite <- H. f_equal.
    apply list_filter_iff. intros x. unfold pubs_match.
    rewrite andb_true_iff. tauto.
  - unfold books_list. erewrite io_bind_run by reflexivity. fold (documents BOOKS w).
    intros H%text_filter_returns. cbn zeta in H.
    rewrite !id_filter_passes in H. fold (wanted_tags args) in H.
    apply tags_filter_returns in H.
    rewrite !list_filter_filter in H. rewrite <- H. f_equal.
    apply list_filter_iff. intros x. unfold books_match.
    rewrite !andb_true_iff. tauto.
  - intros x tags Hx. unfold passes_tags. rewrite (has_tags_strings _ tags) by done.
    cbn [holds]. case_bool_decide as Hnil.
    + rewrite Hnil. split; [|done]. intros _ t Ht. by apply elem_of_nil in Ht.
    + cbn [orb].
      assert (∀ b : bool, match b with true => true | false => false end = b) as ->
        by (by intros []).
      rewrite forallb_forall. split.
      * intros Hall t Ht. apply (bool_decide_eq_true_1 _), Hall. by apply list_elem_of_In.
      * intros Hall t Ht. apply bool_decide_eq_true_2, Hall. by apply list_elem_of_In.
Qed.

Lemma list_filters_conjoin_witness :
  let w := serve "admin" "library123" schema_run library_world in
  wanted_tags horror_query = ["Horror"] ∧
  page_total (books_list ∅ w).1 = Some 1 ∧
  page_total (books_list horror_query w).1 = Some 1 ∧
  page_total (books_list fantasy_query w).1 = Some 0.
Proof.
  cbn zeta. split_and!; [vm_refl | vm_refl | | vm_refl].
  assert (status_of (books_list horror_query
                       (serve "admin" "library123" schema_run library_world)).1 = 200)
    as Hstatus by vm_refl.
  destruct (books_list horror_query (serve "admin" "library123" schema_run library_world))
    as [[resp|ex] w'] eqn:Hrun; [|discriminate Hstatus].
  destruct (list_filters_conjoin horror_query
              (serve "admin" "library123" schema_run library_world) w' resp)
    as (_ & Hbooks & _).
  apply Hbooks in Hrun. cbn [fst].
  change (Ret resp) with (Ret resp, w').1. rewrite <- Hrun. vm_refl.
Defined.

(** ** Checks of a book update *)




(** ** The page of a list *)











Example list_page_run :
  effective_limit an_query = 2 ∧
  effective_offset an_query = 1 ∧
  page_ids (authors_list an_query four_authors).1 = [Some (VStr "a3"); Some (VStr "a4")] ∧
  page_total (authors_list an_query four_authors).1 = Some 3 ∧
  page_more (authors_list an_query four_authors).1 = Some false ∧
  page_ids (authors_list {[ "limit" := "1" ]} four_authors).1 = [Some (VStr "a1")] ∧
  page_more (authors_list {[ "limit" := "1" ]} four_authors).1 = Some true ∧
  effective_limit {[ "limit" := "500" ]} = 100 ∧
  effective_limit {[ "limit" := "0" ]} = 1 ∧
  effective_limit {[ "limit" := "ten" ]} = 10 ∧
  effective_offset {[ "offset" := "-3" ]} = 0.
Proof. split_and!; vm_refl. Qed.

